(** * reg-dashboard: the ingestion pipeline, embedded and checked

    A shallow embedding of the TypeScript sources of the regulation
    dashboard (db.ts, analyzer.ts, crawler.ts, ingest.ts) and the
    theorems that settle the properties stated about them.

    Conventions of the embedding.
    - A JavaScript string is a [string]: a sequence of 8-bit characters.
      Case mapping, white space and [length] are those of the ASCII
      range (SQLite's [lower()] has exactly that case mapping).
    - A JavaScript number is a [number]: NaN, the two infinities, or a
      finite value kept as an exact rational (every finite double is
      one).
    - Code that writes to the store runs in the monad [M]: the store is
      threaded explicitly and a statement either returns or throws.
    - The clock, the network and the builtins [JSON.parse], [Number] on
      non-numbers and [new URL] are inputs of the functions that use
      them. *)

From Stdlib Require Import Bool Arith ZArith QArith Qround Lia List Ascii String DecimalString.
Import ListNotations.

Set Implicit Arguments.
Set Warnings "-register-all".

Local Close Scope Q_scope.
Local Open Scope string_scope.

(* ================================================================= *)
(** * JavaScript values and builtins *)

Module JS.

(** ** Numbers *)

Inductive number : Type :=
| NaN
| PosInf
| NegInf
| Fin (q : Q).

Definition of_Z (z : Z) : number := Fin (inject_Z z).

Definition Number_isFinite (n : number) : bool :=
  match n with Fin _ => true | _ => false end.

(** [Number.isInteger]: a finite value equal to its floor. *)
Definition Number_isInteger (n : number) : bool :=
  match n with
  | Fin q => Qeq_bool (inject_Z (Qfloor q)) q
  | _ => false
  end.

(** [Math.round]: the nearest integer, ties towards +Infinity. *)
Definition Math_round (n : number) : number :=
  match n with
  | Fin q => Fin (inject_Z (Qfloor (q + (1 # 2))%Q))
  | other => other
  end.

(** [a < b] on numbers; every comparison with NaN is false. *)
Definition lt (a b : number) : bool :=
  match a, b with
  | NaN, _ | _, NaN => false
  | PosInf, _ => false
  | _, NegInf => false
  | NegInf, _ => true
  | _, PosInf => true
  | Fin x, Fin y => match Qcompare x y with Lt => true | _ => false end
  end.

Definition gt (a b : number) : bool := lt b a.

(** [a === b] on numbers. *)
Definition number_eqb (a b : number) : bool :=
  match a, b with
  | PosInf, PosInf | NegInf, NegInf => true
  | Fin x, Fin y => Qeq_bool x y
  | _, _ => false
  end.

(** ** Characters and strings *)

Definition code (c : ascii) : nat := nat_of_ascii c.

(** White space of the ASCII range: TAB, LF, VT, FF, CR and space. *)
Definition is_space (c : ascii) : bool :=
  let n := code c in (((9 <=? n) && (n <=? 13)) || (n =? 32))%nat.

Definition is_upper (c : ascii) : bool :=
  let n := code c in ((65 <=? n) && (n <=? 90))%nat.

Definition lower_char (c : ascii) : ascii :=
  if is_upper c then ascii_of_nat (code c + 32) else c.

Fixpoint toLowerCase (s : string) : string :=
  match s with
  | EmptyString => EmptyString
  | String c s' => String (lower_char c) (toLowerCase s')
  end.

Fixpoint trimStart (s : string) : string :=
  match s with
  | String c s' => if is_space c then trimStart s' else s
  | EmptyString => EmptyString
  end.

Fixpoint trimEnd (s : string) : string :=
  match s with
  | EmptyString => EmptyString
  | String c s' =>
      match trimEnd s' with
      | EmptyString => if is_space c then EmptyString else String c EmptyString
      | t => String c t
      end
  end.

Definition trim (s : string) : string := trimEnd (trimStart s).

(** Truthiness of a string: non-empty. *)
Definition truthy (s : string) : bool :=
  match s with EmptyString => false | _ => true end.

(** [a || b] on strings. *)
Definition or_else (a b : string) : string := if truthy a then a else b.

Fixpoint startsWith (s p : string) : bool :=
  match p, s with
  | EmptyString, _ => true
  | String a p', String b s' => Ascii.eqb a b && startsWith s' p'
  | String _ _, EmptyString => false
  end.

Fixpoint includes (s p : string) : bool :=
  startsWith s p ||
  match s with
  | EmptyString => false
  | String _ s' => includes s' p
  end.

(** [s.slice(0, n)]. *)
Fixpoint slice0 (n : nat) (s : string) : string :=
  match n, s with
  | S n', String c s' => String c (slice0 n' s')
  | _, _ => EmptyString
  end.

Fixpoint drop (n : nat) (s : string) : string :=
  match n, s with
  | S n', String _ s' => drop n' s'
  | _, _ => s
  end.

(** [parts.join(sep)]. *)
Fixpoint join (sep : string) (parts : list string) : string :=
  match parts with
  | [] => EmptyString
  | [p] => p
  | p :: rest => p ++ sep ++ join sep rest
  end.

(** [s.split(",")] for a one-character separator. *)
Fixpoint split_on (sep : ascii) (s : string) : list string :=
  match s with
  | EmptyString => [EmptyString]
  | String c s' =>
      if Ascii.eqb c sep then EmptyString :: split_on sep s'
      else match split_on sep s' with
           | p :: rest => String c p :: rest
           | [] => [String c EmptyString]
           end
  end.

Definition is_some {A : Type} (o : option A) : bool :=
  match o with Some _ => true | None => false end.

Definition mem (k : string) (l : list string) : bool :=
  existsb (String.eqb k) l.

(** ** Regular expressions

    The patterns of the sources use literals, character classes,
    alternation, one capture group, greedy and lazy repetition of a
    character class, and the end anchor.  [rmatch] is the backtracking
    matcher of the language: alternatives are tried left to right, a
    greedy repetition longest first, a lazy one shortest first. *)

Inductive regex : Type :=
| Eps
| Chr (c : ascii)
| Class (p : ascii -> bool)
| Cat (r1 r2 : regex)
| Alt (r1 r2 : regex)
| Star (p : ascii -> bool)
| LazyStar (p : ascii -> bool)
| Group (r : regex)
| Eos.

Definition Plus (p : ascii -> bool) : regex := Cat (Class p) (Star p).

Fixpoint Str (s : string) : regex :=
  match s with
  | EmptyString => Eps
  | String c EmptyString => Chr c
  | String c s' => Cat (Chr c) (Str s')
  end.

Fixpoint Alts (l : list string) : regex :=
  match l with
  | [] => Class (fun _ => false)
  | [s] => Str s
  | s :: rest => Alt (Str s) (Alts rest)
  end.

(** The patterns that take at least one character. *)
Fixpoint consuming (r : regex) : bool :=
  match r with
  | Chr _ | Class _ => true
  | Cat r1 r2 => consuming r1 || consuming r2
  | Alt r1 r2 => consuming r1 && consuming r2
  | Group r1 => consuming r1
  | _ => false
  end.

Definition any_char : ascii -> bool := fun _ => true.
Definition not_char (c : ascii) : ascii -> bool := fun x => negb (Ascii.eqb x c).
Definition dquote : ascii := ascii_of_nat 34.
Definition squote : ascii := ascii_of_nat 39.
Definition is_quote : ascii -> bool :=
  fun x => Ascii.eqb x dquote || Ascii.eqb x squote.
Definition not_quote : ascii -> bool := fun x => negb (is_quote x).

Definition chr_eqb (ic : bool) (a b : ascii) : bool :=
  if ic then Ascii.eqb (lower_char a) (lower_char b) else Ascii.eqb a b.

Section Matcher.
Variable R : Type.
(** [ic] is the [i] flag. *)
Variable ic : bool.

Fixpoint star_greedy (p : ascii -> bool) (k : string -> option R) (s : string)
  : option R :=
  match s with
  | String c s' =>
      if p c then
        match star_greedy p k s' with
        | Some x => Some x
        | None => k s
        end
      else k s
  | EmptyString => k s
  end.

Fixpoint star_lazy (p : ascii -> bool) (k : string -> option R) (s : string)
  : option R :=
  match k s with
  | Some x => Some x
  | None =>
      match s with
      | String c s' => if p c then star_lazy p k s' else None
      | EmptyString => None
      end
  end.

(** The continuation receives the rest of the input and the text of
    the capture group, when it has taken part in the match. *)
Fixpoint rmatch (r : regex) (s : string) (cap : option string)
         (k : string -> option string -> option R) : option R :=
  match r with
  | Eps => k s cap
  | Chr c =>
      match s with
      | String x s' => if chr_eqb ic c x then k s' cap else None
      | EmptyString => None
      end
  | Class p =>
      match s with
      | String x s' => if p x then k s' cap else None
      | EmptyString => None
      end
  | Cat r1 r2 => rmatch r1 s cap (fun s' cap' => rmatch r2 s' cap' k)
  | Alt r1 r2 =>
      match rmatch r1 s cap k with
      | Some x => Some x
      | None => rmatch r2 s cap k
      end
  | Star p => star_greedy p (fun s' => k s' cap) s
  | LazyStar p => star_lazy p (fun s' => k s' cap) s
  | Group r1 =>
      rmatch r1 s cap
        (fun s' _ => k s' (Some (slice0 (String.length s - String.length s') s)))
  | Eos =>
      match s with
      | EmptyString => k s cap
      | _ => None
      end
  end.
End Matcher.

(** A match at the head of [s]: the number of characters it takes and
    the capture. *)
Definition match_here (ic : bool) (r : regex) (s : string)
  : option (nat * option string) :=
  rmatch ic r s None
    (fun rest cap => Some (String.length s - String.length rest, cap)).

Record MatchResult : Type := {
  m_index : nat;
  m_text : string;
  m_group : option string;
}.

(** [r.exec(s)]: the leftmost match. *)
Fixpoint exec_from (ic : bool) (r : regex) (i : nat) (s : string)
  : option MatchResult :=
  match match_here ic r s with
  | Some (n, cap) =>
      Some {| m_index := i; m_text := slice0 n s; m_group := cap |}
  | None =>
      match s with
      | String _ s' => exec_from ic r (S i) s'
      | EmptyString => None
      end
  end.

Definition exec (ic : bool) (r : regex) (s : string) : option MatchResult :=
  exec_from ic r 0 s.

(** [r.test(s)]. *)
Definition test (ic : bool) (r : regex) (s : string) : bool :=
  match exec ic r s with Some _ => true | None => false end.

(** [s.replace(r, by)] with the [g] flag.  [skip] counts the characters
    still covered by the match found last. *)
Fixpoint replace_from (ic : bool) (r : regex) (by_ : string) (skip : nat)
         (s : string) : string :=
  match skip with
  | S n =>
      match s with
      | String _ s' => replace_from ic r by_ n s'
      | EmptyString => EmptyString
      end
  | O =>
      match match_here ic r s with
      | Some (S n, _) =>
          by_ ++ match s with
                 | String _ s' => replace_from ic r by_ n s'
                 | EmptyString => EmptyString
                 end
      | Some (O, _) =>
          by_ ++ match s with
                 | String c s' => String c (replace_from ic r by_ 0 s')
                 | EmptyString => EmptyString
                 end
      | None =>
          match s with
          | String c s' => String c (replace_from ic r by_ 0 s')
          | EmptyString => EmptyString
          end
      end
  end.

Definition replaceAll (ic : bool) (r : regex) (by_ : string) (s : string) : string :=
  replace_from ic r by_ 0 s.

(** [s.match(r)] with the [g] flag: the texts of the successive
    matches ([null] is the empty list). *)
Fixpoint match_from (ic : bool) (r : regex) (skip : nat) (s : string)
  : list string :=
  match skip with
  | S n =>
      match s with
      | String _ s' => match_from ic r n s'
      | EmptyString => []
      end
  | O =>
      match match_here ic r s with
      | Some (n, _) =>
          slice0 n s ::
          match s with
          | String _ s' => match_from ic r (pred n) s'
          | EmptyString => []
          end
      | None =>
          match s with
          | String _ s' => match_from ic r 0 s'
          | EmptyString => []
          end
      end
  end.

Definition matchAll (ic : bool) (r : regex) (s : string) : list string :=
  match_from ic r 0 s.

(** ** Thrown values and settled promises *)

Inductive thrown : Type :=
| Error (message : string)          (* an [Error] object, SqliteError included *)
| NotAnError (repr : string).       (* any other thrown value *)

Definition instanceof_Error (e : thrown) : bool :=
  match e with Error _ => true | NotAnError _ => false end.

Inductive result (A : Type) : Type :=
| Ok (a : A)
| Throw (e : thrown).
Arguments Ok {A} a.
Arguments Throw {A} e.

(** The outcome of [Promise.allSettled] for one promise. *)
Inductive settled (A : Type) : Type :=
| Fulfilled (value : A)
| Rejected (reason : thrown).
Arguments Fulfilled {A} value.
Arguments Rejected {A} reason.

End JS.

(* ================================================================= *)
(** * SHA-1, as [crypto.createHash("sha1").update(s).digest("hex")] *)

Module Sha1.
Local Open Scope Z_scope.

Definition mask32 : Z := 4294967295.
Definition add32 (a b : Z) : Z := Z.land (a + b) mask32.
Definition rotl (n x : Z) : Z :=
  Z.land (Z.lor (Z.shiftl x n) (Z.shiftr x (32 - n))) mask32.
Definition not32 (x : Z) : Z := Z.lxor x mask32.

Definition bytes_of_string (s : string) : list Z :=
  map (fun c => Z.of_nat (nat_of_ascii c)) (list_ascii_of_string s).

(** Big-endian bytes of [x], [n] of them. *)
Fixpoint be_bytes (n : nat) (x : Z) : list Z :=
  match n with
  | O => []
  | S n' => Z.land (Z.shiftr x (8 * Z.of_nat n')) 255 :: be_bytes n' x
  end.

(** The message, the bit 1, zeros up to 56 modulo 64, the bit length. *)
Definition pad (msg : list Z) : list Z :=
  let len := Z.of_nat (List.length msg) in
  let zeros := Z.to_nat ((55 - len) mod 64) in
  msg ++ 128 :: repeat 0 zeros ++ be_bytes 8 (8 * len).

Fixpoint chunk_aux (A : Type) (n k : nat) (acc : list A) (l : list A)
  : list (list A) :=
  match l with
  | [] => match acc with [] => [] | _ => [rev acc] end
  | x :: l' =>
      match k with
      | S O => rev (x :: acc) :: chunk_aux n n [] l'
      | S k' => chunk_aux n k' (x :: acc) l'
      | O => []
      end
  end.

Definition chunks (A : Type) (n : nat) (l : list A) : list (list A) :=
  chunk_aux n n [] l.

Definition word_of_bytes (bs : list Z) : Z :=
  fold_left (fun acc b => Z.lor (Z.shiftl acc 8) b) bs 0.

(** The message schedule, most recent word first. *)
Fixpoint extend (n : nat) (w : list Z) : list Z :=
  match n with
  | O => w
  | S n' =>
      let x := Z.lxor (Z.lxor (nth 2 w 0) (nth 7 w 0))
                      (Z.lxor (nth 13 w 0) (nth 15 w 0)) in
      extend n' (rotl 1 x :: w)
  end.

Definition schedule (block : list Z) : list Z :=
  rev (extend 64 (rev (map word_of_bytes (chunks 4 block)))).

Definition state : Type := (Z * Z * Z * Z * Z)%type.

Definition round (t : nat) (st : state) (w : Z) : state :=
  let '(a, b, c, d, e) := st in
  let '(f, k) :=
    if (t <? 20)%nat then
      (Z.lor (Z.land b c) (Z.land (not32 b) d), 1518500249)
    else if (t <? 40)%nat then
      (Z.lxor (Z.lxor b c) d, 1859775393)
    else if (t <? 60)%nat then
      (Z.lor (Z.lor (Z.land b c) (Z.land b d)) (Z.land c d), 2400959708)
    else
      (Z.lxor (Z.lxor b c) d, 3395469782) in
  let temp := add32 (add32 (add32 (add32 (rotl 5 a) f) e) k) w in
  (temp, a, rotl 30 b, c, d).

Fixpoint rounds (t : nat) (st : state) (ws : list Z) : state :=
  match ws with
  | [] => st
  | w :: ws' => rounds (S t) (round t st w) ws'
  end.

Definition compress (h : state) (block : list Z) : state :=
  let '(h0, h1, h2, h3, h4) := h in
  let '(a, b, c, d, e) := rounds 0 h (schedule block) in
  (add32 h0 a, add32 h1 b, add32 h2 c, add32 h3 d, add32 h4 e).

Definition initial : state :=
  (1732584193, 4023233417, 2562383102, 271733878, 3285377520).

Definition hex_digit (n : Z) : ascii :=
  if n <? 10 then ascii_of_nat (Z.to_nat (48 + n))
  else ascii_of_nat (Z.to_nat (87 + n)).

Fixpoint hex_of_bytes (bs : list Z) : string :=
  match bs with
  | [] => EmptyString
  | b :: bs' =>
      String (hex_digit (Z.shiftr b 4))
        (String (hex_digit (Z.land b 15)) (hex_of_bytes bs'))
  end.

Definition digest_hex (s : string) : string :=
  let '(h0, h1, h2, h3, h4) :=
    fold_left compress (chunks 64 (pad (bytes_of_string s))) initial in
  hex_of_bytes
    (be_bytes 4 h0 ++ be_bytes 4 h1 ++ be_bytes 4 h2 ++ be_bytes 4 h3 ++ be_bytes 4 h4).

End Sha1.

(* ================================================================= *)
(** * db.ts: the store and the upsert engine *)

Module Db.
Import JS.

(** ** The state monad of store code

    [M S A] is a computation over a state [S] that returns an [A] or
    throws; the state reached is kept in both cases (better-sqlite3
    commits every statement on its own). *)

Definition M (S A : Type) : Type := S -> result A * S.

Definition ret {S A : Type} (a : A) : M S A := fun s => (Ok a, s).

Definition bind {S A B : Type} (m : M S A) (k : A -> M S B) : M S B :=
  fun s =>
    match m s with
    | (Ok a, s') => k a s'
    | (Throw e, s') => (Throw e, s')
    end.

Definition throw {S A : Type} (e : thrown) : M S A := fun s => (Throw e, s).

Definition gets {S A : Type} (f : S -> A) : M S A := fun s => (Ok (f s), s).

Definition modify {S : Type} (f : S -> S) : M S unit := fun s => (Ok tt, f s).

Definition try_catch {S A : Type} (m : M S A) (handler : thrown -> M S A) : M S A :=
  fun s =>
    match m s with
    | (Ok a, s') => (Ok a, s')
    | (Throw e, s') => handler e s'
    end.

Declare Scope monad_scope.
Delimit Scope monad_scope with monad.
Notation "x <- m ;; k" := (bind m (fun x => k))
  (at level 61, m at next level, right associativity) : monad_scope.
Notation "m ;;; k" := (bind m (fun _ => k))
  (at level 61, right associativity) : monad_scope.
Local Open Scope monad_scope.

(** ** Enumerations *)

Inductive Stage : Type :=
| proposed | introduced | committee_review | passed | enacted
| effective | amended | withdrawn | rejected.

Inductive AgeBracket : Type :=
| bracket_13_15 | bracket_16_18 | bracket_both.

Inductive AuthorityType : Type :=
| national | state_authority | local_authority | supranational.

Inductive UpsertStatus : Type :=
| created | updated | status_changed | unchanged.

(** The [status] column of [crawl_runs]. *)
Inductive RunStatus : Type :=
| running | completed | partial | failed.

(** The status a pass ends with. *)
Inductive CrawlStatus : Type :=
| crawl_completed | crawl_partial | crawl_failed.

Definition run_status_of (s : CrawlStatus) : RunStatus :=
  match s with
  | crawl_completed => completed
  | crawl_partial => partial
  | crawl_failed => failed
  end.

Scheme Equality for Stage.
Scheme Equality for AgeBracket.

Definition allowedStages : list Stage :=
  [proposed; introduced; committee_review; passed; enacted;
   effective; amended; withdrawn; rejected].

Definition stage_name (s : Stage) : string :=
  match s with
  | proposed => "proposed"
  | introduced => "introduced"
  | committee_review => "committee_review"
  | passed => "passed"
  | enacted => "enacted"
  | effective => "effective"
  | amended => "amended"
  | withdrawn => "withdrawn"
  | rejected => "rejected"
  end.

(** ** Rows and inputs *)

Record SourceRegistryRow : Type := {
  src_id : Z;
  src_name : string;
  src_url : string;
  src_authority_type : AuthorityType;
  src_jurisdiction : string;
  src_reliability_tier : Z;
  src_last_crawled_at : option string;
  src_created_at : string;
}.

Record RegulationEventDbRow : Type := {
  ev_id : string;
  ev_title : string;
  ev_jurisdiction_country : string;
  ev_jurisdiction_state : string;
  ev_age_bracket : AgeBracket;
  ev_stage : Stage;
  ev_is_under16_applicable : Z;
  ev_impact_score : Z;
  ev_likelihood_score : Z;
  ev_confidence_score : Z;
  ev_chili_score : Z;
  ev_summary : option string;
  ev_business_impact : string;
  ev_required_solutions : string;     (* JSON array *)
  ev_affected_products : string;      (* JSON array *)
  ev_competitor_responses : string;   (* JSON array *)
  ev_provenance_links : string;       (* JSON array *)
  ev_raw_source_text : option string;
  ev_effective_date : option string;
  ev_published_date : option string;
  ev_source_id : Z;
  ev_source_url : string;
  ev_created_at : string;
  ev_updated_at : string;
  ev_last_crawled_at : option string;
}.

Record StatusChangeRow : Type := {
  sc_id : Z;
  sc_event_id : string;
  sc_previous_stage : Stage;
  sc_new_stage : Stage;
  sc_changed_at : string;
}.

Record CrawlRunRow : Type := {
  run_id : Z;
  run_started_at : string;
  run_finished_at : option string;
  run_status : RunStatus;
  run_sources_attempted : Z;
  run_sources_success : Z;
  run_sources_failed : Z;
  run_items_discovered : Z;
  run_events_created : Z;
  run_events_updated : Z;
  run_events_status_changed : Z;
  run_events_ignored : Z;
}.

Record SourceInput : Type := {
  si_name : string;
  si_url : string;
  si_authorityType : AuthorityType;
  si_jurisdiction : string;
  si_reliabilityTier : Z;
  si_lastCrawledAt : option string;
}.

Record RegulationEventInput : Type := {
  title : string;
  jurisdictionCountry : string;
  jurisdictionState : option string;
  stage : Stage;
  ageBracket : AgeBracket;
  isUnder16Applicable : bool;
  impactScore : number;
  likelihoodScore : number;
  confidenceScore : number;
  chiliScore : number;
  summary : string;
  businessImpact : string;
  requiredSolutions : list string;
  affectedMetaProducts : list string;
  competitorResponses : list string;
  rawSourceText : string;
  provenanceLinks : list string;
  effectiveDate : option string;
  publishedDate : option string;
  sourceName : string;
  sourceUrl : string;
  sourceJurisdiction : string;
  sourceAuthorityType : AuthorityType;
  sourceReliabilityTier : Z;
}.

Record UpsertEventResult : Type := {
  res_id : string;
  res_status : UpsertStatus;
  wasStatusChange : bool;
  previousStage : option Stage;
}.

Record FinalizeValues : Type := {
  fv_status : CrawlStatus;
  fv_sourcesAttempted : Z;
  fv_sourcesSuccess : Z;
  fv_sourcesFailed : Z;
  fv_itemsDiscovered : Z;
  fv_eventsCreated : Z;
  fv_eventsUpdated : Z;
  fv_eventsStatusChanged : Z;
  fv_eventsIgnored : Z;
}.

(** A write statement run against [crawl_runs]. *)
Inductive LedgerStatement : Type :=
| InsertRun (id : Z)
| UpdateRun (id : Z) (status : RunStatus).

(** The store: the four tables the pipeline writes, in row order, the
    AUTOINCREMENT counters of [sqlite_sequence], and the statements run
    against [crawl_runs], oldest first. *)
Record Database : Type := {
  sources : list SourceRegistryRow;
  sources_seq : Z;
  regulation_events : list RegulationEventDbRow;
  status_changes : list StatusChangeRow;
  status_changes_seq : Z;
  crawl_runs : list CrawlRunRow;
  crawl_runs_seq : Z;
  crawl_runs_log : list LedgerStatement;
}.

Definition emptyDatabase : Database :=
  {| sources := []; sources_seq := 0; regulation_events := [];
     status_changes := []; status_changes_seq := 0;
     crawl_runs := []; crawl_runs_seq := 0; crawl_runs_log := [] |}.

Definition with_sources (db : Database) (rows : list SourceRegistryRow) (seq : Z)
  : Database :=
  {| sources := rows; sources_seq := seq;
     regulation_events := regulation_events db;
     status_changes := status_changes db;
     status_changes_seq := status_changes_seq db;
     crawl_runs := crawl_runs db; crawl_runs_seq := crawl_runs_seq db;
     crawl_runs_log := crawl_runs_log db |}.

Definition with_events (db : Database) (rows : list RegulationEventDbRow)
  : Database :=
  {| sources := sources db; sources_seq := sources_seq db;
     regulation_events := rows;
     status_changes := status_changes db;
     status_changes_seq := status_changes_seq db;
     crawl_runs := crawl_runs db; crawl_runs_seq := crawl_runs_seq db;
     crawl_runs_log := crawl_runs_log db |}.

Definition with_status_changes (db : Database) (rows : list StatusChangeRow)
           (seq : Z) : Database :=
  {| sources := sources db; sources_seq := sources_seq db;
     regulation_events := regulation_events db;
     status_changes := rows; status_changes_seq := seq;
     crawl_runs := crawl_runs db; crawl_runs_seq := crawl_runs_seq db;
     crawl_runs_log := crawl_runs_log db |}.

Definition with_crawl_runs (db : Database) (rows : list CrawlRunRow) (seq : Z)
           (log : list LedgerStatement) : Database :=
  {| sources := sources db; sources_seq := sources_seq db;
     regulation_events := regulation_events db;
     status_changes := status_changes db;
     status_changes_seq := status_changes_seq db;
     crawl_runs := rows; crawl_runs_seq := seq; crawl_runs_log := log |}.

(** The rowid an AUTOINCREMENT table gives its next row: one more than
    the largest rowid the table has ever held. *)
Definition next_rowid (seq : Z) (ids : list Z) : Z :=
  (fold_left Z.max ids seq + 1)%Z.

(** ** Helpers of db.ts *)

Definition normalizeJurisdictionState (value : option string) : string :=
  trim (match value with Some v => v | None => EmptyString end).

(** The integer an INTEGER column keeps of an integral number. *)
Definition to_Z (n : number) : Z :=
  match n with Fin q => Qfloor q | _ => 0%Z end.

Definition normalizeScore (value : number) : number :=
  if negb (Number_isInteger value) then of_Z 1
  else if lt value (of_Z 1) then of_Z 1
  else if gt value (of_Z 5) then of_Z 5
  else value.

Definition dedupeKey (country state title : string) : string :=
  toLowerCase country ++ "|" ++ toLowerCase state ++ "|" ++ toLowerCase title.

Definition deterministicEventId (dedupe : string) : string :=
  Sha1.digest_hex dedupe.

Definition backslash : ascii := ascii_of_nat 92.

Definition hex4 (n : nat) : string :=
  String "0" (String "0"
    (String (Sha1.hex_digit (Z.of_nat (n / 16)))
      (String (Sha1.hex_digit (Z.of_nat (n mod 16))) EmptyString))).

(** The JSON escape of one character. *)
Definition json_escape (c : ascii) : string :=
  let n := code c in
  if Ascii.eqb c dquote then String backslash (String dquote EmptyString)
  else if Ascii.eqb c backslash then String backslash (String backslash EmptyString)
  else if (n =? 8)%nat then String backslash "b"
  else if (n =? 9)%nat then String backslash "t"
  else if (n =? 10)%nat then String backslash "n"
  else if (n =? 12)%nat then String backslash "f"
  else if (n =? 13)%nat then String backslash "r"
  else if (n <? 32)%nat then String backslash (String "u" (hex4 n))
  else String c EmptyString.

Fixpoint json_escape_string (s : string) : string :=
  match s with
  | EmptyString => EmptyString
  | String c s' => json_escape c ++ json_escape_string s'
  end.

Definition json_quote (s : string) : string :=
  String dquote (json_escape_string s ++ String dquote EmptyString).

(** [JSON.stringify] of an array of strings. *)
Definition stringifyJsonArray (values : list string) : string :=
  "[" ++ join "," (map json_quote values) ++ "]".

Fixpoint find_stage (name : string) (l : list Stage) : option Stage :=
  match l with
  | [] => None
  | s :: l' => if String.eqb (stage_name s) name then Some s else find_stage name l'
  end.

(** [extractStage] reads the text of a [stage] column. *)
Definition extractStage (row : string) : Stage :=
  match find_stage row allowedStages with
  | Some s => s
  | None => proposed
  end.

(** ** Statements on [sources] *)

Definition source_checks (tier : Z) : bool :=
  ((1 <=? tier) && (tier <=? 5))%Z.

(** Another row already carries this name: UNIQUE(name) would fail. *)
Definition name_taken (rows : list SourceRegistryRow) (name url : string) : bool :=
  existsb (fun r => String.eqb (src_name r) name && negb (String.eqb (src_url r) url)) rows.

Definition has_url (url : string) (r : SourceRegistryRow) : bool :=
  String.eqb (src_url r) url.

(** The DO UPDATE arm of the upsert: [created_at] keeps its value. *)
Definition refresh_source (source : SourceInput) (timestamp : string)
           (r : SourceRegistryRow) : SourceRegistryRow :=
  {| src_id := src_id r;
     src_name := si_name source;
     src_url := src_url r;
     src_authority_type := si_authorityType source;
     src_jurisdiction := si_jurisdiction source;
     src_reliability_tier := si_reliabilityTier source;
     src_last_crawled_at := Some timestamp;
     src_created_at := src_created_at r |}.

Definition upsertSource (now : string) (source : SourceInput) : M Database Z :=
  fun db =>
    let timestamp :=
      match si_lastCrawledAt source with Some t => t | None => now end in
    let rows := sources db in
    if negb (source_checks (si_reliabilityTier source)) then
      (Throw (Error "CHECK constraint failed: reliability_tier"), db)
    else if name_taken rows (si_name source) (si_url source) then
      (Throw (Error "UNIQUE constraint failed: sources.name"), db)
    else
      let db' :=
        if existsb (has_url (si_url source)) rows then
          with_sources db
            (map (fun r => if has_url (si_url source) r
                           then refresh_source source timestamp r else r) rows)
            (sources_seq db)
        else
          let id := next_rowid (sources_seq db) (map src_id rows) in
          with_sources db
            (rows ++ [ {| src_id := id;
                          src_name := si_name source;
                          src_url := si_url source;
                          src_authority_type := si_authorityType source;
                          src_jurisdiction := si_jurisdiction source;
                          src_reliability_tier := si_reliabilityTier source;
                          src_last_crawled_at := Some timestamp;
                          src_created_at := timestamp |} ])
            id in
      match find (has_url (si_url source)) (sources db') with
      | Some row => (Ok (src_id row), db')
      | None => (Throw (Error "Cannot read properties of undefined"), db')
      end.

(** ** Statements on [regulation_events] *)

(** The WHERE clause of the existing-row lookup: country and state as
    they are, the title through [lower()]. *)
Definition matches_identity (country state title : string)
           (r : RegulationEventDbRow) : bool :=
  String.eqb (ev_jurisdiction_country r) country
  && String.eqb (ev_jurisdiction_state r) state
  && String.eqb (toLowerCase (ev_title r)) (toLowerCase title).

(** ORDER BY updated_at DESC LIMIT 1; among rows of equal [updated_at]
    the row met first is kept. *)
Fixpoint latest (best : RegulationEventDbRow) (rows : list RegulationEventDbRow)
  : RegulationEventDbRow :=
  match rows with
  | [] => best
  | r :: rest =>
      if String.ltb (ev_updated_at best) (ev_updated_at r)
      then latest r rest else latest best rest
  end.

Definition select_existing (country state title : string)
           (rows : list RegulationEventDbRow) : option RegulationEventDbRow :=
  match filter (matches_identity country state title) rows with
  | [] => None
  | r :: rest => Some (latest r rest)
  end.

Definition score_check (z : Z) : bool := ((1 <=? z) && (z <=? 5))%Z.

(** The CHECK constraints of a [regulation_events] row. *)
Definition event_checks (r : RegulationEventDbRow) : bool :=
  ((ev_is_under16_applicable r =? 0) || (ev_is_under16_applicable r =? 1))%Z
  && score_check (ev_impact_score r) && score_check (ev_likelihood_score r)
  && score_check (ev_confidence_score r) && score_check (ev_chili_score r).

(** The unique index idx_regulation_events_dedupe. *)
Definition same_dedupe_index (a b : RegulationEventDbRow) : bool :=
  String.eqb (ev_jurisdiction_country a) (ev_jurisdiction_country b)
  && String.eqb (ev_jurisdiction_state a) (ev_jurisdiction_state b)
  && String.eqb (ev_source_url a) (ev_source_url b)
  && String.eqb (ev_title a) (ev_title b).

Definition insert_event (row : RegulationEventDbRow) : M Database unit :=
  fun db =>
    let rows := regulation_events db in
    if negb (event_checks row) then
      (Throw (Error "CHECK constraint failed: regulation_events"), db)
    else if existsb (fun r => String.eqb (ev_id r) (ev_id row)) rows then
      (Throw (Error "UNIQUE constraint failed: regulation_events.id"), db)
    else if existsb (same_dedupe_index row) rows then
      (Throw (Error "UNIQUE constraint failed: idx_regulation_events_dedupe"), db)
    else (Ok tt, with_events db (rows ++ [row])).

(** UPDATE regulation_events SET ... WHERE id = ?. *)
Definition update_event (id : string)
           (f : RegulationEventDbRow -> RegulationEventDbRow) : M Database unit :=
  modify (fun db =>
    with_events db
      (map (fun r => if String.eqb (ev_id r) id then f r else r)
           (regulation_events db))).

(** SET last_crawled_at = ?, updated_at = ?. *)
Definition touch (now : string) (r : RegulationEventDbRow) : RegulationEventDbRow :=
  {| ev_id := ev_id r;
     ev_title := ev_title r;
     ev_jurisdiction_country := ev_jurisdiction_country r;
     ev_jurisdiction_state := ev_jurisdiction_state r;
     ev_age_bracket := ev_age_bracket r;
     ev_stage := ev_stage r;
     ev_is_under16_applicable := ev_is_under16_applicable r;
     ev_impact_score := ev_impact_score r;
     ev_likelihood_score := ev_likelihood_score r;
     ev_confidence_score := ev_confidence_score r;
     ev_chili_score := ev_chili_score r;
     ev_summary := ev_summary r;
     ev_business_impact := ev_business_impact r;
     ev_required_solutions := ev_required_solutions r;
     ev_affected_products := ev_affected_products r;
     ev_competitor_responses := ev_competitor_responses r;
     ev_provenance_links := ev_provenance_links r;
     ev_raw_source_text := ev_raw_source_text r;
     ev_effective_date := ev_effective_date r;
     ev_published_date := ev_published_date r;
     ev_source_id := ev_source_id r;
     ev_source_url := ev_source_url r;
     ev_created_at := ev_created_at r;
     ev_updated_at := now;
     ev_last_crawled_at := Some now |}.

Definition flag (b : bool) : Z := if b then 1%Z else 0%Z.

(** The SET list of the content update: every content column, the two
    dates and the two time stamps. *)
Definition overwrite (now : string) (normalized : RegulationEventInput)
           (r : RegulationEventDbRow) : RegulationEventDbRow :=
  {| ev_id := ev_id r;
     ev_title := ev_title r;
     ev_jurisdiction_country := ev_jurisdiction_country r;
     ev_jurisdiction_state := ev_jurisdiction_state r;
     ev_age_bracket := ageBracket normalized;
     ev_stage := stage normalized;
     ev_is_under16_applicable := flag (isUnder16Applicable normalized);
     ev_impact_score := to_Z (impactScore normalized);
     ev_likelihood_score := to_Z (likelihoodScore normalized);
     ev_confidence_score := to_Z (confidenceScore normalized);
     ev_chili_score := to_Z (chiliScore normalized);
     ev_summary := Some (summary normalized);
     ev_business_impact := businessImpact normalized;
     ev_required_solutions := stringifyJsonArray (requiredSolutions normalized);
     ev_affected_products := stringifyJsonArray (affectedMetaProducts normalized);
     ev_competitor_responses := stringifyJsonArray (competitorResponses normalized);
     ev_provenance_links := stringifyJsonArray (provenanceLinks normalized);
     ev_raw_source_text := Some (rawSourceText normalized);
     ev_effective_date := effectiveDate normalized;
     ev_published_date := publishedDate normalized;
     ev_source_id := ev_source_id r;
     ev_source_url := ev_source_url r;
     ev_created_at := ev_created_at r;
     ev_updated_at := now;
     ev_last_crawled_at := Some now |}.

(** The VALUES list of the insert. *)
Definition new_row (now eventId country state : string) (sourceId : Z)
           (event normalized : RegulationEventInput) : RegulationEventDbRow :=
  {| ev_id := eventId;
     ev_title := title normalized;
     ev_jurisdiction_country := country;
     ev_jurisdiction_state := state;
     ev_age_bracket := ageBracket normalized;
     ev_stage := stage normalized;
     ev_is_under16_applicable := flag (isUnder16Applicable normalized);
     ev_impact_score := to_Z (impactScore normalized);
     ev_likelihood_score := to_Z (likelihoodScore normalized);
     ev_confidence_score := to_Z (confidenceScore normalized);
     ev_chili_score := to_Z (chiliScore normalized);
     ev_summary := Some (summary normalized);
     ev_business_impact := businessImpact normalized;
     ev_required_solutions := stringifyJsonArray (requiredSolutions normalized);
     ev_affected_products := stringifyJsonArray (affectedMetaProducts normalized);
     ev_competitor_responses := stringifyJsonArray (competitorResponses normalized);
     ev_provenance_links := stringifyJsonArray (provenanceLinks normalized);
     ev_raw_source_text := Some (rawSourceText normalized);
     ev_effective_date := effectiveDate normalized;
     ev_published_date := publishedDate normalized;
     ev_source_id := sourceId;
     ev_source_url := sourceUrl event;
     ev_created_at := now;
     ev_updated_at := now;
     ev_last_crawled_at := Some now |}.

Definition insert_status_change (eventId : string) (previous next : Stage)
           (now : string) : M Database unit :=
  modify (fun db =>
    let id := next_rowid (status_changes_seq db) (map sc_id (status_changes db)) in
    with_status_changes db
      (status_changes db ++
       [ {| sc_id := id; sc_event_id := eventId; sc_previous_stage := previous;
            sc_new_stage := next; sc_changed_at := now |} ])
      id).

(** The object [normalized] of [upsertRegulationEvent]. *)
Definition normalize (event : RegulationEventInput) : RegulationEventInput :=
  {| title := title event;
     jurisdictionCountry := jurisdictionCountry event;
     jurisdictionState := jurisdictionState event;
     stage := stage event;
     ageBracket := ageBracket event;
     isUnder16Applicable := isUnder16Applicable event;
     impactScore := normalizeScore (impactScore event);
     likelihoodScore := normalizeScore (likelihoodScore event);
     confidenceScore := normalizeScore (confidenceScore event);
     chiliScore := normalizeScore (chiliScore event);
     summary := or_else (summary event) ("Regulation item: " ++ title event);
     businessImpact := or_else (businessImpact event) "Unknown";
     requiredSolutions := requiredSolutions event;
     affectedMetaProducts := affectedMetaProducts event;
     competitorResponses := competitorResponses event;
     rawSourceText := or_else (rawSourceText event) EmptyString;
     provenanceLinks := provenanceLinks event;
     effectiveDate := effectiveDate event;
     publishedDate := publishedDate event;
     sourceName := sourceName event;
     sourceUrl := sourceUrl event;
     sourceJurisdiction := sourceJurisdiction event;
     sourceAuthorityType := sourceAuthorityType event;
     sourceReliabilityTier := sourceReliabilityTier event |}.

(** [a !== b] for a nullable text column and a string. *)
Definition differs_nullable (a : option string) (b : string) : bool :=
  match a with
  | Some x => negb (String.eqb x b)
  | None => true
  end.

Definition differs (a b : string) : bool := negb (String.eqb a b).

Definition score_differs (stored : Z) (n : number) : bool :=
  negb (number_eqb (of_Z stored) n).

Definition hasChanges (existing : RegulationEventDbRow)
           (normalized : RegulationEventInput) : bool :=
  negb (Stage_beq (ev_stage existing) (stage normalized))
  || negb (AgeBracket_beq (ev_age_bracket existing) (ageBracket normalized))
  || score_differs (ev_impact_score existing) (impactScore normalized)
  || score_differs (ev_likelihood_score existing) (likelihoodScore normalized)
  || score_differs (ev_confidence_score existing) (confidenceScore normalized)
  || score_differs (ev_chili_score existing) (chiliScore normalized)
  || differs (match ev_summary existing with Some x => x | None => EmptyString end)
             (summary normalized)
  || differs (ev_business_impact existing) (businessImpact normalized)
  || differs (ev_required_solutions existing)
             (stringifyJsonArray (requiredSolutions normalized))
  || differs (ev_affected_products existing)
             (stringifyJsonArray (affectedMetaProducts normalized))
  || differs (ev_competitor_responses existing)
             (stringifyJsonArray (competitorResponses normalized))
  || differs_nullable (ev_raw_source_text existing) (rawSourceText normalized)
  || differs (ev_provenance_links existing)
             (stringifyJsonArray (provenanceLinks normalized)).

Definition upsertRegulationEvent (now : string) (event : RegulationEventInput)
  : M Database UpsertEventResult :=
  let state := normalizeJurisdictionState (jurisdictionState event) in
  let country := or_else (trim (jurisdictionCountry event)) "Unknown" in
  sourceId <- upsertSource now
                {| si_name := sourceName event;
                   si_url := sourceUrl event;
                   si_authorityType := sourceAuthorityType event;
                   si_jurisdiction := sourceJurisdiction event;
                   si_reliabilityTier := sourceReliabilityTier event;
                   si_lastCrawledAt := Some now |} ;;
  existing <- gets (fun db =>
                select_existing country state (title event) (regulation_events db)) ;;
  let eventId := deterministicEventId (dedupeKey country state (title event)) in
  let normalized := normalize event in
  match existing with
  | None =>
      insert_event (new_row now eventId country state sourceId event normalized) ;;;
      ret {| res_id := eventId; res_status := created;
             wasStatusChange := false; previousStage := None |}
  | Some existing =>
      let wasStatusChange := negb (Stage_beq (ev_stage existing) (stage normalized)) in
      let previousStage := extractStage (stage_name (ev_stage existing)) in
      if negb (hasChanges existing normalized) then
        update_event (ev_id existing) (touch now) ;;;
        ret {| res_id := ev_id existing; res_status := unchanged;
               wasStatusChange := wasStatusChange;
               previousStage := Some previousStage |}
      else
        let status := if wasStatusChange then status_changed else updated in
        update_event (ev_id existing) (overwrite now normalized) ;;;
        (if wasStatusChange
         then insert_status_change (ev_id existing) previousStage (stage normalized) now
         else ret tt) ;;;
        ret {| res_id := ev_id existing; res_status := status;
               wasStatusChange := wasStatusChange;
               previousStage := Some previousStage |}
  end.

(** ** Statements on [crawl_runs] *)

Definition createCrawlRun (now : string) : M Database Z :=
  fun db =>
    let id := next_rowid (crawl_runs_seq db) (map run_id (crawl_runs db)) in
    (Ok id,
     with_crawl_runs db
       (crawl_runs db ++
        [ {| run_id := id; run_started_at := now; run_finished_at := None;
             run_status := running;
             run_sources_attempted := 0; run_sources_success := 0;
             run_sources_failed := 0; run_items_discovered := 0;
             run_events_created := 0; run_events_updated := 0;
             run_events_status_changed := 0; run_events_ignored := 0 |} ])
       id
       (crawl_runs_log db ++ [InsertRun id])).

Definition finalize_row (now : string) (values : FinalizeValues) (r : CrawlRunRow)
  : CrawlRunRow :=
  {| run_id := run_id r;
     run_started_at := run_started_at r;
     run_finished_at := Some now;
     run_status := run_status_of (fv_status values);
     run_sources_attempted := fv_sourcesAttempted values;
     run_sources_success := fv_sourcesSuccess values;
     run_sources_failed := fv_sourcesFailed values;
     run_items_discovered := fv_itemsDiscovered values;
     run_events_created := fv_eventsCreated values;
     run_events_updated := fv_eventsUpdated values;
     run_events_status_changed := fv_eventsStatusChanged values;
     run_events_ignored := fv_eventsIgnored values |}.

Definition finalizeCrawlRun (now : string) (runId : Z) (values : FinalizeValues)
  : M Database unit :=
  modify (fun db =>
    with_crawl_runs db
      (map (fun r => if (run_id r =? runId)%Z then finalize_row now values r else r)
           (crawl_runs db))
      (crawl_runs_seq db)
      (crawl_runs_log db ++ [UpdateRun runId (run_status_of (fv_status values))])).

End Db.

(* ================================================================= *)
(** * sources.ts and the items of a crawl *)

Module Sources.

(** sources.ts is not among the files at hand.  The fields of a source
    descriptor are those of the [SourceRecord] literals of the
    crawler's tests (id, name, url, authorityType, jurisdiction,
    region, reliabilityTier, kind) and the optional [notes] the crawler
    reads; the registry itself is an input of the pass. *)
Record SourceRecord : Type := {
  id : string;
  name : string;
  url : string;
  authorityType : Db.AuthorityType;
  jurisdiction : string;
  region : string;
  reliabilityTier : Z;
  kind : string;
  notes : option string;
}.

End Sources.

Module Items.

Record CrawlInput : Type := {
  ci_title : string;
  ci_publishedAt : option string;
  ci_url : string;
  ci_summary : string;
  ci_rawText : string;
}.

Record CrawledItem : Type := {
  title : string;
  publishedAt : option string;
  url : string;
  summary : string;
  rawText : string;
  source : Sources.SourceRecord;
  provenanceLinks : list string;
}.

Record CrawlSourceResult : Type := {
  sourceId : string;
  itemCount : nat;
  error : option string;
}.

Record CrawlResult : Type := {
  items : list CrawledItem;
  sourceResults : list CrawlSourceResult;
}.

End Items.

(* ================================================================= *)
(** * analyzer.ts: the relevance classifier *)

Module Analyzer.
Import JS.

(** A value of unknown type, as [JSON.parse] and [response.json()]
    produce them. *)
Inductive jsvalue : Type :=
| JUndefined
| JNull
| JBool (b : bool)
| JNumber (n : number)
| JString (s : string)
| JArray (elements : list jsvalue)
| JObject (fields : list (string * jsvalue)).

(** [Boolean(v)]. *)
Definition truthy_value (v : jsvalue) : bool :=
  match v with
  | JUndefined | JNull => false
  | JBool b => b
  | JNumber NaN => false
  | JNumber (Fin q) => negb (Qeq_bool q 0)
  | JNumber _ => true
  | JString s => truthy s
  | JArray _ | JObject _ => true
  end.

Fixpoint lookup (k : string) (fields : list (string * jsvalue)) : jsvalue :=
  match fields with
  | [] => JUndefined
  | (k', v) :: rest => if String.eqb k k' then v else lookup k rest
  end.

(** [v.k] for an own data property of an object. *)
Definition prop (v : jsvalue) (k : string) : jsvalue :=
  match v with
  | JObject fields => lookup k fields
  | _ => JUndefined
  end.

Record AnalyzedItem : Type := {
  isRelevant : bool;
  jurisdiction : string;
  stage : Db.Stage;
  ageBracket : Db.AgeBracket;
  affectedMetaProducts : list string;
  summary : string;
  businessImpact : string;
  requiredSolutions : list string;
  competitorResponses : list string;
  impactScore : number;
  likelihoodScore : number;
  confidenceScore : number;
  chiliScore : number;
}.

(** What the request to the classification service came to. *)
Inductive ServiceOutcome : Type :=
| FetchRejected (reason : thrown)
    (* no response: network failure, or the abort after 60 s *)
| ResponseNotOk (status : nat) (statusText errBody : string)
| BodyNotJson (reason : thrown)
    (* [response.json()] rejected *)
| ResponseJson (payload : jsvalue).

Definition space_class : ascii -> bool := is_space.

Definition stageFallback : list (regex * Db.Stage) :=
  [ (Alts ["proposed"], Db.proposed);
    (Alts ["introduced"; "draft"; "bill"], Db.introduced);
    (Alts ["committee"; "hear"; "comment"], Db.committee_review);
    (Alts ["passed"; "adopted"; "approved"], Db.passed);
    (Alts ["enacted"; "in force"; "effective"], Db.enacted);
    (Alts ["amend"], Db.amended);
    (Alts ["withdrawn"; "withdraw"], Db.withdrawn);
    (Alts ["rejected"; "failed"; "veto"], Db.rejected) ].

Fixpoint first_fallback (raw : string) (l : list (regex * Db.Stage)) : Db.Stage :=
  match l with
  | [] => Db.proposed
  | (pattern, fallback) :: rest =>
      if test true pattern raw then fallback else first_fallback raw rest
  end.

Definition normalizeStage (rawStage : string) : Db.Stage :=
  let candidate := replaceAll false (Plus space_class) "_" (toLowerCase rawStage) in
  match Db.find_stage candidate Db.allowedStages with
  | Some s => s
  | None => first_fallback rawStage stageFallback
  end.

Definition normalizeAgeBracket (raw : option string) : Db.AgeBracket :=
  match raw with
  | None => Db.bracket_both
  | Some r =>
      if negb (truthy r) then Db.bracket_both
      else
        let normalized := toLowerCase r in
        if includes normalized "13-15"
           || (includes normalized "13" && includes normalized "15")
        then Db.bracket_13_15
        else if includes normalized "16-18"
                || (includes normalized "16" && includes normalized "18")
        then Db.bracket_16_18
        else Db.bracket_both
  end.

Definition as_string (v : jsvalue) : option string :=
  match v with JString s => Some s | _ => None end.

Fixpoint strings_of (l : list jsvalue) : list string :=
  match l with
  | [] => []
  | JString s :: rest => s :: strings_of rest
  | _ :: rest => strings_of rest
  end.

Definition sanitizeStringList (input : jsvalue) : list string :=
  match input with
  | JArray l => firstn 20 (filter truthy (map trim (strings_of l)))
  | _ => []
  end.

Definition analyzePayloadDefaults (title : string) : AnalyzedItem :=
  {| isRelevant := false;
     jurisdiction := "Unknown";
     stage := Db.proposed;
     ageBracket := Db.bracket_both;
     affectedMetaProducts := ["Meta Family of Products"];
     summary := "Not enough evidence to confirm teen-specific relevance for: " ++ title;
     businessImpact := "Unknown";
     requiredSolutions := ["Monitoring required"];
     competitorResponses := [];
     impactScore := of_Z 1;
     likelihoodScore := of_Z 1;
     confidenceScore := of_Z 1;
     chiliScore := of_Z 1 |}.

(** The text of one piece of a [content] array. *)
Definition piece_text (piece : jsvalue) : string :=
  match piece with
  | JObject fields =>
      match lookup "text" fields with JString t => t | _ => EmptyString end
  | _ => EmptyString
  end.

Fixpoint first_nested_text (l : list jsvalue) : option string :=
  match l with
  | [] => None
  | JObject fields :: rest =>
      match lookup "text" fields with
      | JString t => Some t
      | _ => first_nested_text rest
      end
  | _ :: rest => first_nested_text rest
  end.

Fixpoint first_message_text (l : list jsvalue) : string :=
  match l with
  | [] => EmptyString
  | JObject fields :: rest =>
      match lookup "content" fields with
      | JString text =>
          if truthy (trim text) then text else first_message_text rest
      | JArray nested =>
          match first_nested_text nested with
          | Some t => t
          | None => first_message_text rest
          end
      | _ => first_message_text rest
      end
  | JArray _ :: rest => first_message_text rest
  | _ :: rest => first_message_text rest
  end.

Definition extractTextFromModelResponse (body : jsvalue) : string :=
  match body with
  | JObject candidate =>
      match lookup "output_text" candidate with
      | JString t => t
      | _ =>
          let content := lookup "content" candidate in
          let firstText :=
            match content with
            | JArray pieces => join " " (map piece_text pieces)
            | _ => EmptyString
            end in
          if truthy (trim firstText) then firstText
          else
            match content with
            | JString c => c
            | _ =>
                match prop (lookup "message" candidate) "content" with
                | JString c => c
                | _ =>
                    match lookup "messages" candidate with
                    | JArray messages => first_message_text messages
                    | _ => EmptyString
                    end
                end
            end
      end
  | _ => EmptyString
  end.

Fixpoint indexOf_char (c : ascii) (s : string) : option nat :=
  match s with
  | EmptyString => None
  | String x s' =>
      if Ascii.eqb x c then Some 0
      else match indexOf_char c s' with Some i => Some (S i) | None => None end
  end.

Fixpoint lastIndexOf_char (c : ascii) (s : string) : option nat :=
  match s with
  | EmptyString => None
  | String x s' =>
      match lastIndexOf_char c s' with
      | Some i => Some (S i)
      | None => if Ascii.eqb x c then Some 0 else None
      end
  end.

Section Classifier.

(** [JSON.parse], [None] when it throws. *)
Variable JSON_parse : string -> option jsvalue.
(** [Number(v)] for a value that is not a number. *)
Variable ToNumber : jsvalue -> number.

Definition normalizeScore (value : jsvalue) : number :=
  let number := match value with JNumber n => n | _ => ToNumber value end in
  if negb (Number_isFinite number) then of_Z 1
  else
    let rounded := Math_round number in
    if lt rounded (of_Z 1) || gt rounded (of_Z 5) then
      (if lt rounded (of_Z 1) then of_Z 1 else of_Z 5)
    else rounded.

Definition lbrace : ascii := "{"%char.
Definition rbrace : ascii := "}"%char.

Definition parseResponseJson (content : string) : option jsvalue :=
  match exec false (Cat (Chr lbrace) (Cat (Star any_char) (Cat (Chr rbrace) Eos))) content with
  | None => None
  | Some direct =>
      match JSON_parse (m_text direct) with
      | Some v => Some v
      | None =>
          match indexOf_char lbrace content, lastIndexOf_char rbrace content with
          | Some first, Some last =>
              if (last <=? first)%nat then None
              else JSON_parse (slice0 (S last - first) (drop first content))
          | _, _ => None
          end
      end
  end.

Definition status_text (n : nat) : string :=
  NilEmpty.string_of_uint (Nat.to_uint n).

Definition analyzeCrawledItem (item : Items.CrawledItem) (apiKey : option string)
           (response : ServiceOutcome) : result AnalyzedItem :=
  if negb (match apiKey with Some k => truthy k | None => false end) then
    Ok (analyzePayloadDefaults (Items.title item))
  else
    match response with
    | FetchRejected reason => Throw reason
    | ResponseNotOk status statusText errBody =>
        Throw (Error ("MiniMax API request failed with " ++ status_text status
                      ++ " " ++ statusText ++ ": " ++ slice0 200 errBody))
    | BodyNotJson reason => Throw reason
    | ResponseJson payload =>
        let rawText := extractTextFromModelResponse payload in
        if negb (truthy rawText) then
          Throw (Error "MiniMax API returned no analyzable text content")
        else
          match parseResponseJson rawText with
          | None => Throw (Error "MiniMax API response could not be parsed as JSON")
          | Some parsed =>
              if negb (truthy_value parsed) then
                Throw (Error "MiniMax API response could not be parsed as JSON")
              else
                let trimmed (v : jsvalue) : option string :=
                  match v with
                  | JString s => if truthy (trim s) then Some (trim s) else None
                  | _ => None
                  end in
                Ok {| isRelevant := truthy_value (prop parsed "isRelevant");
                      jurisdiction :=
                        match trimmed (prop parsed "jurisdiction") with
                        | Some j => j
                        | None => Sources.jurisdiction (Items.source item)
                        end;
                      stage :=
                        normalizeStage
                          (match prop parsed "stage" with
                           | JString s => s
                           | _ => EmptyString
                           end);
                      ageBracket := normalizeAgeBracket (as_string (prop parsed "ageBracket"));
                      affectedMetaProducts :=
                        match sanitizeStringList (prop parsed "affectedMetaProducts") with
                        | [] => ["Meta Family of Products"]
                        | l => l
                        end;
                      summary :=
                        match trimmed (prop parsed "summary") with
                        | Some t => t
                        | None => "Teen-related relevance note for " ++ Items.title item
                        end;
                      businessImpact :=
                        match trimmed (prop parsed "businessImpact") with
                        | Some t => t
                        | None => "Medium"
                        end;
                      requiredSolutions := sanitizeStringList (prop parsed "requiredSolutions");
                      competitorResponses := sanitizeStringList (prop parsed "competitorResponses");
                      impactScore := normalizeScore (prop parsed "impactScore");
                      likelihoodScore := normalizeScore (prop parsed "likelihoodScore");
                      confidenceScore := normalizeScore (prop parsed "confidenceScore");
                      chiliScore := normalizeScore (prop parsed "chiliScore") |}
          end
    end.

End Classifier.

End Analyzer.

(* ================================================================= *)
(** * crawler.ts: the feed parser *)

Module Crawler.
Import JS.

Definition lt_char : ascii := "<"%char.
Definition gt_char : ascii := ">"%char.

(** The pattern of a block: <name, lazily any characters, </name>. *)
Definition block (name : string) : regex :=
  Cat (Str (String lt_char name))
    (Cat (LazyStar any_char) (Str (String lt_char ("/" ++ name ++ ">")))).

Definition stripHtml (text : string) : string :=
  trim
    (replaceAll false (Plus is_space) " "
       (replaceAll false
          (Cat (Chr lt_char) (Cat (Star (not_char gt_char)) (Chr gt_char))) " "
          (replaceAll true (block "style") " "
             (replaceAll true (block "script") " " text)))).

Definition decodeEntities (raw : string) : string :=
  replaceAll false (Str "&gt;") ">"
    (replaceAll false (Str "&lt;") "<"
       (replaceAll false (Str "&amp;") "&"
          (replaceAll false (Str "&nbsp;") " "
             (replaceAll false (Str "&quot;") (String dquote EmptyString)
                (replaceAll false (Str "&#x27;") "'"
                   (replaceAll false (Str "&#039;") "'"
                      (replaceAll false (Str "&apos;") "'" raw))))))).

(** The pattern of an element: <tag, characters other than >, >, the
    captured content taken lazily, </tag>.  Flag i. *)
Definition tag_regex (tag : string) : regex :=
  Cat (Str (String lt_char tag))
    (Cat (Star (not_char gt_char))
       (Cat (Chr gt_char)
          (Cat (Group (LazyStar any_char))
             (Str (String lt_char ("/" ++ tag ++ ">")))))).

(** The pattern of an Atom link: <link, characters other than >, href=,
    a quote, the captured run of characters other than quotes, a quote,
    characters other than >, and >.  No flag. *)
Definition atomLink_regex : regex :=
  Cat (Str "<link")
    (Cat (Star (not_char gt_char))
       (Cat (Str "href=")
          (Cat (Class is_quote)
             (Cat (Group (Plus not_quote))
                (Cat (Class is_quote)
                   (Cat (Star (not_char gt_char)) (Chr gt_char))))))).

(** The pattern href=, a quote, the captured run of characters other
    than quotes, a quote.  Flag i. *)
Definition href_regex : regex :=
  Cat (Str "href=")
    (Cat (Class is_quote) (Cat (Group (Plus not_quote)) (Class is_quote))).

(** The first capture of a match, when it is a non-empty string. *)
Definition group1 (m : option MatchResult) : option string :=
  match m with
  | Some r =>
      match m_group r with
      | Some g => if truthy g then Some g else None
      | None => None
      end
  | None => None
  end.

Definition parseTag (xml tag : string) : option string :=
  match group1 (exec true (tag_regex tag) xml) with
  | Some g => Some (stripHtml (trim (decodeEntities g)))
  | None =>
      match group1 (exec false atomLink_regex xml) with
      | Some g => Some (trim g)
      | None => None
      end
  end.

(** [a || b] when [a] is a string or null. *)
Definition or_null (a : option string) (b : option string) : option string :=
  match a with
  | Some x => if truthy x then a else b
  | None => b
  end.

Definition or_string (a : option string) (b : string) : string :=
  match a with
  | Some x => or_else x b
  | None => b
  end.

Definition extractItemLink (entry : string) : string :=
  match or_null (parseTag entry "link") None with
  | Some xmlLink => xmlLink
  | None =>
      match group1 (exec true href_regex entry) with
      | Some g => g
      | None => EmptyString
      end
  end.

Definition MAX_ITEMS_PER_FEED : nat := 5.

Section Parser.

(** [new URL(relative, base).toString()], [None] when it throws. *)
Variable URL_resolve : string -> string -> option string.

Definition normalizeUrl (rawUrl fallbackBase : string) : string :=
  if negb (truthy rawUrl) then EmptyString
  else
    let trimmed := trim rawUrl in
    if negb (truthy trimmed) then EmptyString
    else if startsWith trimmed "http://" || startsWith trimmed "https://" then trimmed
    else match URL_resolve trimmed fallbackBase with
         | Some u => u
         | None => trimmed
         end.

(** The fields the loop of [parseFeedText] recovers from one entry. *)
Definition entry_title (entry : string) : string :=
  or_string (option_map trim (parseTag entry "title")) "Untitled feed item".

Definition entry_description (entry : string) : string :=
  or_string
    (or_null (parseTag entry "description")
       (or_null (parseTag entry "summary") (parseTag entry "content")))
    EmptyString.

Definition entry_url (sourceUrl entry : string) : string :=
  normalizeUrl (extractItemLink entry) sourceUrl.

Definition feed_dedupeKey (url title : string) : string :=
  toLowerCase url ++ "::" ++ toLowerCase title.

Definition entry_item (sourceUrl entry : string) : Items.CrawlInput :=
  let title := entry_title entry in
  let rawDescription := entry_description entry in
  {| Items.ci_title := title;
     Items.ci_publishedAt :=
       or_null (parseTag entry "pubDate") (or_null (parseTag entry "published") None);
     Items.ci_url := entry_url sourceUrl entry;
     Items.ci_summary := or_else rawDescription title;
     Items.ci_rawText := trim (title ++ ". " ++ rawDescription) |}.

(** The [for] loop of [parseFeedText]: [seen] and [items] are its two
    mutable locals. *)
Fixpoint feed_loop (sourceUrl : string) (entries : list string)
         (seen : list string) (items : list Items.CrawlInput)
  : list Items.CrawlInput :=
  match entries with
  | [] => items
  | entry :: rest =>
      if (MAX_ITEMS_PER_FEED <=? List.length items)%nat then items
      else
        let title := entry_title entry in
        let url := entry_url sourceUrl entry in
        let dedupeKey := feed_dedupeKey url title in
        if negb (truthy title) || negb (truthy url) || mem dedupeKey seen
        then feed_loop sourceUrl rest seen items
        else feed_loop sourceUrl rest (dedupeKey :: seen)
                       (items ++ [entry_item sourceUrl entry])
  end.

Definition feed_entries (feedText : string) : list string :=
  matchAll true (block "item") feedText ++ matchAll true (block "entry") feedText.

Definition parseFeedText (feedText sourceUrl : string) : list Items.CrawlInput :=
  feed_loop sourceUrl (feed_entries feedText) [] [].

End Parser.

End Crawler.

(* ================================================================= *)
(** * ingest.ts: quality gate, jurisdiction splitter and the pass *)

Module Ingest.
Import JS.
Import Db.
Local Open Scope monad_scope.

Record CrawlSummary : Type := {
  runId : Z;
  status : CrawlStatus;
  startedAt : string;
  finishedAt : string;
  sourcesAttempted : Z;
  sum_sourcesSuccess : Z;
  sum_sourcesFailed : Z;
  sum_itemsDiscovered : Z;
  sum_eventsCreated : Z;
  sum_eventsUpdated : Z;
  sum_eventsStatusChanged : Z;
  sum_eventsIgnored : Z;
  sum_sourceErrors : list (string * string);
}.

Definition knownCountries : list string :=
  [ "united states"; "usa"; "united kingdom"; "uk"; "australia"; "canada";
    "india"; "japan"; "south korea"; "singapore"; "brazil"; "mexico";
    "european union"; "eu"; "european union and european economic area" ].

Definition normalizeJurisdictionText (value : string) : string :=
  toLowerCase (trim value).

Definition isLikelyCountry (value : string) : bool :=
  mem (normalizeJurisdictionText value) knownCountries.

(** [s || null]. *)
Definition or_null (s : string) : option string :=
  if truthy s then Some s else None.

Definition splitJurisdiction (rawJurisdiction : string) : string * option string :=
  let text := trim rawJurisdiction in
  if negb (truthy text) then ("Unknown", None)
  else
    let parts := filter truthy (map trim (split_on ","%char text)) in
    if (1 <? List.length parts)%nat then
      let first := or_else (hd EmptyString parts) "Unknown" in
      let last := or_else (List.last parts EmptyString) "Unknown" in
      if isLikelyCountry last then
        (last, or_null (join ", " (removelast parts)))
      else if isLikelyCountry first then
        (first, or_null (join ", " (tl parts)))
      else (first, Some (join ", " (tl parts)))
    else (text, None).

Definition mapStage (item : Analyzer.AnalyzedItem) : Stage := Analyzer.stage item.

Definition mapAgeBracket (ageBracket : AgeBracket) : AgeBracket := ageBracket.

Definition mapUnder16Applicability (ageBracket : AgeBracket) : bool :=
  AgeBracket_beq ageBracket bracket_13_15
  || AgeBracket_beq ageBracket bracket_16_18
  || AgeBracket_beq ageBracket bracket_both.

Definition normalizeRequiredSolutions (item : Analyzer.AnalyzedItem) : list string :=
  match Analyzer.requiredSolutions item with
  | [] => ["Legal review"; "Monitoring"]
  | l => l
  end.

Definition normalizeCompetitorResponses (item : Analyzer.AnalyzedItem) : list string :=
  match Analyzer.competitorResponses item with
  | [] => []
  | l => l
  end.

Definition normalizeAffectedProducts (item : Analyzer.AnalyzedItem) : list string :=
  match Analyzer.affectedMetaProducts item with
  | [] => ["Meta Platforms"; "Meta Ads Products"]
  | l => l
  end.

Definition sanitizeText (value : string) : string :=
  trim
    (replaceAll false (Plus is_space) " "
       (replaceAll false
          (Cat (Chr Crawler.lt_char)
             (Cat (Plus (not_char Crawler.gt_char)) (Chr Crawler.gt_char))) " "
          (replaceAll true (Crawler.block "style") " "
             (replaceAll true (Crawler.block "script") " " value)))).

(** The alternatives of the two patterns of the quality gate, both
    with the flag i. *)
Definition boilerplatePhrases : list string :=
  ["no specific regulatory details"; "source indicates"; "no details available"].

Definition regulatoryKeywords : list string :=
  [ "regulation"; "law"; "bill"; "act"; "guideline"; "compliance";
    "enforcement"; "privacy"; "online safety"; "coppa"; "dsa"; "osa"; "kosa" ].

Definition boilerplate : regex := Alts boilerplatePhrases.

Definition regulatoryKeyword : regex := Group (Alts regulatoryKeywords).

Definition isLowQualityAnalysis (item : Items.CrawledItem)
           (analysis : Analyzer.AnalyzedItem) : bool :=
  let summary := sanitizeText (Analyzer.summary analysis) in
  let title := sanitizeText (Items.title item) in
  let raw := toLowerCase (sanitizeText (Items.rawText item)) in
  if negb (truthy summary) || (String.length summary <? 60)%nat then true
  else if test true boilerplate summary then true
  else
    let hasRegulatoryKeyword :=
      test true regulatoryKeyword (title ++ " " ++ summary ++ " " ++ raw) in
    if negb hasRegulatoryKeyword then true else false.

Definition normalizeForHash (value : string) : string :=
  toLowerCase (trim (replaceAll false (Plus is_space) " " value)).

Definition hashText (value : string) : string :=
  Sha1.digest_hex (normalizeForHash value).

Definition buildRegulationKey (item : Items.CrawledItem)
           (analysis : Analyzer.AnalyzedItem) : string :=
  let jurisdiction :=
    splitJurisdiction
      (or_else (Analyzer.jurisdiction analysis)
               (Sources.jurisdiction (Items.source item))) in
  let country := normalizeForHash (or_else (fst jurisdiction) "unknown") in
  let state :=
    normalizeForHash (match snd jurisdiction with
                      | Some s => s
                      | None => EmptyString
                      end) in
  let title := normalizeForHash (or_else (Items.title item) "untitled") in
  country ++ "|" ++ state ++ "|" ++ title.

Definition buildDeduplicationKey (item : Items.CrawledItem)
           (analysis : Analyzer.AnalyzedItem) : string :=
  let regulationKey := buildRegulationKey item analysis in
  let normalizedUrl := toLowerCase (trim (Items.url item)) in
  let textHash :=
    hashText (or_else (Items.rawText item)
                      (Items.title item ++ " " ++ Items.summary item)) in
  let contentKey := or_else normalizedUrl ("text:" ++ textHash) in
  regulationKey ++ "::" ++ contentKey.

(** What became of one item of the pass. *)
Inductive ItemStatus : Type :=
| item_created | item_updated | item_status_changed | item_unchanged | item_ignored.

Definition item_status (s : UpsertStatus) : ItemStatus :=
  match s with
  | created => item_created
  | updated => item_updated
  | status_changed => item_status_changed
  | unchanged => item_unchanged
  end.

(** ** The environment of a pass *)

Record Options : Type := {
  sourceIds : option (list string);
}.

(** Everything a pass takes from outside the program.  The two source
    tables belong to sources.ts, which is not among the sources at
    hand; the other fields are the process environment, the network
    and builtins of the language. *)
Record Environment : Type := {
  sourceRegistry : list Sources.SourceRecord;
  twitterSearchSources : list Sources.SourceRecord;
  (** [crawlSources(selected)], [Throw] when the promise rejects *)
  crawlSources : list Sources.SourceRecord -> result Items.CrawlResult;
  (** [process.env.MINIMAX_API_KEY] *)
  MINIMAX_API_KEY : option string;
  (** the answer of the classification service for an item *)
  classify : Items.CrawledItem -> Analyzer.ServiceOutcome;
  JSON_parse : string -> option Analyzer.jsvalue;
  ToNumber : Analyzer.jsvalue -> number;
  (** [Number(process.env.ANALYSIS_CONCURRENCY || 12)] *)
  ANALYSIS_CONCURRENCY : number;
  (** the successive readings of [new Date().toISOString()] *)
  clock : nat -> string;
  (** the day of [new Date(s).toISOString()], [None] for an invalid date *)
  Date_day : string -> option string;
}.

(** The store handle, the number of clock readings so far, and the
    outcome of every item written so far (the source prints part of
    them on the console). *)
Record World : Type := {
  store : Database;
  ticks : nat;
  outcomes : list ItemStatus;
}.

(** The mutable locals of [runIngestionPipeline]. *)
Record Locals : Type := {
  sourceErrors : list (string * string);
  sourcesSuccess : Z;
  sourcesFailed : Z;
  itemsDiscovered : Z;
  eventsCreated : Z;
  eventsUpdated : Z;
  eventsStatusChanged : Z;
  eventsIgnored : Z;
  seenDeduplicationKeys : list string;
}.

Definition Pass : Type := (World * Locals)%type.

Definition initial_locals : Locals :=
  {| sourceErrors := []; sourcesSuccess := 0; sourcesFailed := 0;
     itemsDiscovered := 0; eventsCreated := 0; eventsUpdated := 0;
     eventsStatusChanged := 0; eventsIgnored := 0;
     seenDeduplicationKeys := [] |}.

Definition on_store {A : Type} (m : M Database A) : M Pass A :=
  fun p =>
    let '(w, l) := p in
    let '(r, db) := m (store w) in
    (r, ({| store := db; ticks := ticks w; outcomes := outcomes w |}, l)).

Definition locals {A : Type} (f : Locals -> A) : M Pass A :=
  gets (fun p : Pass => f (snd p)).

Definition set_locals (f : Locals -> Locals) : M Pass unit :=
  modify (fun p : Pass => (fst p, f (snd p))).

Definition record_outcome (o : ItemStatus) : M Pass unit :=
  modify (fun p : Pass =>
    ({| store := store (fst p); ticks := ticks (fst p);
        outcomes := outcomes (fst p) ++ [o] |}, snd p)).

Definition source_failed (sourceId message : string) (l : Locals) : Locals :=
  {| sourceErrors := sourceErrors l ++ [(sourceId, message)];
     sourcesSuccess := sourcesSuccess l;
     sourcesFailed := sourcesFailed l + 1;
     itemsDiscovered := itemsDiscovered l;
     eventsCreated := eventsCreated l;
     eventsUpdated := eventsUpdated l;
     eventsStatusChanged := eventsStatusChanged l;
     eventsIgnored := eventsIgnored l;
     seenDeduplicationKeys := seenDeduplicationKeys l |}.

Definition source_succeeded (l : Locals) : Locals :=
  {| sourceErrors := sourceErrors l;
     sourcesSuccess := sourcesSuccess l + 1;
     sourcesFailed := sourcesFailed l;
     itemsDiscovered := itemsDiscovered l;
     eventsCreated := eventsCreated l;
     eventsUpdated := eventsUpdated l;
     eventsStatusChanged := eventsStatusChanged l;
     eventsIgnored := eventsIgnored l;
     seenDeduplicationKeys := seenDeduplicationKeys l |}.

(** [itemsDiscovered += dn], ..., [eventsIgnored += di]. *)
Definition add_counts (dn dc du ds di : Z) (l : Locals) : Locals :=
  {| sourceErrors := sourceErrors l;
     sourcesSuccess := sourcesSuccess l;
     sourcesFailed := sourcesFailed l;
     itemsDiscovered := itemsDiscovered l + dn;
     eventsCreated := eventsCreated l + dc;
     eventsUpdated := eventsUpdated l + du;
     eventsStatusChanged := eventsStatusChanged l + ds;
     eventsIgnored := eventsIgnored l + di;
     seenDeduplicationKeys := seenDeduplicationKeys l |}.

Definition add_seen (key : string) (l : Locals) : Locals :=
  {| sourceErrors := sourceErrors l;
     sourcesSuccess := sourcesSuccess l;
     sourcesFailed := sourcesFailed l;
     itemsDiscovered := itemsDiscovered l;
     eventsCreated := eventsCreated l;
     eventsUpdated := eventsUpdated l;
     eventsStatusChanged := eventsStatusChanged l;
     eventsIgnored := eventsIgnored l;
     seenDeduplicationKeys := key :: seenDeduplicationKeys l |}.

(** [Math.max] of two numbers. *)
Definition Math_max (a b : number) : number :=
  match a, b with
  | NaN, _ | _, NaN => NaN
  | _, _ => if lt a b then b else a
  end.

(** The batches of the outer loop for a finite batch size [q]: batch
    [k] holds the items of index floor(k q) up to floor((k+1) q). *)
Fixpoint split_batches (A : Type) (q : Q) (k i : Z) (cur : list A) (l : list A)
  : list (list A) :=
  match l with
  | [] => [rev cur]
  | x :: l' =>
      if (i <? Qfloor (inject_Z (k + 1) * q))%Z
      then split_batches q k (i + 1) (x :: cur) l'
      else rev cur :: split_batches q (k + 1) (i + 1) [x] l'
  end.

(** The slices [items.slice(i, i + BATCH_SIZE)] the outer loop takes.
    A NaN size gives one empty slice and ends the loop; the size is
    never -Infinity, being a [Math.max] with 10. *)
Definition batches (A : Type) (size : number) (items : list A) : list (list A) :=
  match items with
  | [] => []
  | _ =>
      match size with
      | Fin q => split_batches q 0 0 [] items
      | PosInf => [items]
      | _ => [[]]
      end
  end.

Section Pipeline.

Variable env : Environment.

Definition Date_now : M Pass string :=
  fun p =>
    let '(w, l) := p in
    (Ok (clock env (ticks w)),
     ({| store := store w; ticks := S (ticks w); outcomes := outcomes w |}, l)).

Definition estimatePublishedDate (item : Items.CrawledItem) : option string :=
  match Items.publishedAt item with
  | None => None
  | Some p => if negb (truthy p) then None else Date_day env p
  end.

Definition upsertAnalysedItem (item : Items.CrawledItem)
           (analysis : Analyzer.AnalyzedItem) : M Pass ItemStatus :=
  if negb (Analyzer.isRelevant analysis) then ret item_ignored
  else if isLowQualityAnalysis item analysis then ret item_ignored
  else
    let jurisdiction :=
      splitJurisdiction
        (or_else (Analyzer.jurisdiction analysis)
                 (Sources.jurisdiction (Items.source item))) in
    now <- Date_now ;;
    result <- on_store
      (upsertRegulationEvent now
         {| title := sanitizeText (Items.title item);
            jurisdictionCountry := fst jurisdiction;
            jurisdictionState := snd jurisdiction;
            stage := mapStage analysis;
            ageBracket := mapAgeBracket (Analyzer.ageBracket analysis);
            isUnder16Applicable := mapUnder16Applicability (Analyzer.ageBracket analysis);
            impactScore := Analyzer.impactScore analysis;
            likelihoodScore := Analyzer.likelihoodScore analysis;
            confidenceScore := Analyzer.confidenceScore analysis;
            chiliScore := Analyzer.chiliScore analysis;
            summary := sanitizeText (Analyzer.summary analysis);
            businessImpact := sanitizeText (Analyzer.businessImpact analysis);
            requiredSolutions := normalizeRequiredSolutions analysis;
            affectedMetaProducts := normalizeAffectedProducts analysis;
            competitorResponses := normalizeCompetitorResponses analysis;
            rawSourceText := Items.rawText item;
            provenanceLinks := Items.provenanceLinks item;
            effectiveDate := None;
            publishedDate := estimatePublishedDate item;
            sourceName := Sources.name (Items.source item);
            sourceUrl := Sources.url (Items.source item);
            sourceJurisdiction := Sources.jurisdiction (Items.source item);
            sourceAuthorityType := Sources.authorityType (Items.source item);
            sourceReliabilityTier := Sources.reliabilityTier (Items.source item) |}) ;;
    ret (item_status (res_status result)).

(** One promise of the batch: the item with its analysis. *)
Definition analyse (item : Items.CrawledItem)
  : settled (Items.CrawledItem * Analyzer.AnalyzedItem) :=
  match Analyzer.analyzeCrawledItem (JSON_parse env) (ToNumber env) item
          (MINIMAX_API_KEY env) (classify env item) with
  | Ok analysis => Fulfilled (item, analysis)
  | Throw reason => Rejected reason
  end.

(** The body of the inner loop: one settled result is written. *)
Definition write_result (result : settled (Items.CrawledItem * Analyzer.AnalyzedItem))
  : M Pass unit :=
  set_locals (add_counts 1 0 0 0 0) ;;;
  match result with
  | Rejected _ =>
      set_locals (add_counts 0 0 0 0 1) ;;; record_outcome item_ignored
  | Fulfilled (item, analysis) =>
      let deduplicationKey := buildDeduplicationKey item analysis in
      seen <- locals seenDeduplicationKeys ;;
      if mem deduplicationKey seen then
        set_locals (add_counts 0 0 0 0 1) ;;; record_outcome item_ignored
      else
        set_locals (add_seen deduplicationKey) ;;;
        try_catch
          (upsertStatus <- upsertAnalysedItem item analysis ;;
           match upsertStatus with
           | item_created => set_locals (add_counts 0 1 0 0 0)
           | item_updated => set_locals (add_counts 0 0 1 0 0)
           | item_status_changed => set_locals (add_counts 0 0 0 1 0)
           | item_ignored => set_locals (add_counts 0 0 0 0 1)
           | item_unchanged => ret tt
           end ;;;
           record_outcome upsertStatus)
          (fun err =>
             set_locals (add_counts 0 0 0 0 1) ;;; record_outcome item_ignored)
  end.

Fixpoint for_each {A : Type} (f : A -> M Pass unit) (l : list A) : M Pass unit :=
  match l with
  | [] => ret tt
  | x :: rest => f x ;;; for_each f rest
  end.

(** The loop over the source results of the crawl. *)
Definition count_source (selectedSources : list Sources.SourceRecord)
           (result : Items.CrawlSourceResult) : M Pass unit :=
  match find (fun entry => String.eqb (Sources.id entry) (Items.sourceId result))
             selectedSources with
  | None => ret tt
  | Some source =>
      match Items.error result with
      | Some message =>
          if truthy message
          then set_locals (source_failed (Sources.id source) message)
          else set_locals source_succeeded
      | None => set_locals source_succeeded
      end
  end.

Definition BATCH_SIZE : number := Math_max (of_Z 10) (ANALYSIS_CONCURRENCY env).

Definition process_batch (batch : list Items.CrawledItem) : M Pass unit :=
  for_each write_result (map analyse batch).

Definition finalize_values (status : CrawlStatus) (attempted : Z) (l : Locals)
  : FinalizeValues :=
  {| fv_status := status;
     fv_sourcesAttempted := attempted;
     fv_sourcesSuccess := sourcesSuccess l;
     fv_sourcesFailed := sourcesFailed l;
     fv_itemsDiscovered := itemsDiscovered l;
     fv_eventsCreated := eventsCreated l;
     fv_eventsUpdated := eventsUpdated l;
     fv_eventsStatusChanged := eventsStatusChanged l;
     fv_eventsIgnored := eventsIgnored l |}.

Definition selectSources (options : Options) : list Sources.SourceRecord :=
  let allSources := (sourceRegistry env ++ twitterSearchSources env)%list in
  match sourceIds options with
  | Some (x :: ids) => filter (fun source => mem (Sources.id source) (x :: ids)) allSources
  | _ => allSources
  end.

(** The [try] block. *)
Definition pass_body (selectedSources : list Sources.SourceRecord)
           (runId : Z) (startedAt : string) : M Pass CrawlSummary :=
  crawlResult <- (fun p => (crawlSources env selectedSources, p)) ;;
  for_each (count_source selectedSources) (Items.sourceResults crawlResult) ;;;
  for_each process_batch (batches BATCH_SIZE (Items.items crawlResult)) ;;;
  failedCount <- locals sourcesFailed ;;
  let status := if (0 <? failedCount)%Z then crawl_partial else crawl_completed in
  finishedAt <- Date_now ;;
  let attempted := Z.of_nat (List.length (Items.sourceResults crawlResult)) in
  values <- locals (finalize_values status attempted) ;;
  now <- Date_now ;;
  on_store (finalizeCrawlRun now runId values) ;;;
  l <- locals (fun l => l) ;;
  ret {| runId := runId;
         status := status;
         startedAt := startedAt;
         finishedAt := finishedAt;
         sourcesAttempted := attempted;
         sum_sourcesSuccess := sourcesSuccess l;
         sum_sourcesFailed := sourcesFailed l;
         sum_itemsDiscovered := itemsDiscovered l;
         sum_eventsCreated := eventsCreated l;
         sum_eventsUpdated := eventsUpdated l;
         sum_eventsStatusChanged := eventsStatusChanged l;
         sum_eventsIgnored := eventsIgnored l;
         sum_sourceErrors := sourceErrors l |}.

(** The [catch] block. *)
Definition pass_failed (runId : Z) (error : thrown) : M Pass CrawlSummary :=
  finishedAt <- Date_now ;;
  values <- locals (finalize_values crawl_failed 0) ;;
  now <- Date_now ;;
  on_store (finalizeCrawlRun now runId values) ;;;
  if instanceof_Error error then throw error
  else throw (Error "Unknown ingestion failure").

Definition run_pass (options : Options) : M Pass CrawlSummary :=
  let selectedSources := selectSources options in
  now <- Date_now ;;
  runId <- on_store (createCrawlRun now) ;;
  startedAt <- Date_now ;;
  try_catch (pass_body selectedSources runId startedAt) (pass_failed runId).

Definition runIngestionPipeline (options : Options) : M World CrawlSummary :=
  fun w =>
    let '(r, p) := run_pass options (w, initial_locals) in
    (r, fst p).

End Pipeline.

End Ingest.

Unset Implicit Arguments.

(* ================================================================= *)
(** * The vocabulary of the properties *)

Module Props.
Import JS.
Import Db.
Local Open Scope list_scope.

(** ** The upsert engine *)

(** The identity under which [upsertRegulationEvent] looks a candidate
    up: the trimmed country (or Unknown), the trimmed state, the title. *)
Definition candidate_country (event : RegulationEventInput) : string :=
  or_else (trim (jurisdictionCountry event)) "Unknown".

Definition candidate_state (event : RegulationEventInput) : string :=
  normalizeJurisdictionState (jurisdictionState event).

Definition candidate_id (event : RegulationEventInput) : string :=
  deterministicEventId
    (dedupeKey (candidate_country event) (candidate_state event) (title event)).

(** [r] is the stored event with the identity key of the candidate. *)
Definition stored_for (db : Database) (event : RegulationEventInput)
           (r : RegulationEventDbRow) : Prop :=
  select_existing (candidate_country event) (candidate_state event) (title event)
                  (regulation_events db) = Some r.

Definition candidate_source (now : string) (event : RegulationEventInput)
  : SourceInput :=
  {| si_name := sourceName event;
     si_url := sourceUrl event;
     si_authorityType := sourceAuthorityType event;
     si_jurisdiction := sourceJurisdiction event;
     si_reliabilityTier := sourceReliabilityTier event;
     si_lastCrawledAt := Some now |}.

(** The source of the candidate can be registered: its reliability tier
    passes the CHECK and no source of another url holds its name. *)
Definition source_accepted (db : Database) (event : RegulationEventInput) : Prop :=
  source_checks (sourceReliabilityTier event) = true
  /\ name_taken (sources db) (sourceName event) (sourceUrl event) = false.

(** What the schema and the writers of the store guarantee of a row:
    the scores pass their CHECK, the summary and the business impact
    are never stored empty. *)
Definition well_formed_row (r : RegulationEventDbRow) : Prop :=
  event_checks r = true
  /\ ev_summary r <> Some EmptyString
  /\ ev_business_impact r <> EmptyString.

(** The primary key of [regulation_events], and well-formed rows. *)
Definition schema_ok (db : Database) : Prop :=
  NoDup (map ev_id (regulation_events db))
  /\ Forall well_formed_row (regulation_events db).

(** The content of the candidate is that of the stored row, the
    applicability flag left aside. *)
Definition same_content_but_flag (r : RegulationEventDbRow)
           (event : RegulationEventInput) : Prop :=
  ev_stage r = stage event
  /\ ev_age_bracket r = ageBracket event
  /\ number_eqb (of_Z (ev_impact_score r)) (impactScore event) = true
  /\ number_eqb (of_Z (ev_likelihood_score r)) (likelihoodScore event) = true
  /\ number_eqb (of_Z (ev_confidence_score r)) (confidenceScore event) = true
  /\ number_eqb (of_Z (ev_chili_score r)) (chiliScore event) = true
  /\ ev_summary r = Some (summary event)
  /\ ev_business_impact r = businessImpact event
  /\ ev_required_solutions r = stringifyJsonArray (requiredSolutions event)
  /\ ev_affected_products r = stringifyJsonArray (affectedMetaProducts event)
  /\ ev_competitor_responses r = stringifyJsonArray (competitorResponses event)
  /\ ev_raw_source_text r = Some (rawSourceText event)
  /\ ev_provenance_links r = stringifyJsonArray (provenanceLinks event).



(** [rows'] is [rows] with the one row [r] replaced by [r']. *)
Definition replaced (rows rows' : list RegulationEventDbRow)
           (r r' : RegulationEventDbRow) : Prop :=
  exists before after,
    rows = before ++ r :: after /\ rows' = before ++ r' :: after.

(** ** The classifier *)

(** The number a raw score stands for: itself when it is a number, its
    conversion by [Number] otherwise. *)
Definition numeric_value (ToNumber : Analyzer.jsvalue -> number)
           (v : Analyzer.jsvalue) : number :=
  match v with
  | Analyzer.JNumber n => n
  | _ => ToNumber v
  end.

(** The nearest integer from 1 to 5. *)
Definition clamp_score (z : Z) : Z := Z.max 1 (Z.min 5 z).

Definition score_in_range (n : number) : Prop :=
  exists z : Z, (1 <= z <= 5)%Z /\ n = of_Z z.

(** No credential is configured. *)
Definition no_credential (apiKey : option string) : Prop :=
  apiKey = None \/ apiKey = Some EmptyString.

(** The call to the classification service fails: no response, a
    response that is not 2xx, a body that is not JSON, no text in the
    payload, or a text that is not a JSON object. *)
Definition service_failed (JSON_parse : string -> option Analyzer.jsvalue)
           (response : Analyzer.ServiceOutcome) : bool :=
  match response with
  | Analyzer.FetchRejected _ => true
  | Analyzer.ResponseNotOk _ _ _ => true
  | Analyzer.BodyNotJson _ => true
  | Analyzer.ResponseJson payload =>
      let rawText := Analyzer.extractTextFromModelResponse payload in
      negb (truthy rawText)
      || match Analyzer.parseResponseJson JSON_parse rawText with
         | Some parsed => negb (Analyzer.truthy_value parsed)
         | None => true
         end
  end.

(** ** The feed parser *)

(** The dedupe key of an item: lower-cased url, two colons, lower-cased
    title. *)
Definition item_key (it : Items.CrawlInput) : string :=
  Crawler.feed_dedupeKey (Items.ci_url it) (Items.ci_title it).


(** The candidates with a url, each key kept at its first occurrence;
    [seen] holds the keys met so far. *)
Fixpoint first_occurrences (seen : list string) (l : list Items.CrawlInput)
  : list Items.CrawlInput :=
  match l with
  | [] => []
  | it :: rest =>
      if negb (truthy (Items.ci_url it)) || mem (item_key it) seen
      then first_occurrences seen rest
      else it :: first_occurrences (item_key it :: seen) rest
  end.



(** ** The pass *)

Import Ingest.

Definition is_created (o : Ingest.ItemStatus) : bool :=
  match o with Ingest.item_created => true | _ => false end.
Definition is_updated (o : Ingest.ItemStatus) : bool :=
  match o with Ingest.item_updated => true | _ => false end.
Definition is_status_changed (o : Ingest.ItemStatus) : bool :=
  match o with Ingest.item_status_changed => true | _ => false end.
Definition is_ignored (o : Ingest.ItemStatus) : bool :=
  match o with Ingest.item_ignored => true | _ => false end.
Definition is_unchanged (o : Ingest.ItemStatus) : bool :=
  match o with Ingest.item_unchanged => true | _ => false end.

(** The number of outcomes of one kind. *)
Definition tally (kind : Ingest.ItemStatus -> bool) (l : list Ingest.ItemStatus) : Z :=
  Z.of_nat (List.length (filter kind l)).

(** A source result of the crawl reports a failure of one of the
    selected sources: it names one of them and carries a message. *)
Definition reports_failure (selected : list Sources.SourceRecord)
           (r : Items.CrawlSourceResult) : bool :=
  existsb (fun entry => String.eqb (Sources.id entry) (Items.sourceId r)) selected
  && match Items.error r with
     | Some message => truthy message
     | None => false
     end.

Definition some_source_failed (selected : list Sources.SourceRecord)
           (crawl : Items.CrawlResult) : bool :=
  existsb (reports_failure selected) (Items.sourceResults crawl).

(** The text in which the quality gate looks for a keyword: title,
    summary and raw text, each stripped of markup. *)
Definition gate_text (item : Items.CrawledItem) (analysis : Analyzer.AnalyzedItem)
  : string :=
  (sanitizeText (Items.title item) ++ " "
   ++ sanitizeText (Analyzer.summary analysis) ++ " "
   ++ toLowerCase (sanitizeText (Items.rawText item)))%string.

(** The analysis is too thin: its summary, as the classifier gives it
    or once stripped of markup, is empty or shorter than 60 characters,
    or holds a boilerplate phrase, or title, summary and raw text
    together hold no regulatory keyword (letter case is ignored in both
    searches). *)
Definition thin_analysis (item : Items.CrawledItem)
           (analysis : Analyzer.AnalyzedItem) : Prop :=
  String.length (Analyzer.summary analysis) < 60
  \/ String.length (sanitizeText (Analyzer.summary analysis)) < 60
  \/ (exists phrase,
         In phrase boilerplatePhrases
         /\ includes (toLowerCase (sanitizeText (Analyzer.summary analysis))) phrase
            = true)
  \/ (forall keyword,
         In keyword regulatoryKeywords ->
         includes (toLowerCase (gate_text item analysis)) keyword = false).

(** What a step of the pass leaves alone in the ledger. *)
Definition same_ledger (p p' : Pass) : Prop :=
  crawl_runs (store (fst p')) = crawl_runs (store (fst p))
  /\ crawl_runs_seq (store (fst p')) = crawl_runs_seq (store (fst p))
  /\ crawl_runs_log (store (fst p')) = crawl_runs_log (store (fst p)).

(** The counters after one more outcome [o]. *)
Definition counted (o : ItemStatus) (l l' : Locals) : Prop :=
  itemsDiscovered l' = (itemsDiscovered l + 1)%Z
  /\ eventsCreated l' = (eventsCreated l + tally is_created [o])%Z
  /\ eventsUpdated l' = (eventsUpdated l + tally is_updated [o])%Z
  /\ eventsStatusChanged l' = (eventsStatusChanged l + tally is_status_changed [o])%Z
  /\ eventsIgnored l' = (eventsIgnored l + tally is_ignored [o])%Z
  /\ sourcesSuccess l' = sourcesSuccess l
  /\ sourcesFailed l' = sourcesFailed l
  /\ sourceErrors l' = sourceErrors l.

(** The write phase has gone from [p] to [p'] through the outcomes
    [new]: they are recorded, counted, and nothing else has moved. *)
Definition advanced (new : list ItemStatus) (p p' : Pass) : Prop :=
  outcomes (fst p') = outcomes (fst p) ++ new
  /\ itemsDiscovered (snd p') = (itemsDiscovered (snd p) + Z.of_nat (List.length new))%Z
  /\ eventsCreated (snd p') = (eventsCreated (snd p) + tally is_created new)%Z
  /\ eventsUpdated (snd p') = (eventsUpdated (snd p) + tally is_updated new)%Z
  /\ eventsStatusChanged (snd p')
     = (eventsStatusChanged (snd p) + tally is_status_changed new)%Z
  /\ eventsIgnored (snd p') = (eventsIgnored (snd p) + tally is_ignored new)%Z
  /\ sourcesSuccess (snd p') = sourcesSuccess (snd p)
  /\ sourcesFailed (snd p') = sourcesFailed (snd p)
  /\ sourceErrors (snd p') = sourceErrors (snd p)
  /\ same_ledger p p'.

Definition tick (n : nat) (w : World) : World :=
  {| store := store w; ticks := n + ticks w; outcomes := outcomes w |}.

Definition with_store (db : Database) (w : World) : World :=
  {| store := db; ticks := ticks w; outcomes := outcomes w |}.

(** The row [createCrawlRun] inserts. *)
Definition started_run (id : Z) (now : string) : CrawlRunRow :=
  {| run_id := id; run_started_at := now; run_finished_at := None;
     run_status := running;
     run_sources_attempted := 0; run_sources_success := 0;
     run_sources_failed := 0; run_items_discovered := 0;
     run_events_created := 0; run_events_updated := 0;
     run_events_status_changed := 0; run_events_ignored := 0 |}.

End Props.

(* ================================================================= *)
(** * Concrete stores and candidates *)

Module Examples.
Import JS.
Import Db.
Local Open Scope list_scope.

(** The candidate of the engine's test suite, with its country, stage
    and applicability flag left open. *)
Definition candidate (country : string) (st : Stage) (under16 : bool)
  : RegulationEventInput :=
  {| title := "Teen Safety Transparency Bill";
     jurisdictionCountry := country;
     jurisdictionState := Some "California";
     stage := st;
     ageBracket := bracket_13_15;
     isUnder16Applicable := under16;
     impactScore := of_Z 4;
     likelihoodScore := of_Z 4;
     confidenceScore := of_Z 4;
     chiliScore := of_Z 3;
     summary := "Draft rule for age assurance and content safety.";
     businessImpact := "Moderate product updates needed.";
     requiredSolutions := ["Age assurance"; "Content controls"];
     affectedMetaProducts := ["Instagram"; "Facebook"];
     competitorResponses := ["TikTok: monitoring"];
     rawSourceText := "Calif. draft text includes age-verification requirements.";
     provenanceLinks := ["https://example.gov/some-rule"];
     effectiveDate := None;
     publishedDate := Some "2026-01-30";
     sourceName := "California Regulator";
     sourceUrl := "https://leginfo.legislature.ca.gov";
     sourceJurisdiction := "California";
     sourceAuthorityType := state_authority;
     sourceReliabilityTier := 5 |}.

Definition baseEvent : RegulationEventInput :=
  candidate "United States" introduced true.

(** The same bill at a later stage. *)
Definition passedEvent : RegulationEventInput :=
  candidate "United States" passed true.

(** The same bill, its country written in lower case. *)
Definition lowerCaseEvent : RegulationEventInput :=
  candidate "united states" introduced true.

(** The same bill, not applicable to users under 16. *)
Definition notUnder16Event : RegulationEventInput :=
  candidate "United States" introduced false.

Definition t1 : string := "2026-02-01T10:00:00.000Z".
Definition t2 : string := "2026-02-02T10:00:00.000Z".

(** The store after a first upsert of a candidate into an empty one. *)
Definition stored_once (event : RegulationEventInput) : Database :=
  snd (upsertRegulationEvent t1 event emptyDatabase).

(** The row that first upsert writes. *)
Definition first_row (event : RegulationEventInput) : RegulationEventDbRow :=
  new_row t1 (Props.candidate_id event) (Props.candidate_country event)
          (Props.candidate_state event) 1 event (normalize event).

(** ** Feeds *)

(** The feed of the crawler's test: the same link and title twice. *)
Definition duplicate_feed : string :=
  "<?xml version='1.0'?><rss><channel>
      <item>
        <title>Duplicate rule</title>
        <link>https://example.gov/docs/dup</link>
        <description>First instance</description>
      </item>
      <item>
        <title>Duplicate rule</title>
        <link>https://example.gov/docs/dup</link>
        <description>Second instance</description>
      </item>
    </channel></rss>".



(** [new URL] is not needed where every link is absolute. *)
Definition no_resolution (relative base : string) : option string := None.

(** ** A classified item *)

Definition example_source : Sources.SourceRecord :=
  {| Sources.id := "test-rss";
     Sources.name := "California Regulator";
     Sources.url := "https://leginfo.legislature.ca.gov";
     Sources.authorityType := state_authority;
     Sources.jurisdiction := "California";
     Sources.region := "US";
     Sources.reliabilityTier := 5;
     Sources.kind := "rss";
     Sources.notes := None |}.

Definition example_item : Items.CrawledItem :=
  {| Items.title := "Teen Safety Transparency Bill";
     Items.publishedAt := None;
     Items.url := "https://example.gov/some-rule";
     Items.summary := "Draft rule for age assurance and content safety.";
     Items.rawText := "Calif. draft text includes age-verification requirements.";
     Items.source := example_source;
     Items.provenanceLinks :=
       ["https://leginfo.legislature.ca.gov"; "https://example.gov/some-rule"] |}.

Definition quoted (s : string) : string :=
  String dquote (s ++ String dquote EmptyString).

Definition example_summary : string :=
  "The bill requires age assurance and default content controls for users under 16.".

(** The text the service answers with: a JSON object whose scores are
    7.6, 9, the string high and 2.5. *)
Definition example_text : string :=
  ("{" ++ quoted "isRelevant" ++ ":true,"
       ++ quoted "jurisdiction" ++ ":" ++ quoted "California, United States" ++ ","
       ++ quoted "stage" ++ ":" ++ quoted "introduced" ++ ","
       ++ quoted "ageBracket" ++ ":" ++ quoted "13-15" ++ ","
       ++ quoted "summary" ++ ":" ++ quoted example_summary ++ ","
       ++ quoted "businessImpact" ++ ":" ++ quoted "Moderate product updates needed." ++ ","
       ++ quoted "impactScore" ++ ":7.6,"
       ++ quoted "likelihoodScore" ++ ":9,"
       ++ quoted "confidenceScore" ++ ":" ++ quoted "high" ++ ","
       ++ quoted "chiliScore" ++ ":2.5}")%string.

(** What [JSON.parse] makes of that text. *)
Definition example_parsed : Analyzer.jsvalue :=
  Analyzer.JObject
    [ ("isRelevant", Analyzer.JBool true);
      ("jurisdiction", Analyzer.JString "California, United States");
      ("stage", Analyzer.JString "introduced");
      ("ageBracket", Analyzer.JString "13-15");
      ("summary", Analyzer.JString example_summary);
      ("businessImpact", Analyzer.JString "Moderate product updates needed.");
      ("impactScore", Analyzer.JNumber (Fin (76 # 10)));
      ("likelihoodScore", Analyzer.JNumber (of_Z 9));
      ("confidenceScore", Analyzer.JString "high");
      ("chiliScore", Analyzer.JNumber (Fin (5 # 2))) ].

(** [JSON.parse] on the texts of the examples: the text above, and
    texts that are no JSON. *)
Definition example_JSON_parse (s : string) : option Analyzer.jsvalue :=
  if String.eqb s example_text then Some example_parsed else None.

(** [Number] on the values the examples convert: undefined, null, the
    booleans, and strings that spell no number. *)
Definition example_ToNumber (v : Analyzer.jsvalue) : number :=
  match v with
  | Analyzer.JNull => of_Z 0
  | Analyzer.JBool true => of_Z 1
  | Analyzer.JBool false => of_Z 0
  | Analyzer.JNumber n => n
  | _ => NaN
  end.

(** The payload of a 200 answer carrying that text. *)
Definition example_payload : Analyzer.jsvalue :=
  Analyzer.JObject
    [ ("content",
       Analyzer.JArray
         [ Analyzer.JObject [ ("type", Analyzer.JString "text");
                              ("text", Analyzer.JString example_text) ] ]) ].

(** The answer to a request with a credential the service refuses. *)
Definition example_401 : Analyzer.ServiceOutcome :=
  Analyzer.ResponseNotOk 401 "Unauthorized" "authentication_error".

(** ** A pass over one source and one item *)

Definition two_digits (n : nat) : string :=
  ((if (n <? 10)%nat then "0" else EmptyString)
   ++ NilEmpty.string_of_uint (Nat.to_uint n))%string.

Definition example_clock (n : nat) : string :=
  ("2026-02-01T10:00:" ++ two_digits n ++ ".000Z")%string.

Definition example_crawl : Items.CrawlResult :=
  {| Items.items := [example_item];
     Items.sourceResults :=
       [ {| Items.sourceId := "test-rss"; Items.itemCount := 1;
            Items.error := None |} ] |}.

(** The service answers every request with [response]. *)
Definition example_env (response : Analyzer.ServiceOutcome) : Ingest.Environment :=
  {| Ingest.sourceRegistry := [example_source];
     Ingest.twitterSearchSources := [];
     Ingest.crawlSources := fun _ => Ok example_crawl;
     Ingest.MINIMAX_API_KEY := Some "secret";
     Ingest.classify := fun _ => response;
     Ingest.JSON_parse := example_JSON_parse;
     Ingest.ToNumber := example_ToNumber;
     Ingest.ANALYSIS_CONCURRENCY := of_Z 12;
     Ingest.clock := example_clock;
     Ingest.Date_day := fun _ => None |}.

(** An analysis the classifier calls relevant, with a short summary. *)
Definition thin_example : Analyzer.AnalyzedItem :=
  {| Analyzer.isRelevant := true;
     Analyzer.jurisdiction := "California, United States";
     Analyzer.stage := introduced;
     Analyzer.ageBracket := bracket_13_15;
     Analyzer.affectedMetaProducts := ["Instagram"];
     Analyzer.summary := "A bill about teens.";
     Analyzer.businessImpact := "Unknown";
     Analyzer.requiredSolutions := [];
     Analyzer.competitorResponses := [];
     Analyzer.impactScore := of_Z 3;
     Analyzer.likelihoodScore := of_Z 3;
     Analyzer.confidenceScore := of_Z 3;
     Analyzer.chiliScore := of_Z 3 |}.

Definition no_options : Ingest.Options := {| Ingest.sourceIds := None |}.

Definition fresh_world : Ingest.World :=
  {| Ingest.store := emptyDatabase; Ingest.ticks := 0; Ingest.outcomes := [] |}.

End Examples.


(* ================================================================= *)
(** * db.ts: the read statements *)

Module DbRead.
Import JS.
Import Db.
Local Open Scope list_scope.

(** SELECT * FROM sources WHERE url = ?. *)
Definition getSourceByUrl (url : string) (db : Database) : option SourceRegistryRow :=
  find (has_url url) (sources db).

(** MAX over a nullable TEXT column: NULLs are skipped, texts compare
    byte by byte. *)
Definition max_text (acc : option string) (t : option string) : option string :=
  match t, acc with
  | None, _ => acc
  | Some x, None => Some x
  | Some x, Some m => if String.ltb m x then Some x else Some m
  end.

(** SELECT MAX(finished_at) FROM crawl_runs. *)
Definition getLastCrawlTime (db : Database) : option string :=
  fold_left max_text (map run_finished_at (crawl_runs db)) None.

(** SELECT COUNT( * ) FROM regulation_event_status_changes WHERE
    event_id = ?. *)
Definition getEventStatusChangeCount (eventId : string) (db : Database) : Z :=
  Z.of_nat
    (List.length
       (filter (fun sc => String.eqb (sc_event_id sc) eventId) (status_changes db))).

(** ORDER BY changed_at ASC, id ASC. *)
Definition history_before (a b : StatusChangeRow) : bool :=
  String.ltb (sc_changed_at a) (sc_changed_at b)
  || (String.eqb (sc_changed_at a) (sc_changed_at b) && (sc_id a <=? sc_id b)%Z).

Fixpoint insert_sorted (x : StatusChangeRow) (l : list StatusChangeRow)
  : list StatusChangeRow :=
  match l with
  | [] => [x]
  | y :: rest =>
      if history_before x y then x :: l else y :: insert_sorted x rest
  end.

Definition order_history (l : list StatusChangeRow) : list StatusChangeRow :=
  fold_right insert_sorted [] l.

Record HistoryEntry : Type := {
  h_previousStage : Stage;
  h_newStage : Stage;
  h_changedAt : string;
}.

Definition listEventHistory (eventId : string) (db : Database) : list HistoryEntry :=
  map (fun row =>
         {| h_previousStage := extractStage (stage_name (sc_previous_stage row));
            h_newStage := extractStage (stage_name (sc_new_stage row));
            h_changedAt := sc_changed_at row |})
      (order_history
         (filter (fun sc => String.eqb (sc_event_id sc) eventId) (status_changes db))).

End DbRead.

(* ================================================================= *)
(** * crawler.ts: pages, sources and the crawl *)

Module Crawl.
Import JS.
Local Open Scope list_scope.

Definition newline : string := String (ascii_of_nat 10) EmptyString.

(** A page gives one item, or none when it has neither title nor
    text. *)
Definition parseWebPage (sourceText : string) (source : Sources.SourceRecord)
  : list Items.CrawlInput :=
  let titleMatch := exec true (Crawler.tag_regex "title") sourceText in
  let title :=
    match titleMatch with
    | Some m =>
        trim (Crawler.stripHtml
                (Crawler.decodeEntities
                   (match m_group m with Some g => g | None => EmptyString end)))
    | None => Sources.name source
    end in
  let body :=
    slice0 (8 * 1000)
      (trim (replaceAll false (Plus is_space) " "
               (Crawler.stripHtml (Crawler.decodeEntities sourceText)))) in
  if negb (truthy title) && negb (truthy body) then []
  else
    let enrichedBody :=
      if (String.length body <? 200)%nat
      then ("Source: " ++ Sources.name source ++ newline
            ++ "Notes: "
            ++ or_else (match Sources.notes source with
                        | Some n => n
                        | None => EmptyString
                        end) EmptyString
            ++ newline ++ newline ++ body)%string
      else body in
    [ {| Items.ci_title := title;
         Items.ci_publishedAt := None;
         Items.ci_url := Sources.url source;
         Items.ci_summary := slice0 500 enrichedBody;
         Items.ci_rawText := enrichedBody |} ].

Definition isAllowedKind (kind : string) : bool :=
  String.eqb kind "webpage" || String.eqb kind "rss"
  || String.eqb kind "news_search" || String.eqb kind "twitter_search".

(** What [crawlSource] answers: a source result with its items. *)
Record SourceRun : Type := {
  run_sourceId : string;
  run_itemCount : nat;
  run_error : option string;
  run_items : list Items.CrawlInput;
}.

(** What a crawl takes from outside the program: the answer of the
    network to the GET of a url ([Throw] for a failure, a timeout or a
    status that is not 2xx), the token of the process environment, the
    recent search of twitter-crawler.ts, and [new URL]. *)
Record Network : Type := {
  fetchWithTimeout : string -> result string;
  X_BEARER_TOKEN : option string;
  crawlTwitterRecentSearch :
    Sources.SourceRecord -> string -> result (list Items.CrawlInput);
  URL_resolve : string -> string -> option string;
}.

Definition failed_run (source : Sources.SourceRecord) (message : string) : SourceRun :=
  {| run_sourceId := Sources.id source;
     run_itemCount := 0;
     run_error := Some message;
     run_items := [] |}.

Definition succeeded_run (source : Sources.SourceRecord)
           (items : list Items.CrawlInput) : SourceRun :=
  {| run_sourceId := Sources.id source;
     run_itemCount := List.length items;
     run_error := None;
     run_items := items |}.

(** The [catch] of [crawlSource]. *)
Definition crawl_error (error : thrown) : string :=
  match error with
  | Error message => message
  | NotAnError _ => "Unknown crawl error"
  end.

Definition crawlSource (net : Network) (source : Sources.SourceRecord) : SourceRun :=
  if negb (isAllowedKind (Sources.kind source)) then
    failed_run source ("Unsupported source kind: " ++ Sources.kind source)
  else if String.eqb (Sources.kind source) "twitter_search" then
    match X_BEARER_TOKEN net with
    | None => failed_run source "X_BEARER_TOKEN not set"
    | Some bearerToken =>
        if negb (truthy bearerToken) then failed_run source "X_BEARER_TOKEN not set"
        else
          match crawlTwitterRecentSearch net source bearerToken with
          | Ok twitterItems => succeeded_run source twitterItems
          | Throw error => failed_run source (crawl_error error)
          end
    end
  else
    match fetchWithTimeout net (Sources.url source) with
    | Ok payload =>
        succeeded_run source
          (if String.eqb (Sources.kind source) "webpage"
           then parseWebPage payload source
           else Crawler.parseFeedText (URL_resolve net) payload (Sources.url source))
    | Throw error => failed_run source (crawl_error error)
    end.

Definition normalizeTextForHash (text : string) : string :=
  toLowerCase (trim (replaceAll false (Plus is_space) " " text)).

Definition hashText (text : string) : string :=
  Sha1.digest_hex (normalizeTextForHash text).

(** The key under which [dedupeCrawledItems] files an item. *)
Definition crawl_key (item : Items.CrawledItem) : string :=
  let normalizedUrl := toLowerCase (trim (Items.url item)) in
  let textHash :=
    hashText (or_else (Items.rawText item)
                      (Items.title item ++ " " ++ Items.summary item)) in
  if truthy normalizedUrl
  then (Sources.id (Items.source item) ++ "::" ++ normalizedUrl)%string
  else (Sources.id (Items.source item) ++ "::text:" ++ textHash)%string.

(** The loop of [dedupeCrawledItems]: [keys] are the keys of the map so
    far; the values of a [Map] come out in insertion order. *)
Fixpoint dedupe_loop (keys : list string) (items : list Items.CrawledItem)
  : list Items.CrawledItem :=
  match items with
  | [] => []
  | item :: rest =>
      if mem (crawl_key item) keys then dedupe_loop keys rest
      else item :: dedupe_loop (crawl_key item :: keys) rest
  end.

Definition dedupeCrawledItems (items : list Items.CrawledItem)
  : list Items.CrawledItem :=
  dedupe_loop [] items.

(** [[a, b].filter(Boolean)]. *)
Definition non_empty (l : list string) : list string := filter truthy l.

(** The inner loop of [crawlSources]: the items of one run, filed under
    [source]. *)
Definition attach (net : Network) (source : Sources.SourceRecord)
           (items : list Items.CrawlInput) : list Items.CrawledItem :=
  flat_map
    (fun item =>
       let normalizedUrl :=
         Crawler.normalizeUrl (URL_resolve net) (Items.ci_url item) (Sources.url source) in
       if negb (truthy normalizedUrl) then []
       else
         [ {| Items.title := trim (Items.ci_title item);
              Items.publishedAt := Items.ci_publishedAt item;
              Items.url := normalizedUrl;
              Items.summary := Items.ci_summary item;
              Items.rawText := Items.ci_rawText item;
              Items.source := source;
              Items.provenanceLinks := non_empty [Sources.url source; normalizedUrl] |} ])
    items.

Definition is_twitter (source : Sources.SourceRecord) : bool :=
  String.eqb (Sources.kind source) "twitter_search".

Definition result_of (run : SourceRun) : Items.CrawlSourceResult :=
  {| Items.sourceId := run_sourceId run;
     Items.itemCount := run_itemCount run;
     Items.error := run_error run |}.

(** The first loop of [crawlSources], over the runs of the sources
    that are not searches: a run is filed under the first source of
    the list that has its id. *)
Fixpoint file_runs (net : Network) (sources : list Sources.SourceRecord)
         (runs : list SourceRun)
  : list Items.CrawledItem * list Items.CrawlSourceResult :=
  match runs with
  | [] => ([], [])
  | run :: rest =>
      let '(items, results) := file_runs net sources rest in
      match find (fun entry => String.eqb (Sources.id entry) (run_sourceId run))
                 sources with
      | None => (items, results)
      | Some source =>
          (attach net source (run_items run) ++ items, result_of run :: results)
      end
  end.

(** The second loop, over the searches, one after the other. *)
Fixpoint file_searches (net : Network) (searches : list Sources.SourceRecord)
  : list Items.CrawledItem * list Items.CrawlSourceResult :=
  match searches with
  | [] => ([], [])
  | source :: rest =>
      let run := crawlSource net source in
      let '(items, results) := file_searches net rest in
      (attach net source (run_items run) ++ items, result_of run :: results)
  end.

Definition crawlSources (net : Network) (sources : list Sources.SourceRecord)
  : Items.CrawlResult :=
  let nonTwitterSources := filter (fun source => negb (is_twitter source)) sources in
  let twitterSources := filter is_twitter sources in
  let sourceRuns := map (crawlSource net) nonTwitterSources in
  let '(items1, results1) := file_runs net sources sourceRuns in
  let '(items2, results2) := file_searches net twitterSources in
  {| Items.items := dedupeCrawledItems (items1 ++ items2);
     Items.sourceResults := results1 ++ results2 |}.

End Crawl.

(* ================================================================= *)
(** * cli.ts: the crawl command *)

Module Cli.
Import JS.
Local Open Scope list_scope.




End Cli.

(* ================================================================= *)
(** * More vocabulary *)

Module Props2.
Import JS.
Import Db.
Import Props.
Local Open Scope list_scope.

(** ** The store *)

(** The store after a series of upserts, each at its time. *)
Fixpoint upsert_all (calls : list (string * RegulationEventInput)) (db : Database)
  : Database :=
  match calls with
  | [] => db
  | (now, event) :: rest => upsert_all rest (snd (upsertRegulationEvent now event db))
  end.

(** The columns of an event row no statement of the engine rewrites. *)
Definition fixed_columns (r : RegulationEventDbRow)
  : string * string * string * string * Z * string * string :=
  (ev_id r, ev_title r, ev_jurisdiction_country r, ev_jurisdiction_state r,
   ev_source_id r, ev_source_url r, ev_created_at r).

(** Every event of the store was last updated before [now]. *)
Definition all_older (now : string) (db : Database) : Prop :=
  forall r, In r (regulation_events db) -> String.ltb (ev_updated_at r) now = true.

(** The time stamp [upsertSource] writes. *)
Definition source_timestamp (now : string) (source : SourceInput) : string :=
  match si_lastCrawledAt source with Some t => t | None => now end.

(** The upsert answered [status_changed] for the event [id]. *)
Definition status_changed_for (id : string) (res : result UpsertEventResult) : bool :=
  match res with
  | Ok x =>
      match res_status x with
      | status_changed => String.eqb (res_id x) id
      | _ => false
      end
  | Throw _ => false
  end.

(** ** Texts *)

(** The last character of [s] is [c]. *)
Fixpoint ends_with (c : ascii) (s : string) : bool :=
  match s with
  | EmptyString => false
  | String x EmptyString => Ascii.eqb x c
  | String _ s' => ends_with c s'
  end.

(** A text that is not empty and has no white space at either end. *)
Definition trimmed (s : string) : Prop := s <> EmptyString /\ trim s = s.

(** The name [normalizeStage] looks up among the stages: the raw stage
    in lower case, each run of white space as one underscore. *)
Definition stage_candidate (rawStage : string) : string :=
  replaceAll false (Plus Analyzer.space_class) "_" (toLowerCase rawStage).

(** ** The crawl *)

(** What [parseWebPage] promises of an item: the url of the source, no
    publication date, a raw text that is not empty and a summary that
    is its first 500 characters. *)
Definition page_item (source : Sources.SourceRecord) (it : Items.CrawlInput) : Prop :=
  Items.ci_url it = Sources.url source
  /\ Items.ci_publishedAt it = None
  /\ Items.ci_rawText it <> EmptyString
  /\ Items.ci_summary it = slice0 500 (Items.ci_rawText it)
  /\ String.length (Items.ci_summary it) <= 500.

(** What [crawlSources] promises of an item: it is filed under one of
    the sources crawled, its url is not empty, its title is trimmed and
    its provenance is the url of its source and its own url. *)
Definition crawled_item (sources : list Sources.SourceRecord)
           (item : Items.CrawledItem) : Prop :=
  In (Items.source item) sources
  /\ Items.url item <> EmptyString
  /\ trim (Items.title item) = Items.title item
  /\ Items.provenanceLinks item
     = Crawl.non_empty [Sources.url (Items.source item); Items.url item].

(** The sources in the order [crawlSources] answers for them: those
    that are not searches, then the searches. *)
Definition crawl_order (sources : list Sources.SourceRecord)
  : list Sources.SourceRecord :=
  filter (fun source => negb (Crawl.is_twitter source)) sources
  ++ filter Crawl.is_twitter sources.

(** ** The pass *)

Import Ingest.

(** The computation [m] keeps the property [P] of its state, whether
    it returns or throws. *)
Definition keeps {S A : Type} (P : S -> Prop) (m : M S A) : Prop :=
  forall s, P s -> P (snd (m s)).

(** A source result of the crawl names a selected source and carries
    no message. *)
Definition reports_success (selected : list Sources.SourceRecord)
           (r : Items.CrawlSourceResult) : bool :=
  existsb (fun entry => String.eqb (Sources.id entry) (Items.sourceId r)) selected
  && negb match Items.error r with
          | Some message => truthy message
          | None => false
          end.

(** The entry of [sourceErrors] for a source result that reports a
    failure. *)
Definition error_entry (r : Items.CrawlSourceResult) : string * string :=
  (Items.sourceId r,
   match Items.error r with Some message => message | None => EmptyString end).

(** Every source of both tables. *)
Definition allSources (env : Environment) : list Sources.SourceRecord :=
  sourceRegistry env ++ twitterSearchSources env.

(** The store of a pass keeps the property [I]. *)
Definition store_has (I : Database -> Prop) (p : Pass) : Prop := I (store (fst p)).

(** The events of [db] are those of [rows], in their order and with
    their fixed columns, and maybe more after them. *)
Definition extends_events (rows : list RegulationEventDbRow) (db : Database) : Prop :=
  exists more,
    map fixed_columns (regulation_events db) = map fixed_columns rows ++ more.

End Props2.

Module Examples2.
Import JS.
Import Db.
Local Open Scope list_scope.

(** The bill of the engine's test, from a source of tier 9. *)
Definition tier9Event : RegulationEventInput :=
  {| title := title Examples.baseEvent;
     jurisdictionCountry := jurisdictionCountry Examples.baseEvent;
     jurisdictionState := jurisdictionState Examples.baseEvent;
     stage := stage Examples.baseEvent;
     ageBracket := ageBracket Examples.baseEvent;
     isUnder16Applicable := isUnder16Applicable Examples.baseEvent;
     impactScore := impactScore Examples.baseEvent;
     likelihoodScore := likelihoodScore Examples.baseEvent;
     confidenceScore := confidenceScore Examples.baseEvent;
     chiliScore := chiliScore Examples.baseEvent;
     summary := summary Examples.baseEvent;
     businessImpact := businessImpact Examples.baseEvent;
     requiredSolutions := requiredSolutions Examples.baseEvent;
     affectedMetaProducts := affectedMetaProducts Examples.baseEvent;
     competitorResponses := competitorResponses Examples.baseEvent;
     rawSourceText := rawSourceText Examples.baseEvent;
     provenanceLinks := provenanceLinks Examples.baseEvent;
     effectiveDate := effectiveDate Examples.baseEvent;
     publishedDate := publishedDate Examples.baseEvent;
     sourceName := sourceName Examples.baseEvent;
     sourceUrl := sourceUrl Examples.baseEvent;
     sourceJurisdiction := sourceJurisdiction Examples.baseEvent;
     sourceAuthorityType := sourceAuthorityType Examples.baseEvent;
     sourceReliabilityTier := 9 |}.

(** What the engine answers to the first upsert of the bill. *)
Definition created_result : UpsertEventResult :=
  {| res_id := Props.candidate_id Examples.baseEvent; res_status := created;
     wasStatusChange := false; previousStage := None |}.

(** What it answers when the bill comes back as passed. *)
Definition passed_result : UpsertEventResult :=
  {| res_id := Props.candidate_id Examples.baseEvent; res_status := status_changed;
     wasStatusChange := true; previousStage := Some introduced |}.

(** The store after the bill was upserted as introduced, then as
    passed. *)
Definition stored_twice : Database :=
  snd (upsertRegulationEvent Examples.t2 Examples.passedEvent
         (Examples.stored_once Examples.baseEvent)).

(** The analysis of the example item for the example answer. *)
Definition example_analysis : Analyzer.AnalyzedItem :=
  {| Analyzer.isRelevant := true;
     Analyzer.jurisdiction := "California, United States";
     Analyzer.stage := introduced;
     Analyzer.ageBracket := bracket_13_15;
     Analyzer.affectedMetaProducts := ["Meta Family of Products"];
     Analyzer.summary := Examples.example_summary;
     Analyzer.businessImpact := "Moderate product updates needed.";
     Analyzer.requiredSolutions := [];
     Analyzer.competitorResponses := [];
     Analyzer.impactScore := of_Z 5;
     Analyzer.likelihoodScore := of_Z 5;
     Analyzer.confidenceScore := of_Z 1;
     Analyzer.chiliScore := of_Z 3 |}.

(** A network on which every request fails. *)
Definition dead_network : Crawl.Network :=
  {| Crawl.fetchWithTimeout := fun _ => Throw (Error "network down");
     Crawl.X_BEARER_TOKEN := None;
     Crawl.crawlTwitterRecentSearch := fun _ _ => Throw (Error "network down");
     Crawl.URL_resolve := Examples.no_resolution |}.

(** The example environment with the crawler of crawler.ts on that
    network. *)
Definition crawler_env : Ingest.Environment :=
  {| Ingest.sourceRegistry := [Examples.example_source];
     Ingest.twitterSearchSources := [];
     Ingest.crawlSources := fun sources => Ok (Crawl.crawlSources dead_network sources);
     Ingest.MINIMAX_API_KEY := None;
     Ingest.classify := fun _ => Examples.example_401;
     Ingest.JSON_parse := Examples.example_JSON_parse;
     Ingest.ToNumber := Examples.example_ToNumber;
     Ingest.ANALYSIS_CONCURRENCY := of_Z 12;
     Ingest.clock := Examples.example_clock;
     Ingest.Date_day := fun _ => None |}.

(** What the engine answers to the bill under the country in lower
    case, and the store it leaves. *)
Definition refused_error : thrown :=
  Error "UNIQUE constraint failed: regulation_events.id".

Definition stored_after_refusal : Database :=
  snd (upsertRegulationEvent Examples.t2 Examples.lowerCaseEvent
         (Examples.stored_once Examples.baseEvent)).

End Examples2.
(* ================================================================= *)
(** * Facts about the builtins *)

Section JsFacts.
Import JS.

Lemma of_Z_eqb (a b : Z) : number_eqb (of_Z a) (of_Z b) = Z.eqb a b.
Proof.
  unfold of_Z, number_eqb.
  destruct (Z.eqb_spec a b) as [->|N].
  - apply Qeq_bool_iff. reflexivity.
  - apply not_true_is_false. intro H. apply Qeq_bool_iff in H.
    apply N. unfold Qeq in H. simpl in H. lia.
Qed.

Lemma to_Z_of_Z (z : Z) : Db.to_Z (of_Z z) = z.
Proof. unfold Db.to_Z, of_Z. apply Qfloor_Z. Qed.

Lemma isInteger_of_Z (z : Z) : Number_isInteger (of_Z z) = true.
Proof.
  unfold Number_isInteger, of_Z. rewrite Qfloor_Z. apply Qeq_bool_iff. reflexivity.
Qed.

Lemma Qcompare_inject_Z (a b : Z) :
  Qcompare (inject_Z a) (inject_Z b) = Z.compare a b.
Proof. unfold Qcompare. simpl. rewrite !Z.mul_1_r. reflexivity. Qed.

Lemma lt_of_Z (a b : Z) : lt (of_Z a) (of_Z b) = (a <? b)%Z.
Proof.
  unfold lt, of_Z. rewrite Qcompare_inject_Z.
  unfold Z.ltb. destruct (a ?= b)%Z; reflexivity.
Qed.

(** A number equal to a stored integer score is left alone by the
    store's [normalizeScore], up to numeric equality. *)
Lemma db_normalizeScore_stored (z : Z) (n : number) :
  Db.score_check z = true ->
  number_eqb (of_Z z) n = true ->
  number_eqb (of_Z z) (Db.normalizeScore n) = true.
Proof.
  intros Hz Hn. unfold Db.score_check in Hz.
  apply andb_true_iff in Hz as [H1 H5].
  apply Z.leb_le in H1. apply Z.leb_le in H5.
  destruct n as [ | | | q]; try discriminate.
  unfold number_eqb, of_Z in Hn. apply Qeq_bool_iff in Hn.
  unfold Db.normalizeScore.
  assert (Hint : Number_isInteger (Fin q) = true).
  { unfold Number_isInteger. apply Qeq_bool_iff.
    rewrite <- (Qfloor_comp _ _ Hn), Qfloor_Z. exact Hn. }
  rewrite Hint. simpl negb. cbv iota.
  assert (Hlt : lt (Fin q) (of_Z 1) = false).
  { unfold lt, of_Z. rewrite <- (Qcompare_comp _ _ Hn _ _ (Qeq_refl _)).
    rewrite Qcompare_inject_Z.
    destruct (Z.compare_spec z 1); try reflexivity. exfalso. lia. }
  assert (Hgt : gt (Fin q) (of_Z 5) = false).
  { unfold gt, lt, of_Z. rewrite <- (Qcompare_comp _ _ (Qeq_refl _) _ _ Hn).
    rewrite Qcompare_inject_Z.
    destruct (Z.compare_spec 5 z); try reflexivity. exfalso. lia. }
  rewrite Hlt, Hgt. unfold number_eqb, of_Z. apply Qeq_bool_iff. exact Hn.
Qed.

(** The store's [normalizeScore] always yields an integer from 1 to 5. *)
Lemma db_normalizeScore_range (n : number) :
  exists z, (1 <= z <= 5)%Z /\ number_eqb (of_Z z) (Db.normalizeScore n) = true
            /\ Db.to_Z (Db.normalizeScore n) = z.
Proof.
  unfold Db.normalizeScore.
  destruct (Number_isInteger n) eqn:Hint; simpl negb; cbv iota.
  2:{ exists 1%Z. rewrite of_Z_eqb, to_Z_of_Z. repeat split; lia. }
  destruct (lt n (of_Z 1)) eqn:Hlt.
  { exists 1%Z. rewrite of_Z_eqb, to_Z_of_Z. repeat split; lia. }
  destruct (gt n (of_Z 5)) eqn:Hgt.
  { exists 5%Z. rewrite of_Z_eqb, to_Z_of_Z. repeat split; lia. }
  destruct n as [ | | | q]; try discriminate.
  unfold Number_isInteger in Hint. apply Qeq_bool_iff in Hint.
  exists (Qfloor q). split; [|split].
  - unfold gt, lt, of_Z in *.
    rewrite <- (Qcompare_comp _ _ Hint _ _ (Qeq_refl _)) in Hlt.
    rewrite <- (Qcompare_comp _ _ (Qeq_refl _) _ _ Hint) in Hgt.
    rewrite Qcompare_inject_Z in Hlt, Hgt.
    destruct (Z.compare_spec (Qfloor q) 1); try discriminate;
    destruct (Z.compare_spec 5 (Qfloor q)); try discriminate; lia.
  - unfold number_eqb, of_Z. apply Qeq_bool_iff. exact Hint.
  - reflexivity.
Qed.

End JsFacts.

(* ================================================================= *)
(** * Facts about the matcher *)

Section RegexFacts.
Import JS.
Local Open Scope list_scope.

Variable R : Type.
Variable ic : bool.

Lemma star_greedy_suffix p (k : string -> option R) s x :
  star_greedy p k s = Some x ->
  exists rest, k rest = Some x /\ String.length rest <= String.length s.
Proof.
  induction s as [|c s IH]; cbn [star_greedy]; intro H.
  - exists EmptyString. split; [exact H|reflexivity].
  - destruct (p c).
    + destruct (star_greedy p k s) as [y|] eqn:E.
      * inversion H; subst. destruct (IH eq_refl) as (rest & Hk & Hl).
        exists rest. split; [exact Hk|]. cbn [String.length]. lia.
      * exists (String c s). split; [exact H|reflexivity].
    + exists (String c s). split; [exact H|reflexivity].
Qed.

Lemma star_lazy_suffix p (k : string -> option R) s x :
  star_lazy p k s = Some x ->
  exists rest, k rest = Some x /\ String.length rest <= String.length s.
Proof.
  induction s as [|c s IH]; cbn [star_lazy]; intro H.
  - destruct (k EmptyString) as [y|] eqn:E; [|discriminate].
    exists EmptyString. split; [rewrite E; exact H|reflexivity].
  - destruct (k (String c s)) as [y|] eqn:E.
    + exists (String c s). split; [rewrite E; exact H|reflexivity].
    + destruct (p c); [|discriminate].
      destruct (IH H) as (rest & Hk & Hl).
      exists rest. split; [exact Hk|]. cbn [String.length]. lia.
Qed.

(** A match hands its continuation a suffix of the input. *)
Lemma rmatch_suffix r :
  forall s cap (k : string -> option string -> option R) x,
    rmatch ic r s cap k = Some x ->
    exists rest cap',
      k rest cap' = Some x /\ String.length rest <= String.length s.
Proof.
  induction r as [ |c|p|r1 IH1 r2 IH2|r1 IH1 r2 IH2|p|p|r1 IH1| ];
    intros s cap k x H; cbn [rmatch] in H.
  - exists s, cap. split; [exact H|reflexivity].
  - destruct s as [|a s]; [discriminate|].
    destruct (chr_eqb ic c a); [|discriminate].
    exists s, cap. split; [exact H|]. cbn [String.length]. lia.
  - destruct s as [|a s]; [discriminate|].
    destruct (p a); [|discriminate].
    exists s, cap. split; [exact H|]. cbn [String.length]. lia.
  - destruct (IH1 _ _ _ _ H) as (rest1 & cap1 & H1 & L1).
    destruct (IH2 _ _ _ _ H1) as (rest & cap' & H2 & L2).
    exists rest, cap'. split; [exact H2|lia].
  - destruct (rmatch ic r1 s cap k) as [y|] eqn:E.
    + inversion H; subst. exact (IH1 _ _ _ _ E).
    + exact (IH2 _ _ _ _ H).
  - destruct (star_greedy_suffix _ _ _ _ H) as (rest & Hk & Hl).
    exists rest, cap. split; assumption.
  - destruct (star_lazy_suffix _ _ _ _ H) as (rest & Hk & Hl).
    exists rest, cap. split; assumption.
  - destruct (IH1 _ _ _ _ H) as (rest & cap' & Hk & Hl).
    exists rest. eexists. split; [exact Hk|exact Hl].
  - destruct s; [|discriminate]. exists EmptyString, cap.
    split; [exact H|reflexivity].
Qed.

Lemma rmatch_consuming r :
  consuming r = true ->
  forall s cap (k : string -> option string -> option R) x,
    rmatch ic r s cap k = Some x ->
    exists rest cap',
      k rest cap' = Some x /\ String.length rest < String.length s.
Proof.
  induction r as [ |c|p|r1 IH1 r2 IH2|r1 IH1 r2 IH2|p|p|r1 IH1| ];
    cbn [consuming]; intros Hc s cap k x H; try discriminate; cbn [rmatch] in H.
  - destruct s as [|a s]; [discriminate|].
    destruct (chr_eqb ic c a); [|discriminate].
    exists s, cap. split; [exact H|]. cbn [String.length]. lia.
  - destruct s as [|a s]; [discriminate|].
    destruct (p a); [|discriminate].
    exists s, cap. split; [exact H|]. cbn [String.length]. lia.
  - destruct (consuming r1) eqn:C1.
    + destruct (IH1 eq_refl _ _ _ _ H) as (rest1 & cap1 & H1 & L1).
      destruct (rmatch_suffix _ _ _ _ _ H1) as (rest & cap' & H2 & L2).
      exists rest, cap'. split; [exact H2|lia].
    + cbn [orb] in Hc.
      destruct (rmatch_suffix _ _ _ _ _ H) as (rest1 & cap1 & H1 & L1).
      destruct (IH2 Hc _ _ _ _ H1) as (rest & cap' & H2 & L2).
      exists rest, cap'. split; [exact H2|lia].
  - apply andb_true_iff in Hc as [C1 C2].
    destruct (rmatch ic r1 s cap k) as [y|] eqn:E.
    + inversion H; subst. exact (IH1 C1 _ _ _ _ E).
    + exact (IH2 C2 _ _ _ _ H).
  - destruct (IH1 Hc _ _ _ _ H) as (rest & cap' & Hk & Hl).
    exists rest. eexists. split; [exact Hk|exact Hl].
Qed.

End RegexFacts.

Section ReplaceFacts.
Import JS.
Local Open Scope list_scope.

Lemma match_here_bounds ic r s n cap :
  match_here ic r s = Some (n, cap) -> n <= String.length s.
Proof.
  unfold match_here. intro H.
  destruct (rmatch_suffix _ ic r _ _ _ _ H) as (rest & cap' & Hk & _).
  inversion Hk. lia.
Qed.

Lemma match_here_consuming ic r s n cap :
  consuming r = true -> match_here ic r s = Some (n, cap) -> 1 <= n.
Proof.
  unfold match_here. intros Hc H.
  destruct (rmatch_consuming _ ic r Hc _ _ _ _ H) as (rest & cap' & Hk & Hl).
  inversion Hk. lia.
Qed.

Lemma length_append (a b : string) :
  String.length (a ++ b) = String.length a + String.length b.
Proof. induction a as [|c a IH]; cbn; [reflexivity|]. rewrite IH. reflexivity. Qed.

(** Replacing every match of a consuming pattern by one character
    never makes a string longer. *)
Lemma replace_from_length ic r (c : ascii) :
  consuming r = true ->
  forall s skip,
    String.length (replace_from ic r (String c EmptyString) skip s)
    <= String.length s - skip.
Proof.
  intro Hc. induction s as [|a s IH]; intro skip.
  - destruct skip as [|n]; cbn [replace_from]; [|cbn; lia].
    destruct (match_here ic r EmptyString) as [[[|n] cap]|] eqn:E; cbn.
    + apply (match_here_consuming _ _ _ _ _ Hc) in E. lia.
    + apply match_here_bounds in E. cbn in E. lia.
    + lia.
  - destruct skip as [|n]; cbn [replace_from].
    + destruct (match_here ic r (String a s)) as [[[|n] cap]|] eqn:E.
      * apply (match_here_consuming _ _ _ _ _ Hc) in E. lia.
      * cbn [append String.length]. specialize (IH n). lia.
      * cbn [String.length]. specialize (IH 0). lia.
    + cbn [String.length]. specialize (IH n). lia.
Qed.

Lemma replaceAll_length ic r (c : ascii) s :
  consuming r = true ->
  String.length (replaceAll ic r (String c EmptyString) s) <= String.length s.
Proof.
  intro Hc. unfold replaceAll.
  pose proof (replace_from_length ic r c Hc s 0). lia.
Qed.

Lemma trimStart_length s : String.length (trimStart s) <= String.length s.
Proof.
  induction s as [|c s IH]; cbn [trimStart]; [reflexivity|].
  destruct (is_space c); cbn [String.length]; lia.
Qed.

Lemma trimEnd_length s : String.length (trimEnd s) <= String.length s.
Proof.
  induction s as [|c s IH]; cbn [trimEnd]; [reflexivity|].
  destruct (trimEnd s) as [|d t].
  - destruct (is_space c); cbn [String.length]; lia.
  - cbn [String.length] in *. lia.
Qed.

Lemma trim_length s : String.length (trim s) <= String.length s.
Proof.
  unfold trim. pose proof (trimEnd_length (trimStart s)).
  pose proof (trimStart_length s). lia.
Qed.

(** [sanitizeText] never makes a text longer. *)
Lemma sanitizeText_length s :
  String.length (Ingest.sanitizeText s) <= String.length s.
Proof.
  unfold Ingest.sanitizeText.
  eapply Nat.le_trans; [apply trim_length|].
  eapply Nat.le_trans; [apply replaceAll_length; reflexivity|].
  eapply Nat.le_trans; [apply replaceAll_length; reflexivity|].
  eapply Nat.le_trans; [apply replaceAll_length; reflexivity|].
  apply replaceAll_length. reflexivity.
Qed.

End ReplaceFacts.

Section LiteralFacts.
Import JS.
Local Open Scope list_scope.

Variable R : Type.


(** A literal, under the flag i, matches at the head of [s] when the
    lower-cased literal starts the lower-cased [s]. *)
Lemma rmatch_Str w :
  forall s cap (k : string -> option string -> option R),
    rmatch true (Str w) s cap k
    = if startsWith (toLowerCase s) (toLowerCase w)
      then k (drop (String.length w) s) cap else None.
Proof.
  induction w as [|c w IH]; intros s cap k.
  - cbn. destruct s; reflexivity.
  - assert (Hstep : rmatch true (Str (String c w)) s cap k
                    = rmatch true (Chr c) s cap
                        (fun s' cap' => rmatch true (Str w) s' cap' k)).
    { destruct w; reflexivity. }
    rewrite Hstep. cbn [rmatch].
    destruct s as [|a s]; [reflexivity|].
    cbn [toLowerCase startsWith drop String.length chr_eqb].
    destruct (Ascii.eqb (lower_char c) (lower_char a)); cbn [andb];
      [apply IH|reflexivity].
Qed.

Lemma rmatch_Alts l :
  forall s cap (k : string -> option string -> option R),
    (forall rest cap', is_some (k rest cap') = true) ->
    is_some (rmatch true (Alts l) s cap k)
    = existsb (fun w => startsWith (toLowerCase s) (toLowerCase w)) l.
Proof.
  induction l as [|w l IH]; intros s cap k Hk.
  - cbn. destruct s; reflexivity.
  - assert (Hstep : is_some (rmatch true (Alts (w :: l)) s cap k)
                    = is_some (rmatch true (Str w) s cap k)
                      || is_some (rmatch true (Alts l) s cap k)).
    { destruct l as [|w' l'].
      - assert (Hnone : rmatch true (Alts []) s cap k = None)
          by (destruct s; reflexivity).
        rewrite Hnone. cbn [Alts is_some]. rewrite orb_false_r. reflexivity.
      - cbn [Alts]. cbn [rmatch].
        destruct (rmatch true (Str w) s cap k); reflexivity. }
    rewrite Hstep, (IH s cap k Hk), rmatch_Str. cbn [existsb].
    destruct (startsWith (toLowerCase s) (toLowerCase w)); [|reflexivity].
    rewrite Hk. reflexivity.
Qed.

End LiteralFacts.

Section TestFacts.
Import JS.
Local Open Scope list_scope.

Lemma match_here_Alts l s :
  is_some (match_here true (Alts l) s)
  = existsb (fun w => startsWith (toLowerCase s) (toLowerCase w)) l.
Proof. unfold match_here. apply rmatch_Alts. reflexivity. Qed.

Lemma match_here_Group_Alts l s :
  is_some (match_here true (Group (Alts l)) s)
  = existsb (fun w => startsWith (toLowerCase s) (toLowerCase w)) l.
Proof. unfold match_here. cbn [rmatch]. apply rmatch_Alts. reflexivity. Qed.

Lemma existsb_pointwise (A : Type) (f g : A -> bool) l :
  (forall x, f x = g x) -> existsb f l = existsb g l.
Proof.
  intro H. induction l as [|x l IH]; [reflexivity|]. cbn. rewrite H, IH. reflexivity.
Qed.

Lemma existsb_orb (A : Type) (f g : A -> bool) l :
  existsb (fun x => f x || g x) l = existsb f l || existsb g l.
Proof.
  induction l as [|x l IH]; [reflexivity|]. cbn. rewrite IH.
  destruct (f x), (g x), (existsb f l), (existsb g l); reflexivity.
Qed.

(** A pattern that is a list of literal alternatives, under the flag
    i, is found in a text when one of the lower-cased alternatives
    occurs in the lower-cased text. *)
Lemma test_by_includes r l :
  (forall s, is_some (match_here true r s)
             = existsb (fun w => startsWith (toLowerCase s) (toLowerCase w)) l) ->
  forall s,
    test true r s = existsb (fun w => includes (toLowerCase s) (toLowerCase w)) l.
Proof.
  intros Hr s. unfold test, exec. generalize 0 as i.
  induction s as [|c s IH]; intro i; cbn [exec_from].
  - specialize (Hr EmptyString).
    destruct (match_here true r EmptyString) as [[n cap]|]; cbn [is_some] in Hr.
    + rewrite Hr. apply existsb_pointwise. intro w. cbn. rewrite orb_false_r. reflexivity.
    + rewrite Hr. apply existsb_pointwise. intro w. cbn. rewrite orb_false_r. reflexivity.
  - specialize (Hr (String c s)).
    cbn [toLowerCase includes]. rewrite existsb_orb.
    destruct (match_here true r (String c s)) as [[n cap]|]; cbn [is_some] in Hr.
    + cbn [toLowerCase] in Hr. rewrite <- Hr. reflexivity.
    + cbn [toLowerCase] in Hr. rewrite <- Hr. cbn [orb]. apply IH.
Qed.

Lemma test_boilerplate s :
  test true Ingest.boilerplate s
  = existsb (fun w => includes (toLowerCase s) w) Ingest.boilerplatePhrases.
Proof.
  unfold Ingest.boilerplate.
  rewrite (test_by_includes _ _ (match_here_Alts Ingest.boilerplatePhrases)).
  reflexivity.
Qed.

Lemma test_regulatoryKeyword s :
  test true Ingest.regulatoryKeyword s
  = existsb (fun w => includes (toLowerCase s) w) Ingest.regulatoryKeywords.
Proof.
  unfold Ingest.regulatoryKeyword.
  rewrite (test_by_includes _ _ (match_here_Group_Alts Ingest.regulatoryKeywords)).
  reflexivity.
Qed.

End TestFacts.

(* ================================================================= *)
(** * The upsert engine *)

Section UpsertFacts.
Import JS.
Import Db.
Import Props.
Local Open Scope list_scope.

Lemma Stage_beq_refl (s : Stage) : Stage_beq s s = true.
Proof. destruct s; reflexivity. Qed.

Lemma Stage_beq_eq (a b : Stage) : Stage_beq a b = true <-> a = b.
Proof. destruct a, b; simpl; split; intro H; try reflexivity; discriminate. Qed.

Lemma AgeBracket_beq_refl (a : AgeBracket) : AgeBracket_beq a a = true.
Proof. destruct a; reflexivity. Qed.

Lemma extractStage_name (s : Stage) : extractStage (stage_name s) = s.
Proof. destruct s; reflexivity. Qed.

(** [upsertSource] writes to [sources] only, whether it returns or
    throws. *)
Lemma upsertSource_frame now src db res db' :
  upsertSource now src db = (res, db') ->
  regulation_events db' = regulation_events db
  /\ status_changes db' = status_changes db
  /\ status_changes_seq db' = status_changes_seq db
  /\ crawl_runs db' = crawl_runs db
  /\ crawl_runs_seq db' = crawl_runs_seq db
  /\ crawl_runs_log db' = crawl_runs_log db.
Proof.
  unfold upsertSource. intro H.
  destruct (negb (source_checks (si_reliabilityTier src))).
  { inversion H; subst. repeat split. }
  destruct (name_taken (sources db) (si_name src) (si_url src)).
  { inversion H; subst. repeat split. }
  destruct (existsb (has_url (si_url src)) (sources db));
    match type of H with
    | context [find ?f ?l] => destruct (find f l)
    end; inversion H; subst; repeat split.
Qed.

Lemma find_after_refresh src t u rows :
  existsb (has_url u) rows = true ->
  exists row,
    find (has_url u)
         (map (fun r => if has_url u r then refresh_source src t r else r) rows)
    = Some row.
Proof.
  induction rows as [|x rows IH]; simpl; [discriminate|].
  destruct (has_url u x) eqn:E; simpl.
  - intros _. unfold has_url in *. simpl. rewrite E. eauto.
  - intro H. rewrite E. apply IH. exact H.
Qed.

Lemma find_after_append (A : Type) (f : A -> bool) rows x :
  f x = true -> exists row, find f (rows ++ [x]) = Some row.
Proof.
  intro Hx. induction rows as [|y rows IH]; simpl.
  - rewrite Hx. eauto.
  - destruct (f y); eauto.
Qed.

(** An accepted source is registered: the first statement of the
    upsert returns. *)
Lemma upsertSource_accepted now event db :
  source_accepted db event ->
  exists sid db1, upsertSource now (candidate_source now event) db = (Ok sid, db1).
Proof.
  intros [Hc Hn]. unfold upsertSource, candidate_source. simpl.
  rewrite Hc, Hn. simpl.
  destruct (existsb (has_url (sourceUrl event)) (sources db)) eqn:E.
  - simpl. destruct (find_after_refresh
                       {| si_name := sourceName event; si_url := sourceUrl event;
                          si_authorityType := sourceAuthorityType event;
                          si_jurisdiction := sourceJurisdiction event;
                          si_reliabilityTier := sourceReliabilityTier event;
                          si_lastCrawledAt := Some now |} now _ _ E) as [row Hrow].
    simpl in Hrow. rewrite Hrow. eauto.
  - simpl.
    match goal with
    | |- context [find ?f (?rows ++ [?x])] =>
        destruct (find_after_append _ f rows x) as [row Hrow]
    end.
    { unfold has_url. simpl. apply String.eqb_refl. }
    rewrite Hrow. eauto.
Qed.

Lemma latest_In best rows : In (latest best rows) (best :: rows).
Proof.
  revert best. induction rows as [|x rows IH]; intro best; simpl.
  - left; reflexivity.
  - destruct (String.ltb (ev_updated_at best) (ev_updated_at x)).
    + destruct (IH x) as [H|H]; [right; left; exact H | right; right; exact H].
    + destruct (IH best) as [H|H]; [left; exact H | right; right; exact H].
Qed.

Lemma select_existing_In country state title rows r :
  select_existing country state title rows = Some r ->
  In r rows /\ matches_identity country state title r = true.
Proof.
  unfold select_existing.
  destruct (filter (matches_identity country state title) rows) as [|x l] eqn:E;
    [discriminate|].
  intro H. inversion H; subst. apply filter_In. rewrite E. apply latest_In.
Qed.

(** UPDATE ... WHERE id = ? touches one row when ids are unique. *)
Lemma update_by_id rows r f :
  NoDup (map ev_id rows) -> In r rows ->
  replaced rows
    (map (fun x => if String.eqb (ev_id x) (ev_id r) then f x else x) rows)
    r (f r).
Proof.
  induction rows as [|x rows IH]; simpl; intros Hnd Hin; [contradiction|].
  inversion Hnd as [|? ? Hx Hnd']; subst.
  destruct Hin as [->|Hin].
  - rewrite String.eqb_refl. exists [], rows. split; [reflexivity|]. simpl. f_equal.
    clear IH Hnd Hnd'. induction rows as [|y rows IH]; simpl; [reflexivity|].
    destruct (String.eqb_spec (ev_id y) (ev_id r)) as [E|E].
    + exfalso. apply Hx. simpl. left. exact E.
    + f_equal. apply IH. intro H. apply Hx. simpl. right. exact H.
  - destruct (String.eqb_spec (ev_id x) (ev_id r)) as [E|E].
    + exfalso. apply Hx. rewrite E. apply in_map. exact Hin.
    + destruct (IH Hnd' Hin) as (before & after & H1 & H2).
      exists (x :: before), after. simpl. rewrite <- H1, <- H2. split; reflexivity.
Qed.


Lemma or_else_truthy a b : a <> EmptyString -> or_else a b = a.
Proof. destruct a; [congruence|reflexivity]. Qed.

Lemma or_else_empty a : or_else a EmptyString = a.
Proof. destruct a; reflexivity. Qed.

(** When the content of a candidate is that of a well-formed stored
    row, flag aside, [hasChanges] is false. *)
Lemma same_content_no_changes r event :
  well_formed_row r -> same_content_but_flag r event ->
  hasChanges r (normalize event) = false.
Proof.
  intros (Hchk & Hsum & Himp)
         (Hst & Hage & Hi & Hl & Hc & Hch & Hs & Hb & Hrs & Hap & Hcr & Hraw & Hpl).
  unfold event_checks in Hchk.
  repeat (apply andb_true_iff in Hchk; destruct Hchk as [Hchk ?]).
  unfold hasChanges, score_differs, differs, differs_nullable, normalize.
  cbn [stage ageBracket impactScore likelihoodScore confidenceScore chiliScore
       summary businessImpact requiredSolutions affectedMetaProducts
       competitorResponses rawSourceText provenanceLinks title].
  rewrite Hst, Hage, Stage_beq_refl, AgeBracket_beq_refl.
  rewrite !db_normalizeScore_stored by assumption.
  rewrite Hs, Hb, Hrs, Hap, Hcr, Hraw, Hpl.
  rewrite or_else_empty.
  rewrite (or_else_truthy (summary event)) by (intro E; apply Hsum; rewrite Hs, E; reflexivity).
  rewrite (or_else_truthy (businessImpact event)) by (intro E; apply Himp; rewrite Hb, E; reflexivity).
  rewrite !String.eqb_refl. reflexivity.
Qed.


(** The upsert, once the source is registered and the stored row is
    found. *)
Lemma upsert_found now event db sid db1 r :
  upsertSource now (candidate_source now event) db = (Ok sid, db1) ->
  stored_for db event r ->
  upsertRegulationEvent now event db =
  (let normalized := normalize event in
   let wasStatusChange := negb (Stage_beq (ev_stage r) (stage normalized)) in
   let previousStage := extractStage (stage_name (ev_stage r)) in
   if negb (hasChanges r normalized) then
     bind (update_event (ev_id r) (touch now))
       (fun _ => ret {| res_id := ev_id r; res_status := unchanged;
                        wasStatusChange := wasStatusChange;
                        previousStage := Some previousStage |})
   else
     bind (update_event (ev_id r) (overwrite now normalized))
       (fun _ =>
          bind (if wasStatusChange
                then insert_status_change (ev_id r) previousStage (stage normalized) now
                else ret tt)
            (fun _ => ret {| res_id := ev_id r;
                             res_status := if wasStatusChange then status_changed else updated;
                             wasStatusChange := wasStatusChange;
                             previousStage := Some previousStage |}))) db1.
Proof.
  intros Hsrc Hsel.
  destruct (upsertSource_frame _ _ _ _ _ Hsrc) as (Hev & _).
  unfold stored_for, candidate_country, candidate_state in Hsel.
  unfold candidate_source in Hsrc.
  unfold upsertRegulationEvent, bind at 1. rewrite Hsrc.
  unfold bind at 1, gets. rewrite Hev, Hsel. reflexivity.
Qed.

(** The upsert, once the source is registered and no stored row is
    found. *)
Lemma upsert_not_found now event db sid db1 :
  upsertSource now (candidate_source now event) db = (Ok sid, db1) ->
  select_existing (candidate_country event) (candidate_state event) (title event)
                  (regulation_events db) = None ->
  upsertRegulationEvent now event db =
  bind (insert_event (new_row now (candidate_id event) (candidate_country event)
                              (candidate_state event) sid event (normalize event)))
    (fun _ => ret {| res_id := candidate_id event; res_status := created;
                     wasStatusChange := false; previousStage := None |}) db1.
Proof.
  intros Hsrc Hsel.
  destruct (upsertSource_frame _ _ _ _ _ Hsrc) as (Hev & _).
  unfold candidate_country, candidate_state in Hsel.
  unfold candidate_source in Hsrc.
  unfold upsertRegulationEvent, bind at 1. rewrite Hsrc.
  unfold bind at 1, gets. rewrite Hev, Hsel. reflexivity.
Qed.

(** When the source is refused the upsert throws at once. *)
Lemma upsert_source_refused now event db e db1 :
  upsertSource now (candidate_source now event) db = (Throw e, db1) ->
  upsertRegulationEvent now event db = (Throw e, db1).
Proof.
  intro Hsrc. unfold candidate_source in Hsrc.
  unfold upsertRegulationEvent, bind at 1. rewrite Hsrc. reflexivity.
Qed.

Lemma insert_event_cases row db res db' :
  insert_event row db = (res, db') ->
  (res = Ok tt /\ db' = with_events db (regulation_events db ++ [row])
   /\ event_checks row = true
   /\ existsb (fun r => String.eqb (ev_id r) (ev_id row)) (regulation_events db) = false)
  \/ ((exists e, res = Throw e) /\ db' = db).
Proof.
  unfold insert_event. intro H.
  destruct (event_checks row); simpl in H.
  2:{ inversion H; subst. right. split; eauto. }
  destruct (existsb (fun r => String.eqb (ev_id r) (ev_id row)) (regulation_events db)).
  { inversion H; subst. right. split; eauto. }
  destruct (existsb (same_dedupe_index row) (regulation_events db)).
  { inversion H; subst. right. split; eauto. }
  inversion H; subst. left. repeat split.
Qed.


Lemma NoDup_app_cons_end (A : Type) (l : list A) (x : A) :
  NoDup l -> ~ In x l -> NoDup (l ++ [x]).
Proof.
  intros Hl Hx. induction Hl as [|y l Hy Hl IH]; simpl.
  - constructor; [intros []|constructor].
  - constructor.
    + intro H. apply in_app_or in H as [H|[H|[]]]; [exact (Hy H)|].
      apply Hx. left. symmetry. exact H.
    + apply IH. intro H. apply Hx. right. exact H.
Qed.

(** A row-wise property that holds of every stored row, and of what an
    update writes from such a row, holds after the update. *)
Lemma Forall_after_update_or (P : RegulationEventDbRow -> Prop) rows id f :
  (forall x, P x -> P (f x)) -> Forall P rows ->
  Forall P (map (fun x => if String.eqb (ev_id x) id then f x else x) rows).
Proof.
  intros Hf H. induction H as [|x rows Hx _ IH]; simpl; constructor; [|exact IH].
  destruct (String.eqb (ev_id x) id); [apply Hf|]; exact Hx.
Qed.

End UpsertFacts.

Section UpsertTheorems.
Import JS.
Import Db.
Import Props.
Local Open Scope list_scope.





(** The invariant [schema_ok] of the store is kept by the engine. *)

Lemma ids_after_update rows id f :
  (forall x, ev_id (f x) = ev_id x) ->
  map ev_id (map (fun x => if String.eqb (ev_id x) id then f x else x) rows)
  = map ev_id rows.
Proof.
  intro Hf. induction rows as [|x rows IH]; simpl; [reflexivity|].
  rewrite IH. destruct (String.eqb (ev_id x) id); [rewrite Hf|]; reflexivity.
Qed.

Lemma score_check_normalized n : score_check (to_Z (normalizeScore n)) = true.
Proof.
  destruct (db_normalizeScore_range n) as (z & Hz & _ & ->).
  unfold score_check. apply andb_true_iff. split; apply Z.leb_le; lia.
Qed.

Lemma or_else_nonempty a b : b <> EmptyString -> or_else a b <> EmptyString.
Proof. destruct a; simpl; [auto|discriminate]. Qed.

Lemma flag_checks b : ((flag b =? 0) || (flag b =? 1))%Z = true.
Proof. destruct b; reflexivity. Qed.

Lemma overwrite_well_formed now event r :
  well_formed_row (overwrite now (normalize event) r).
Proof.
  unfold well_formed_row, event_checks, overwrite, normalize.
  cbn [ev_is_under16_applicable ev_impact_score ev_likelihood_score
       ev_confidence_score ev_chili_score ev_summary ev_business_impact
       isUnder16Applicable impactScore likelihoodScore confidenceScore
       chiliScore summary businessImpact title].
  rewrite flag_checks, !score_check_normalized. split; [reflexivity|]. split.
  - intro H. inversion H as [E]. revert E. apply or_else_nonempty. discriminate.
  - apply or_else_nonempty. discriminate.
Qed.

Lemma new_row_well_formed now id country state sid event :
  well_formed_row (new_row now id country state sid event (normalize event)).
Proof.
  unfold well_formed_row, event_checks, new_row, normalize.
  cbn [ev_is_under16_applicable ev_impact_score ev_likelihood_score
       ev_confidence_score ev_chili_score ev_summary ev_business_impact
       isUnder16Applicable impactScore likelihoodScore confidenceScore
       chiliScore summary businessImpact title].
  rewrite flag_checks, !score_check_normalized. split; [reflexivity|]. split.
  - intro H. inversion H as [E]. revert E. apply or_else_nonempty. discriminate.
  - apply or_else_nonempty. discriminate.
Qed.

Lemma touch_well_formed now r : well_formed_row r -> well_formed_row (touch now r).
Proof. intro H. exact H. Qed.

Lemma not_in_ids rows id :
  existsb (fun r => String.eqb (ev_id r) id) rows = false ->
  ~ In id (map ev_id rows).
Proof.
  induction rows as [|x rows IH]; simpl; [tauto|].
  intro H. apply orb_false_iff in H as [Hx Hr].
  intros [E|Hin]; [|exact (IH Hr Hin)].
  rewrite E, String.eqb_refl in Hx. discriminate.
Qed.

Theorem upsert_preserves_schema :
  forall now event db res db',
    schema_ok db ->
    upsertRegulationEvent now event db = (res, db') ->
    schema_ok db'.
Proof.
  intros now event db res db' [Hnd Hwf] H.
  destruct (upsertSource now (candidate_source now event) db) as [[sid|e] db1] eqn:Hsrc.
  2:{ rewrite (upsert_source_refused _ _ _ _ _ Hsrc) in H. inversion H; subst.
      destruct (upsertSource_frame _ _ _ _ _ Hsrc) as (Hev & _).
      unfold schema_ok. rewrite Hev. split; assumption. }
  destruct (upsertSource_frame _ _ _ _ _ Hsrc) as (Hev & _).
  assert (Hnd1 : NoDup (map ev_id (regulation_events db1))) by (rewrite Hev; exact Hnd).
  assert (Hwf1 : Forall well_formed_row (regulation_events db1)) by (rewrite Hev; exact Hwf).
  destruct (select_existing (candidate_country event) (candidate_state event)
              (title event) (regulation_events db)) as [r|] eqn:Hsel.
  - rewrite (upsert_found _ _ _ _ _ _ Hsrc Hsel) in H. cbv zeta in H.
    destruct (select_existing_In _ _ _ _ _ Hsel) as [Hin _].
    assert (Hr : well_formed_row r) by (rewrite Forall_forall in Hwf; apply Hwf; exact Hin).
    destruct (hasChanges r (normalize event)); cbn [negb] in H.
    + destruct (negb (Stage_beq (ev_stage r) (stage (normalize event))));
        unfold bind, update_event, insert_status_change, modify, ret in H;
        inversion H; subst; unfold schema_ok;
        cbn [regulation_events with_status_changes with_events];
        (split;
         [rewrite ids_after_update by reflexivity; exact Hnd1
         |apply Forall_after_update_or;
            [intros x _; apply overwrite_well_formed|exact Hwf1]]).
    + unfold bind, update_event, modify, ret in H. inversion H; subst.
      unfold schema_ok. cbn [regulation_events with_events]. split.
      * rewrite ids_after_update by reflexivity. exact Hnd1.
      * apply Forall_after_update_or; [intros x Hx; exact Hx|exact Hwf1].
  - rewrite (upsert_not_found _ _ _ _ _ Hsrc Hsel) in H. unfold bind in H.
    destruct (insert_event _ db1) as [[u|e] db2] eqn:Hins.
    + destruct (insert_event_cases _ _ _ _ Hins) as [(_ & -> & _ & Hfresh)|[[e He] _]];
        [|discriminate].
      unfold ret in H. inversion H; subst. unfold schema_ok.
      cbn [regulation_events with_events]. split.
      * rewrite map_app. simpl.
        apply NoDup_app_cons_end; [exact Hnd1|]. apply not_in_ids. exact Hfresh.
      * apply Forall_app. split; [exact Hwf1|].
        constructor; [apply new_row_well_formed|constructor].
    + destruct (insert_event_cases _ _ _ _ Hins) as [(He & _)|[_ ->]]; [discriminate|].
      inversion H; subst. split; assumption.
Qed.

(** The empty store satisfies the invariant. *)
Lemma empty_schema_ok : schema_ok emptyDatabase.
Proof. split; constructor. Qed.

(** The applicability flag takes no part in the comparison: a candidate
    that differs from the stored row in that flag alone is answered
    [unchanged] and the stored flag stays as it was. *)
Lemma applicability_flag_is_not_compared :
  forall (now : string) (event : RegulationEventInput) (db : Database)
         (r : RegulationEventDbRow),
    schema_ok db ->
    source_accepted db event ->
    stored_for db event r ->
    same_content_but_flag r event ->
    exists db',
      upsertRegulationEvent now event db =
      (Ok {| res_id := ev_id r; res_status := unchanged;
             wasStatusChange := false; previousStage := Some (ev_stage r) |}, db')
      /\ replaced (regulation_events db) (regulation_events db') r (touch now r).
Proof.
  intros now event db r [Hnd Hwf] Hsrc Hsel Hsame.
  destruct (upsertSource_accepted now event db Hsrc) as (sid & db1 & Hup).
  destruct (upsertSource_frame _ _ _ _ _ Hup) as (Hev & Hsc & _).
  destruct (select_existing_In _ _ _ _ _ Hsel) as [Hin _].
  assert (Hr : well_formed_row r).
  { rewrite Forall_forall in Hwf. apply Hwf. exact Hin. }
  rewrite (upsert_found _ _ _ _ _ _ Hup Hsel). cbv zeta.
  rewrite (same_content_no_changes _ _ Hr Hsame). cbn [negb].
  destruct Hsame as (Hst & _).
  assert (Hst' : stage (normalize event) = stage event) by reflexivity.
  rewrite Hst', <- Hst, Stage_beq_refl, extractStage_name. cbn [negb].
  unfold bind, update_event, modify, ret.
  eexists. split; [reflexivity|].
  cbn [regulation_events with_events]. rewrite Hev. apply update_by_id; assumption.
Qed.

(** C7, on the code.  A bill is stored as not applicable under 16; the
    same bill comes back with the same stage and the same content and
    the flag set.  The upsert answers [unchanged], not [updated], and
    the stored flag is still 0. *)
Theorem flag_only_difference_is_answered_unchanged :
  same_content_but_flag (Examples.first_row Examples.notUnder16Event) Examples.baseEvent
  /\ ev_is_under16_applicable (Examples.first_row Examples.notUnder16Event) = 0%Z
  /\ flag (isUnder16Applicable Examples.baseEvent) = 1%Z
  /\ fst (upsertRegulationEvent Examples.t2 Examples.baseEvent
            (Examples.stored_once Examples.notUnder16Event))
     = Ok {| res_id := candidate_id Examples.baseEvent;
             res_status := unchanged;
             wasStatusChange := false;
             previousStage := Some introduced |}
  /\ map ev_is_under16_applicable
         (regulation_events
            (snd (upsertRegulationEvent Examples.t2 Examples.baseEvent
                    (Examples.stored_once Examples.notUnder16Event))))
     = [0%Z].
Proof.
  split; [vm_compute; repeat split|].
  split; [reflexivity|]. split; [reflexivity|].
  split; vm_compute; reflexivity.
Qed.

(** The deterministic id depends on the lower-cased key only. *)
Lemma same_key_same_id :
  forall a b : RegulationEventInput,
    toLowerCase (candidate_country a) = toLowerCase (candidate_country b) ->
    toLowerCase (candidate_state a) = toLowerCase (candidate_state b) ->
    toLowerCase (title a) = toLowerCase (title b) ->
    candidate_id a = candidate_id b.
Proof.
  intros a b Hc Hs Ht. unfold candidate_id, dedupeKey. rewrite Hc, Hs, Ht. reflexivity.
Qed.

(** C3, on the code.  The bill is stored under the country United
    States; it is found again under the country united states.  Both
    candidates get the same id, but the lookup compares the country as
    it is written and finds no row, the insert then hits the primary
    key, and the upsert throws; the one stored row is left as it was. *)
Theorem case_variant_country_is_not_resolved :
  candidate_id Examples.lowerCaseEvent = candidate_id Examples.baseEvent
  /\ map ev_id (regulation_events (Examples.stored_once Examples.baseEvent))
     = [candidate_id Examples.baseEvent]
  /\ select_existing (candidate_country Examples.lowerCaseEvent)
       (candidate_state Examples.lowerCaseEvent) (title Examples.lowerCaseEvent)
       (regulation_events (Examples.stored_once Examples.baseEvent)) = None
  /\ fst (upsertRegulationEvent Examples.t2 Examples.lowerCaseEvent
            (Examples.stored_once Examples.baseEvent))
     = Throw (Error "UNIQUE constraint failed: regulation_events.id")
  /\ regulation_events
       (snd (upsertRegulationEvent Examples.t2 Examples.lowerCaseEvent
               (Examples.stored_once Examples.baseEvent)))
     = regulation_events (Examples.stored_once Examples.baseEvent).
Proof.
  split; [vm_compute; reflexivity|].
  split; [vm_compute; reflexivity|].
  split; [vm_compute; reflexivity|].
  split; vm_compute; reflexivity.
Qed.

(** When country and state are written alike and the titles agree up to
    case, the second candidate is resolved to the stored row whatever
    its source url: the lookup does not read the url. *)
Lemma same_spelling_resolves_to_stored_row :
  forall (a b : RegulationEventInput) (db : Database),
    candidate_country a = candidate_country b ->
    candidate_state a = candidate_state b ->
    toLowerCase (title a) = toLowerCase (title b) ->
    forall r, stored_for db a r <-> stored_for db b r.
Proof.
  intros a b db Hc Hs Ht r. unfold stored_for, select_existing.
  rewrite Hc, Hs.
  assert (E : forall x,
             matches_identity (candidate_country b) (candidate_state b) (title a) x
             = matches_identity (candidate_country b) (candidate_state b) (title b) x).
  { intro x. unfold matches_identity. rewrite Ht. reflexivity. }
  rewrite (filter_ext _ _ E). tauto.
Qed.

End UpsertTheorems.


(* ================================================================= *)
(** * The classifier *)

Section ClassifierTheorems.
Import JS.
Import Props.
Local Open Scope list_scope.

Variable JSON_parse : string -> option Analyzer.jsvalue.
Variable ToNumber : Analyzer.jsvalue -> number.

Lemma normalizeScore_finite (v : Analyzer.jsvalue) (q : Q) :
  numeric_value ToNumber v = Fin q ->
  Analyzer.normalizeScore ToNumber v = of_Z (clamp_score (Qfloor (q + (1 # 2)))).
Proof.
  intro Hv. unfold Analyzer.normalizeScore.
  change (match v with Analyzer.JNumber n => n | _ => ToNumber v end)
    with (numeric_value ToNumber v).
  rewrite Hv. cbn [Number_isFinite negb Math_round].
  change (Fin (inject_Z (Qfloor (q + (1 # 2))))) with (of_Z (Qfloor (q + (1 # 2)))).
  unfold gt. rewrite !lt_of_Z. unfold clamp_score.
  destruct (Z.ltb_spec (Qfloor (q + (1 # 2))) 1);
    destruct (Z.ltb_spec 5 (Qfloor (q + (1 # 2)))); cbn [orb];
    f_equal; lia.
Qed.

Lemma normalizeScore_not_finite (v : Analyzer.jsvalue) :
  Number_isFinite (numeric_value ToNumber v) = false ->
  Analyzer.normalizeScore ToNumber v = of_Z 1.
Proof.
  intro Hv. unfold Analyzer.normalizeScore.
  change (match v with Analyzer.JNumber n => n | _ => ToNumber v end)
    with (numeric_value ToNumber v).
  rewrite Hv. reflexivity.
Qed.

Lemma normalizeScore_in_range (v : Analyzer.jsvalue) :
  score_in_range (Analyzer.normalizeScore ToNumber v).
Proof.
  destruct (numeric_value ToNumber v) as [ | | |q] eqn:E.
  1-3: exists 1%Z; split; [lia|];
       apply normalizeScore_not_finite; rewrite E; reflexivity.
  exists (clamp_score (Qfloor (q + (1 # 2)))). split.
  - unfold clamp_score. lia.
  - apply normalizeScore_finite. exact E.
Qed.

(** Without a credential the classifier answers with the safe default. *)
Lemma analyze_without_credential item apiKey response :
  no_credential apiKey ->
  Analyzer.analyzeCrawledItem JSON_parse ToNumber item apiKey response
  = Ok (Analyzer.analyzePayloadDefaults (Items.title item)).
Proof. intros [->| ->]; reflexivity. Qed.

(** With a credential, a failed call makes the classifier throw. *)
Lemma analyze_failure_throws item key response :
  truthy key = true ->
  service_failed JSON_parse response = true ->
  exists e,
    Analyzer.analyzeCrawledItem JSON_parse ToNumber item (Some key) response = Throw e.
Proof.
  intros Hk Hf. unfold Analyzer.analyzeCrawledItem. rewrite Hk. cbn [negb].
  destruct response as [reason|st stt body|reason|payload]; eauto.
  unfold service_failed in Hf.
  destruct (truthy (Analyzer.extractTextFromModelResponse payload)); cbn [negb orb] in *;
    eauto.
  destruct (Analyzer.parseResponseJson JSON_parse
              (Analyzer.extractTextFromModelResponse payload)) as [parsed|]; eauto.
  rewrite Hf. eauto.
Qed.

(** An answer of the classifier is the safe default or is built from
    the parsed object of the service. *)
Lemma analyze_scores item apiKey response a :
  Analyzer.analyzeCrawledItem JSON_parse ToNumber item apiKey response = Ok a ->
  a = Analyzer.analyzePayloadDefaults (Items.title item)
  \/ exists parsed,
      Analyzer.impactScore a
      = Analyzer.normalizeScore ToNumber (Analyzer.prop parsed "impactScore")
      /\ Analyzer.likelihoodScore a
         = Analyzer.normalizeScore ToNumber (Analyzer.prop parsed "likelihoodScore")
      /\ Analyzer.confidenceScore a
         = Analyzer.normalizeScore ToNumber (Analyzer.prop parsed "confidenceScore")
      /\ Analyzer.chiliScore a
         = Analyzer.normalizeScore ToNumber (Analyzer.prop parsed "chiliScore").
Proof.
  unfold Analyzer.analyzeCrawledItem.
  destruct (negb match apiKey with Some k => truthy k | None => false end).
  { intro H. inversion H. left. reflexivity. }
  destruct response as [reason|st stt body|reason|payload]; try discriminate.
  destruct (negb (truthy (Analyzer.extractTextFromModelResponse payload)));
    [discriminate|].
  destruct (Analyzer.parseResponseJson JSON_parse
              (Analyzer.extractTextFromModelResponse payload)) as [parsed|];
    [|discriminate].
  destruct (negb (Analyzer.truthy_value parsed)); [discriminate|].
  intro H. inversion H. right. exists parsed. repeat split.
Qed.

End ClassifierTheorems.

Section ScoreTheorems.
Import JS.
Import Props.

(** C6, as it is stated, fails on a raw score that is a number out of
    range without being finite: Infinity (the JSON number 1e999) is
    above 5, and its score is 1, not the nearest bound 5. *)
Lemma infinite_score_is_not_clamped :
  gt PosInf (of_Z 5) = true
  /\ Analyzer.normalizeScore Examples.example_ToNumber (Analyzer.JNumber PosInf)
     = of_Z 1
  /\ of_Z 1 <> of_Z 5.
Proof. split; [reflexivity|]. split; [reflexivity|discriminate]. Qed.

(** C6, amended.  Every score of an item the classifier returns is an
    integer from 1 to 5; it is the safe default 1, or it is computed
    from a raw value of the service, and then for every raw value: a
    value whose conversion to a number is NaN or infinite gives 1, and
    a finite one is rounded to the nearest integer, ties upwards, then
    clamped to the nearest of 1 and 5. *)
Theorem scores_are_integers_from_1_to_5 :
  forall (JSON_parse : string -> option Analyzer.jsvalue)
         (ToNumber : Analyzer.jsvalue -> number)
         (item : Items.CrawledItem) (apiKey : option string)
         (response : Analyzer.ServiceOutcome) (a : Analyzer.AnalyzedItem),
    Analyzer.analyzeCrawledItem JSON_parse ToNumber item apiKey response = Ok a ->
    (score_in_range (Analyzer.impactScore a)
     /\ score_in_range (Analyzer.likelihoodScore a)
     /\ score_in_range (Analyzer.confidenceScore a)
     /\ score_in_range (Analyzer.chiliScore a))
    /\ (forall v : Analyzer.jsvalue,
           score_in_range (Analyzer.normalizeScore ToNumber v)
           /\ match numeric_value ToNumber v with
              | Fin q => Analyzer.normalizeScore ToNumber v
                         = of_Z (clamp_score (Qfloor (q + (1 # 2))))
              | _ => Analyzer.normalizeScore ToNumber v = of_Z 1
              end).
Proof.
  intros JSON_parse ToNumber item apiKey response a H. split.
  - destruct (analyze_scores _ _ _ _ _ _ H) as [->|(parsed & -> & -> & -> & ->)].
    + repeat split; exists 1%Z; (split; [lia|reflexivity]).
    + repeat split; apply normalizeScore_in_range.
  - intro v. split; [apply normalizeScore_in_range|].
    destruct (numeric_value ToNumber v) as [ | | |q] eqn:E.
    1-3: apply normalizeScore_not_finite; rewrite E; reflexivity.
    apply normalizeScore_finite. exact E.
Qed.

(** An answer of the service with the scores 7.6, 9, the string high
    and 2.5: the item carries 5, 5, 1 and 3. *)
Lemma scores_witness :
  Analyzer.analyzeCrawledItem Examples.example_JSON_parse Examples.example_ToNumber
    Examples.example_item (Some "secret") (Analyzer.ResponseJson Examples.example_payload)
  = Ok {| Analyzer.isRelevant := true;
          Analyzer.jurisdiction := "California, United States";
          Analyzer.stage := Db.introduced;
          Analyzer.ageBracket := Db.bracket_13_15;
          Analyzer.affectedMetaProducts := ["Meta Family of Products"];
          Analyzer.summary := Examples.example_summary;
          Analyzer.businessImpact := "Moderate product updates needed.";
          Analyzer.requiredSolutions := [];
          Analyzer.competitorResponses := [];
          Analyzer.impactScore := of_Z 5;
          Analyzer.likelihoodScore := of_Z 5;
          Analyzer.confidenceScore := of_Z 1;
          Analyzer.chiliScore := of_Z 3 |}
  /\ score_in_range (of_Z 5)
  /\ score_in_range (of_Z 5)
  /\ score_in_range (of_Z 1)
  /\ score_in_range (of_Z 3).
Proof.
  assert (H : Analyzer.analyzeCrawledItem Examples.example_JSON_parse
                Examples.example_ToNumber Examples.example_item (Some "secret")
                (Analyzer.ResponseJson Examples.example_payload)
              = Ok {| Analyzer.isRelevant := true;
                      Analyzer.jurisdiction := "California, United States";
                      Analyzer.stage := Db.introduced;
                      Analyzer.ageBracket := Db.bracket_13_15;
                      Analyzer.affectedMetaProducts := ["Meta Family of Products"];
                      Analyzer.summary := Examples.example_summary;
                      Analyzer.businessImpact := "Moderate product updates needed.";
                      Analyzer.requiredSolutions := [];
                      Analyzer.competitorResponses := [];
                      Analyzer.impactScore := of_Z 5;
                      Analyzer.likelihoodScore := of_Z 5;
                      Analyzer.confidenceScore := of_Z 1;
                      Analyzer.chiliScore := of_Z 3 |}).
  { vm_compute. reflexivity. }
  split; [exact H|].
  exact (proj1 (scores_are_integers_from_1_to_5 _ _ _ _ _ _ H)).
Defined.

End ScoreTheorems.

(* ================================================================= *)
(** * The pass *)

Section PassFacts.
Import JS.
Import Db.
Import Props.
Import Ingest.
Local Open Scope list_scope.

(** The upsert engine never writes to [crawl_runs]. *)
Lemma upsert_ledger_frame now event db res db' :
  upsertRegulationEvent now event db = (res, db') ->
  crawl_runs db' = crawl_runs db
  /\ crawl_runs_seq db' = crawl_runs_seq db
  /\ crawl_runs_log db' = crawl_runs_log db.
Proof.
  intro H.
  destruct (upsertSource now (candidate_source now event) db) as [[sid|e] db1] eqn:Hsrc.
  2:{ rewrite (upsert_source_refused _ _ _ _ _ Hsrc) in H. inversion H; subst.
      apply (upsertSource_frame _ _ _ _ _ Hsrc). }
  destruct (upsertSource_frame _ _ _ _ _ Hsrc) as (Hev & _ & _ & Hr & Hs & Hl).
  destruct (select_existing (candidate_country event) (candidate_state event)
              (title event) (regulation_events db)) as [r|] eqn:Hsel.
  - rewrite (upsert_found _ _ _ _ _ _ Hsrc Hsel) in H. cbv zeta in H.
    destruct (hasChanges r (normalize event)); cbn [negb] in H;
      [destruct (negb (Stage_beq (ev_stage r) (stage (normalize event))))|];
      unfold bind, update_event, insert_status_change, modify, ret in H;
      inversion H; subst; repeat split; assumption.
  - rewrite (upsert_not_found _ _ _ _ _ Hsrc Hsel) in H. unfold bind in H.
    destruct (insert_event _ db1) as [[u|e] db2] eqn:Hins.
    + destruct (insert_event_cases _ _ _ _ Hins) as [(_ & -> & _)|[[e He] _]];
        [|discriminate].
      unfold ret in H. inversion H; subst. repeat split; assumption.
    + destruct (insert_event_cases _ _ _ _ Hins) as [(He & _)|[_ ->]]; [discriminate|].
      inversion H; subst. repeat split; assumption.
Qed.

Variable env : Environment.

Lemma same_ledger_refl p : same_ledger p p.
Proof. repeat split. Qed.

Lemma same_ledger_trans p q r :
  same_ledger p q -> same_ledger q r -> same_ledger p r.
Proof.
  intros (A1 & A2 & A3) (B1 & B2 & B3).
  repeat split; etransitivity; eassumption.
Qed.

(** [upsertAnalysedItem] touches neither the locals of the pass, nor
    the recorded outcomes, nor the ledger. *)
Lemma upsertAnalysedItem_frame item analysis p res p' :
  upsertAnalysedItem env item analysis p = (res, p') ->
  snd p' = snd p
  /\ outcomes (fst p') = outcomes (fst p)
  /\ same_ledger p p'.
Proof.
  destruct p as [w l]. unfold upsertAnalysedItem.
  destruct (negb (Analyzer.isRelevant analysis)).
  { intro H. inversion H; subst. repeat split. }
  destruct (isLowQualityAnalysis item analysis).
  { intro H. inversion H; subst. repeat split. }
  unfold bind at 1. unfold Date_now at 1. unfold bind at 1. unfold on_store at 1.
  cbn [store ticks outcomes].
  match goal with
  | |- context [upsertRegulationEvent ?n ?ev ?d] =>
      destruct (upsertRegulationEvent n ev d) as [[r|err] db'] eqn:E
  end;
    intro H; unfold ret in H; inversion H; subst;
    destruct (upsert_ledger_frame _ _ _ _ _ E) as (A & B & C);
    repeat split; assumption.
Qed.

(** One settled result is always written without a throw: it adds one
    outcome, counts it, and leaves the ledger alone. *)
Lemma write_result_spec result p :
  exists o p',
    write_result env result p = (Ok tt, p')
    /\ outcomes (fst p') = outcomes (fst p) ++ [o]
    /\ counted o (snd p) (snd p')
    /\ same_ledger p p'
    /\ (forall e, result = Rejected e ->
        o = item_ignored /\ store (fst p') = store (fst p)).
Proof.
  destruct p as [w l]. unfold write_result.
  destruct result as [[item analysis]|reason].
  2:{ exists item_ignored. eexists. split; [reflexivity|].
      cbn. unfold counted, tally. cbn. repeat split; try lia. }
  unfold bind at 1. unfold set_locals at 1, modify at 1. cbn [fst snd].
  unfold bind at 1. unfold locals at 1, gets at 1. cbn [fst snd].
  cbn [seenDeduplicationKeys add_counts].
  destruct (mem (buildDeduplicationKey item analysis) (seenDeduplicationKeys l)).
  { exists item_ignored. eexists. split; [reflexivity|].
    cbn. unfold counted, tally. cbn. repeat split; try lia; discriminate. }
  unfold bind at 1. unfold set_locals at 1, modify at 1. cbn [fst snd].
  unfold try_catch. unfold bind at 1.
  match goal with
  | |- context [upsertAnalysedItem env item analysis ?q] =>
      destruct (upsertAnalysedItem env item analysis q) as [[st|e] p1] eqn:E;
      destruct (upsertAnalysedItem_frame _ _ _ _ _ E) as (Hl & Ho & Hled);
      destruct p1 as [w1 l1]; cbn [fst snd] in Hl, Ho; subst l1
  end.
  - exists st. destruct st; eexists; (split; [reflexivity|]);
      cbn; rewrite Ho; unfold counted, tally; cbn;
      (split; [reflexivity|]); (split; [repeat split; lia|]);
      (split; [exact Hled|discriminate]).
  - exists item_ignored. eexists. split; [reflexivity|].
    cbn. rewrite Ho. unfold counted, tally. cbn.
    split; [reflexivity|]. split; [repeat split; lia|].
    split; [exact Hled|discriminate].
Qed.

Lemma tally_app kind a b : tally kind (a ++ b) = (tally kind a + tally kind b)%Z.
Proof. unfold tally. rewrite filter_app, length_app. lia. Qed.

Lemma tally_nonneg kind l : (0 <= tally kind l)%Z.
Proof. unfold tally. lia. Qed.

(** Every outcome is of exactly one kind. *)
Lemma tally_partition l :
  (tally is_created l + tally is_updated l + tally is_status_changed l
   + tally is_ignored l + tally is_unchanged l)%Z = Z.of_nat (List.length l).
Proof.
  induction l as [|o l IH]; [reflexivity|].
  cbn [List.length]. rewrite Nat2Z.inj_succ, <- IH.
  unfold tally. destruct o; cbn [filter is_created is_updated is_status_changed
                                   is_ignored is_unchanged List.length];
    rewrite ?Nat2Z.inj_succ; lia.
Qed.

Lemma advanced_refl p : advanced [] p p.
Proof.
  unfold advanced, tally. cbn. rewrite app_nil_r.
  repeat split; lia.
Qed.

Lemma advanced_trans a b p q r :
  advanced a p q -> advanced b q r -> advanced (a ++ b) p r.
Proof.
  intros (A1 & A2 & A3 & A4 & A5 & A6 & A7 & A8 & A9 & A11)
         (B1 & B2 & B3 & B4 & B5 & B6 & B7 & B8 & B9 & B11).
  unfold advanced. rewrite !tally_app, length_app, Nat2Z.inj_add.
  rewrite B1, A1, app_assoc.
  repeat split; try lia; try congruence.
  - destruct A11 as (X & _), B11 as (Y & _). congruence.
  - destruct A11 as (_ & X & _), B11 as (_ & Y & _). congruence.
  - destruct A11 as (_ & _ & X), B11 as (_ & _ & Y). congruence.
Qed.

Lemma write_results_advance results p :
  exists new p',
    for_each (write_result env) results p = (Ok tt, p')
    /\ advanced new p p'
    /\ List.length new = List.length results.
Proof.
  revert p. induction results as [|x results IH]; intro p.
  - exists [], p. split; [reflexivity|]. split; [apply advanced_refl|reflexivity].
  - destruct (write_result_spec x p) as (o & p1 & H1 & Ho & Hc & Hl & _).
    destruct (IH p1) as (new & p2 & H2 & Ha & Hn).
    exists ([o] ++ new), p2. split; [|split].
    + cbn [for_each]. unfold bind. rewrite H1. exact H2.
    + apply (advanced_trans [o] new p p1 p2); [|exact Ha].
      destruct Hc as (C1 & C2 & C3 & C4 & C5 & C6 & C7 & C8).
      unfold advanced. cbn [List.length]. repeat split; try assumption; apply Hl.
    + cbn [List.length app]. rewrite Hn. reflexivity.
Qed.

Lemma process_batches_advance (bs : list (list Items.CrawledItem)) p :
  exists new p',
    for_each (process_batch env) bs p = (Ok tt, p')
    /\ advanced new p p'
    /\ List.length new = List.length (List.concat bs).
Proof.
  revert p. induction bs as [|b bs IH]; intro p.
  - exists [], p. split; [reflexivity|]. split; [apply advanced_refl|reflexivity].
  - destruct (write_results_advance (map (analyse env) b) p) as (n1 & p1 & H1 & A1 & L1).
    destruct (IH p1) as (n2 & p2 & H2 & A2 & L2).
    exists (n1 ++ n2), p2. split; [|split].
    + cbn [for_each]. unfold bind. unfold process_batch at 1. rewrite H1. exact H2.
    + exact (advanced_trans n1 n2 p p1 p2 A1 A2).
    + cbn [List.concat]. rewrite !length_app, L1, L2, length_map. reflexivity.
Qed.

Lemma find_existsb (A : Type) (f : A -> bool) (l : list A) :
  existsb f l = match find f l with Some _ => true | None => false end.
Proof.
  induction l as [|x l IH]; [reflexivity|]. simpl. destruct (f x); [reflexivity|exact IH].
Qed.

(** The loop over the source results counts the failures it is
    reported and moves nothing else. *)
Lemma count_sources_spec selected results (w : World) (l : Locals) :
  exists l',
    for_each (count_source selected) results (w, l) = (Ok tt, (w, l'))
    /\ sourcesFailed l'
       = (sourcesFailed l
          + Z.of_nat (List.length (filter (reports_failure selected) results)))%Z
    /\ itemsDiscovered l' = itemsDiscovered l
    /\ eventsCreated l' = eventsCreated l
    /\ eventsUpdated l' = eventsUpdated l
    /\ eventsStatusChanged l' = eventsStatusChanged l
    /\ eventsIgnored l' = eventsIgnored l
    /\ seenDeduplicationKeys l' = seenDeduplicationKeys l.
Proof.
  revert l. induction results as [|x results IH]; intro l.
  - exists l. split; [reflexivity|]. cbn. repeat split; lia.
  - cbn [for_each filter]. unfold bind. unfold count_source at 1.
    unfold reports_failure at 1. rewrite find_existsb.
    destruct (find (fun entry => String.eqb (Sources.id entry) (Items.sourceId x))
                   selected) as [source|].
    + assert (Hstep : forall l1 : Locals,
                 itemsDiscovered l1 = itemsDiscovered l ->
                 eventsCreated l1 = eventsCreated l ->
                 eventsUpdated l1 = eventsUpdated l ->
                 eventsStatusChanged l1 = eventsStatusChanged l ->
                 eventsIgnored l1 = eventsIgnored l ->
                 seenDeduplicationKeys l1 = seenDeduplicationKeys l ->
                 exists l',
                     for_each (count_source selected) results (w, l1) = (Ok tt, (w, l'))
                     /\ sourcesFailed l'
                        = (sourcesFailed l1
                           + Z.of_nat (List.length (filter (reports_failure selected) results)))%Z
                     /\ itemsDiscovered l' = itemsDiscovered l
                     /\ eventsCreated l' = eventsCreated l
                     /\ eventsUpdated l' = eventsUpdated l
                     /\ eventsStatusChanged l' = eventsStatusChanged l
                     /\ eventsIgnored l' = eventsIgnored l
                     /\ seenDeduplicationKeys l' = seenDeduplicationKeys l).
      { intros l1 E1 E2 E3 E4 E5 E6.
        destruct (IH l1) as (l' & H & F & R1 & R2 & R3 & R4 & R5 & R6).
        exists l'. split; [exact H|]. split; [exact F|].
        repeat split; congruence. }
      destruct (Items.error x) as [message|]; [destruct (truthy message)|];
        cbn [andb]; unfold set_locals, modify; cbn [fst snd].
      * destruct (Hstep (source_failed (Sources.id source) message l)
                        eq_refl eq_refl eq_refl eq_refl eq_refl eq_refl)
          as (l' & H & F & R).
        exists l'. split; [exact H|]. split; [|exact R].
        rewrite F. cbn [sourcesFailed source_failed List.length].
        rewrite Nat2Z.inj_succ. lia.
      * destruct (Hstep (source_succeeded l)
                        eq_refl eq_refl eq_refl eq_refl eq_refl eq_refl)
          as (l' & H & F & R).
        exists l'. split; [exact H|]. split; [|exact R].
        rewrite F. reflexivity.
      * destruct (Hstep (source_succeeded l)
                        eq_refl eq_refl eq_refl eq_refl eq_refl eq_refl)
          as (l' & H & F & R).
        exists l'. split; [exact H|]. split; [|exact R].
        rewrite F. reflexivity.
    + cbn [andb]. unfold ret. destruct (IH l) as (l' & H & F & R).
      exists l'. split; [exact H|]. split; [exact F|exact R].
Qed.

Lemma failures_positive selected crawl :
  (0 <? 0 + Z.of_nat (List.length (filter (reports_failure selected)
                                          (Items.sourceResults crawl))))%Z
  = some_source_failed selected crawl.
Proof.
  unfold some_source_failed.
  induction (Items.sourceResults crawl) as [|x l IH]; [reflexivity|].
  cbn [filter existsb]. destruct (reports_failure selected x).
  - cbn [List.length orb]. rewrite Nat2Z.inj_succ. apply Z.ltb_lt. lia.
  - cbn [orb]. exact IH.
Qed.

Lemma fold_max_ge (ids : list Z) (seq : Z) :
  (seq <= fold_left Z.max ids seq)%Z
  /\ forall x, In x ids -> (x <= fold_left Z.max ids seq)%Z.
Proof.
  revert seq. induction ids as [|y ids IH]; intro seq; cbn [fold_left].
  - split; [lia|intros x []].
  - destruct (IH (Z.max seq y)) as [H1 H2]. split; [lia|].
    intros x [->|Hx]; [lia|apply H2; exact Hx].
Qed.

(** The id of a new run is the id of no run of the table. *)
Lemma next_rowid_fresh seq ids : ~ In (next_rowid seq ids) ids.
Proof.
  intro H. destruct (fold_max_ge ids seq) as [_ Hge].
  specialize (Hge _ H). unfold next_rowid in Hge. lia.
Qed.

(** Finalizing a run that has just been appended rewrites that row only. *)
Lemma finalize_appended now values runs r0 :
  ~ In (run_id r0) (map run_id runs) ->
  map (fun r => if (run_id r =? run_id r0)%Z then finalize_row now values r else r)
      (runs ++ [r0])
  = runs ++ [finalize_row now values r0].
Proof.
  intro Hfresh. rewrite map_app. cbn [map]. rewrite Z.eqb_refl. f_equal.
  induction runs as [|x runs IH]; [reflexivity|]. cbn [map].
  destruct (Z.eqb_spec (run_id x) (run_id r0)) as [E|E].
  - exfalso. apply Hfresh. left. exact E.
  - f_equal. apply IH. intro H. apply Hfresh. right. exact H.
Qed.

(** The [catch] block finalizes the run as failed and throws. *)
Lemma pass_failed_spec runId e (w : World) (l : Locals) :
  pass_failed env runId e (w, l)
  = (Throw (if instanceof_Error e then e else Error "Unknown ingestion failure"),
     (with_store
        (snd (finalizeCrawlRun (clock env (S (ticks w))) runId
                (finalize_values crawl_failed 0 l) (store w)))
        (tick 2 w), l)).
Proof.
  unfold pass_failed, bind, Date_now, locals, gets, on_store, finalizeCrawlRun, modify,
    throw.
  cbn [fst snd store ticks outcomes]. destruct (instanceof_Error e); reflexivity.
Qed.

(** The [try] block, when the crawl returns: it never throws, it
    records and counts one outcome per item written, and it ends by
    finalizing the run. *)
Lemma pass_body_spec selected runId startedAt (w : World) crawl :
  crawlSources env selected = Ok crawl ->
  exists new (w1 : World) (l1 : Locals) s now st,
    pass_body env selected runId startedAt (w, initial_locals)
    = (Ok s, (with_store
                (snd (finalizeCrawlRun now runId
                        (finalize_values st
                           (Z.of_nat (List.length (Items.sourceResults crawl))) l1)
                        (store w1)))
                (tick 2 w1), l1))
    /\ st = status s
    /\ outcomes w1 = outcomes w ++ new
    /\ same_ledger (w, initial_locals) (w1, l1)
    /\ itemsDiscovered l1 = Z.of_nat (List.length new)
    /\ eventsCreated l1 = tally is_created new
    /\ eventsUpdated l1 = tally is_updated new
    /\ eventsStatusChanged l1 = tally is_status_changed new
    /\ eventsIgnored l1 = tally is_ignored new
    /\ Ingest.runId s = runId
    /\ status s = (if some_source_failed selected crawl
                   then crawl_partial else crawl_completed)
    /\ sum_itemsDiscovered s = itemsDiscovered l1
    /\ sum_eventsCreated s = eventsCreated l1
    /\ sum_eventsUpdated s = eventsUpdated l1
    /\ sum_eventsStatusChanged s = eventsStatusChanged l1
    /\ sum_eventsIgnored s = eventsIgnored l1.
Proof.
  intro Hcrawl. unfold pass_body. unfold bind at 1. rewrite Hcrawl.
  destruct (count_sources_spec selected (Items.sourceResults crawl) w initial_locals)
    as (l0 & H0 & Hf & C1 & C2 & C3 & C4 & C5 & C6).
  unfold bind at 1. rewrite H0.
  destruct (process_batches_advance
              (batches (BATCH_SIZE env) (Items.items crawl)) (w, l0))
    as (new & [w1 l1] & H1 & Hadv & _).
  unfold bind at 1. rewrite H1.
  exists new, w1, l1. eexists. eexists. eexists. split.
  - unfold bind, locals, gets, Date_now, on_store, finalizeCrawlRun, modify, ret.
    cbn [fst snd store ticks outcomes]. reflexivity.
  - split; [reflexivity|]. destruct Hadv as (A1 & A2 & A3 & A4 & A5 & A6 & A7 & A8 & A9 & A10).
    cbn [fst snd] in *.
    split; [exact A1|]. split; [exact A10|].
    rewrite A2, A3, A4, A5, A6, C1, C2, C3, C4, C5.
    cbn [itemsDiscovered eventsCreated eventsUpdated eventsStatusChanged
         eventsIgnored initial_locals].
    do 5 (split; [reflexivity|]).
    cbn [Ingest.runId status sum_itemsDiscovered sum_eventsCreated sum_eventsUpdated
         sum_eventsStatusChanged sum_eventsIgnored].
    split; [reflexivity|]. split; [|repeat split].
    rewrite A8, Hf. cbn [sourcesFailed initial_locals].
    rewrite failures_positive. reflexivity.
Qed.

Lemma pass_body_throw selected runId startedAt (p : Pass) e :
  crawlSources env selected = Throw e ->
  pass_body env selected runId startedAt p = (Throw e, p).
Proof. intro H. unfold pass_body, bind. rewrite H. reflexivity. Qed.

(** A whole pass, from the creation of its run to its finalization. *)
Lemma run_pass_spec options (w : World) :
  exists res p' new run,
    run_pass env options (w, initial_locals) = (res, p')
    /\ run_id run = next_rowid (crawl_runs_seq (store w))
                               (map run_id (crawl_runs (store w)))
    /\ crawl_runs (store (fst p')) = crawl_runs (store w) ++ [run]
    /\ crawl_runs_log (store (fst p'))
       = crawl_runs_log (store w)
         ++ [InsertRun (run_id run); UpdateRun (run_id run) (run_status run)]
    /\ (exists t, run_finished_at run = Some t)
    /\ outcomes (fst p') = outcomes w ++ new
    /\ match crawlSources env (selectSources env options) with
       | Throw e =>
           res = Throw (if instanceof_Error e then e
                        else Error "Unknown ingestion failure")
           /\ run_status run = failed
       | Ok crawl =>
           exists s,
             res = Ok s
             /\ runId s = run_id run
             /\ status s = (if some_source_failed (selectSources env options) crawl
                            then crawl_partial else crawl_completed)
             /\ run_status run = run_status_of (status s)
             /\ sum_itemsDiscovered s = Z.of_nat (List.length new)
             /\ sum_eventsCreated s = tally is_created new
             /\ sum_eventsUpdated s = tally is_updated new
             /\ sum_eventsStatusChanged s = tally is_status_changed new
             /\ sum_eventsIgnored s = tally is_ignored new
       end.
Proof.
  set (id := next_rowid (crawl_runs_seq (store w)) (map run_id (crawl_runs (store w)))).
  set (r0 := started_run id (clock env (ticks w))).
  set (db1 := with_crawl_runs (store w) (crawl_runs (store w) ++ [r0]) id
                (crawl_runs_log (store w) ++ [InsertRun id])).
  set (w2 := {| store := db1; ticks := S (S (ticks w)); outcomes := outcomes w |}).
  assert (Hstart :
            run_pass env options (w, initial_locals)
            = try_catch
                (pass_body env (selectSources env options) id
                           (clock env (S (ticks w))))
                (pass_failed env id) (w2, initial_locals)).
  { reflexivity. }
  assert (Hfresh : ~ In (run_id r0) (map run_id (crawl_runs (store w)))).
  { apply next_rowid_fresh. }
  rewrite Hstart. unfold try_catch.
  destruct (crawlSources env (selectSources env options)) as [crawl|e] eqn:Hcrawl.
  - destruct (pass_body_spec (selectSources env options) id
                (clock env (S (ticks w))) w2 crawl Hcrawl)
      as (new & w1 & l1 & s & now & st & H & Hst & Hout & (L1 & L2 & L3)
          & N & C1 & C2 & C3 & C4 & Hid & Hstatus & S1 & S2 & S3 & S4 & S5).
    rewrite H. cbn [fst snd] in L1, L2, L3.
    exists (Ok s). eexists. exists new.
    exists (finalize_row now
              (finalize_values st
                 (Z.of_nat (List.length (Items.sourceResults crawl))) l1) r0).
    split; [reflexivity|].
    cbn [fst snd store with_store finalizeCrawlRun modify crawl_runs crawl_runs_log
         with_crawl_runs outcomes tick run_id finalize_row run_status
         run_finished_at fv_status finalize_values started_run r0].
    rewrite L1, L3.
    split; [reflexivity|]. split; [apply (finalize_appended now _ _ r0 Hfresh)|].
    split.
    { cbn [crawl_runs_log db1 w2 store with_crawl_runs]. rewrite <- app_assoc.
      reflexivity. }
    split; [eauto|]. split; [exact Hout|].
    exists s. rewrite Hst. repeat split; try assumption; congruence.
  - rewrite (pass_body_throw _ _ _ _ e Hcrawl), pass_failed_spec.
    eexists. eexists. exists [].
    exists (finalize_row (clock env (S (ticks w2)))
              (finalize_values crawl_failed 0 initial_locals) r0).
    split; [reflexivity|].
    cbn [fst snd store with_store finalizeCrawlRun modify crawl_runs crawl_runs_log
         with_crawl_runs outcomes tick run_id finalize_row run_status
         run_finished_at fv_status finalize_values started_run r0 w2 db1
         run_status_of].
    split; [reflexivity|]. split; [apply (finalize_appended _ _ _ r0 Hfresh)|].
    split; [rewrite <- app_assoc; reflexivity|].
    split; [eauto|]. split; [rewrite app_nil_r; reflexivity|].
    split; reflexivity.
Qed.

End PassFacts.

Section PassTheorems.
Import JS.
Import Db.
Import Props.
Import Ingest.
Local Open Scope list_scope.

Lemma runIngestionPipeline_run_pass env options (w : World) :
  runIngestionPipeline env options w
  = (fst (run_pass env options (w, initial_locals)),
     fst (snd (run_pass env options (w, initial_locals)))).
Proof.
  unfold runIngestionPipeline.
  destruct (run_pass env options (w, initial_locals)) as [r p]. reflexivity.
Qed.

(** C5.  A pass first inserts its run, in the running state, under an
    id no run of the ledger has.  When the pass is over the ledger is
    what it was with that one run appended, and the statements run
    against the ledger are the insert and a single update of that run:
    the run is finalized exactly once.  The finalized run has a
    finished_at; its status is failed when the crawl step threw, and
    then the pass throws (the error caught when it is an Error, an
    Error saying Unknown ingestion failure otherwise); it is partial
    when a source result of the crawl reports a failure, completed
    when none does, and then the pass returns a summary of that run and
    status.  The runs the ledger already held are left as they were,
    and the statement that finalizes never writes the running state. *)
Theorem crawl_run_is_finalized_exactly_once :
  forall (env : Environment) (options : Options) (w : World),
  exists run : CrawlRunRow,
    createCrawlRun (clock env (ticks w)) (store w)
    = (Ok (run_id run),
       with_crawl_runs (store w)
         (crawl_runs (store w) ++ [started_run (run_id run) (clock env (ticks w))])
         (run_id run)
         (crawl_runs_log (store w) ++ [InsertRun (run_id run)]))
    /\ ~ In (run_id run) (map run_id (crawl_runs (store w)))
    /\ crawl_runs (store (snd (runIngestionPipeline env options w)))
       = crawl_runs (store w) ++ [run]
    /\ crawl_runs_log (store (snd (runIngestionPipeline env options w)))
       = crawl_runs_log (store w)
         ++ [InsertRun (run_id run); UpdateRun (run_id run) (run_status run)]
    /\ run_finished_at run <> None
    /\ run_status run <> running
    /\ match crawlSources env (selectSources env options) with
       | Throw e =>
           run_status run = failed
           /\ fst (runIngestionPipeline env options w)
              = Throw (if instanceof_Error e then e
                       else Error "Unknown ingestion failure")
       | Ok crawl =>
           run_status run
           = (if some_source_failed (selectSources env options) crawl
              then partial else completed)
           /\ exists s,
               fst (runIngestionPipeline env options w) = Ok s
               /\ runId s = run_id run
               /\ run_status_of (status s) = run_status run
       end
    /\ (forall now id values db r,
           In r (crawl_runs (snd (finalizeCrawlRun now id values db))) ->
           In r (crawl_runs db) \/ (run_status r <> running /\ run_finished_at r <> None)).
Proof.
  intros env options w.
  destruct (run_pass_spec env options w)
    as (res & p' & new & run & H & Hid & Hruns & Hlog & [t Ht] & _ & Hcase).
  exists run. rewrite runIngestionPipeline_run_pass, H. cbn [fst snd].
  split; [unfold createCrawlRun; rewrite Hid; reflexivity|].
  split; [rewrite Hid; apply next_rowid_fresh|].
  split; [exact Hruns|]. split; [exact Hlog|].
  split; [rewrite Ht; discriminate|].
  assert (Hrunning : run_status run <> running).
  { destruct (crawlSources env (selectSources env options)) as [crawl|e].
    - destruct Hcase as (s & _ & _ & _ & -> & _). destruct (status s); discriminate.
    - destruct Hcase as [_ ->]. discriminate. }
  split; [exact Hrunning|]. split.
  - destruct (crawlSources env (selectSources env options)) as [crawl|e].
    + destruct Hcase as (s & -> & Hs & Hst & Hrs & _). split.
      * rewrite Hrs, Hst.
        destruct (some_source_failed (selectSources env options) crawl); reflexivity.
      * exists s. split; [reflexivity|]. split; [exact Hs|]. symmetry. exact Hrs.
    + destruct Hcase as [-> Hf]. split; [exact Hf|reflexivity].
  - intros now id values db r Hin.
    unfold finalizeCrawlRun, modify in Hin. cbn [snd crawl_runs with_crawl_runs] in Hin.
    apply in_map_iff in Hin as (x & Hx & Hin).
    destruct (run_id x =? id)%Z.
    + right. subst r. cbn [finalize_row run_status run_finished_at].
      split; [destruct (fv_status values)|]; discriminate.
    + left. subst r. exact Hin.
Qed.

(** C10.  One settled result written is one more item discovered and
    one more outcome, counted in the counter of its kind, if it has
    one.  So in the summary a pass returns, each of the four event
    counters is the number of outcomes of its kind, the items
    discovered are the outcomes, and the items discovered exceed the
    sum of the four counters by the number of unchanged outcomes. *)
Theorem counters_account_for_every_item :
  forall (env : Environment) (options : Options) (w : World),
    (forall result p,
        exists o p',
          write_result env result p = (Ok tt, p')
          /\ outcomes (fst p') = outcomes (fst p) ++ [o]
          /\ counted o (snd p) (snd p'))
    /\ match runIngestionPipeline env options w with
       | (Ok s, w') =>
           exists new,
             outcomes w' = outcomes w ++ new
             /\ sum_itemsDiscovered s = Z.of_nat (List.length new)
             /\ sum_eventsCreated s = tally is_created new
             /\ sum_eventsUpdated s = tally is_updated new
             /\ sum_eventsStatusChanged s = tally is_status_changed new
             /\ sum_eventsIgnored s = tally is_ignored new
             /\ (sum_itemsDiscovered s
                 = sum_eventsCreated s + sum_eventsUpdated s
                   + sum_eventsStatusChanged s + sum_eventsIgnored s
                   + tally is_unchanged new)%Z
             /\ (sum_eventsCreated s + sum_eventsUpdated s
                 + sum_eventsStatusChanged s + sum_eventsIgnored s
                 <= sum_itemsDiscovered s)%Z
       | (Throw _, _) => True
       end.
Proof.
  intros env options w. split.
  - intros result p.
    destruct (write_result_spec env result p) as (o & p' & H & Ho & Hc & _).
    exists o, p'. split; [exact H|]. split; [exact Ho|exact Hc].
  - destruct (run_pass_spec env options w)
      as (res & p' & new & run & H & _ & _ & _ & _ & Hout & Hcase).
    rewrite runIngestionPipeline_run_pass, H. cbn [fst snd].
    destruct (crawlSources env (selectSources env options)) as [crawl|e].
    + destruct Hcase as (s & -> & _ & _ & _ & N & C1 & C2 & C3 & C4).
      exists new. split; [exact Hout|].
      pose proof (tally_partition new) as Hp.
      pose proof (tally_nonneg is_unchanged new) as Hu.
      rewrite N, C1, C2, C3, C4. repeat split; lia.
    + destruct Hcase as [-> _]. exact I.
Qed.

(** C4, as it is stated, fails when a credential is configured and the
    service answers 401: the classifier throws instead of returning the
    safe default. *)
Lemma classifier_throws_on_401 :
  Analyzer.analyzeCrawledItem Examples.example_JSON_parse Examples.example_ToNumber
    Examples.example_item (Some "secret") Examples.example_401
  = Throw (Error "MiniMax API request failed with 401 Unauthorized: authentication_error")
  /\ Analyzer.analyzeCrawledItem Examples.example_JSON_parse Examples.example_ToNumber
       Examples.example_item (Some "secret") Examples.example_401
     <> Ok (Analyzer.analyzePayloadDefaults (Items.title Examples.example_item)).
Proof. split; [vm_compute; reflexivity|vm_compute; discriminate]. Qed.

(** C4, amended.  Without a credential the classifier returns the safe
    default, whatever the service would answer.  With a credential, a
    failed call makes the classifier throw; the pass takes the
    rejection: the item is counted as discovered and as ignored, the
    store is not written, and the loop goes on.  Whenever the crawl
    step returns, the pass returns its summary. *)
Theorem classification_failure_is_absorbed_by_the_pass :
  forall (env : Environment) (options : Options) (w : World)
         (crawl : Items.CrawlResult),
    crawlSources env (selectSources env options) = Ok crawl ->
    (forall item response,
        no_credential (MINIMAX_API_KEY env) ->
        Analyzer.analyzeCrawledItem (JSON_parse env) (ToNumber env) item
          (MINIMAX_API_KEY env) response
        = Ok (Analyzer.analyzePayloadDefaults (Items.title item)))
    /\ (forall item key response,
           truthy key = true ->
           service_failed (JSON_parse env) response = true ->
           exists e,
             Analyzer.analyzeCrawledItem (JSON_parse env) (ToNumber env) item
               (Some key) response = Throw e)
    /\ (forall e p,
           exists p',
             write_result env (Rejected e) p = (Ok tt, p')
             /\ store (fst p') = store (fst p)
             /\ outcomes (fst p') = outcomes (fst p) ++ [item_ignored]
             /\ itemsDiscovered (snd p') = (itemsDiscovered (snd p) + 1)%Z
             /\ eventsIgnored (snd p') = (eventsIgnored (snd p) + 1)%Z)
    /\ exists s, fst (runIngestionPipeline env options w) = Ok s.
Proof.
  intros env options w crawl Hcrawl.
  split; [intros item response Hk; apply analyze_without_credential; exact Hk|].
  split; [intros item key response Hk Hf; apply analyze_failure_throws; assumption|].
  split.
  - intros e p.
    destruct (write_result_spec env (Rejected e) p) as (o & p' & H & Ho & Hc & _ & Hr).
    destruct (Hr e eq_refl) as [-> Hs].
    exists p'. split; [exact H|]. split; [exact Hs|]. split; [exact Ho|].
    destruct Hc as (C1 & _ & _ & _ & C5 & _). split; [exact C1|exact C5].
  - destruct (run_pass_spec env options w)
      as (res & p' & new & run & H & _ & _ & _ & _ & _ & Hcase).
    rewrite runIngestionPipeline_run_pass, H, Hcrawl in *. cbn [fst].
    destruct Hcase as (s & -> & _). exists s. reflexivity.
Qed.

(** The pass over one item when the service answers 401. *)
Lemma classification_failure_witness :
  crawlSources (Examples.example_env Examples.example_401)
    (selectSources (Examples.example_env Examples.example_401) Examples.no_options)
  = Ok Examples.example_crawl
  /\ (exists e,
        Analyzer.analyzeCrawledItem Examples.example_JSON_parse
          Examples.example_ToNumber Examples.example_item (Some "secret")
          Examples.example_401 = Throw e)
  /\ exists s,
      fst (runIngestionPipeline (Examples.example_env Examples.example_401)
             Examples.no_options Examples.fresh_world) = Ok s.
Proof.
  assert (H : crawlSources (Examples.example_env Examples.example_401)
                (selectSources (Examples.example_env Examples.example_401)
                               Examples.no_options)
              = Ok Examples.example_crawl) by reflexivity.
  split; [exact H|].
  destruct (classification_failure_is_absorbed_by_the_pass
              (Examples.example_env Examples.example_401) Examples.no_options
              Examples.fresh_world Examples.example_crawl H)
    as (_ & Hthrow & _ & Hrun).
  split; [|exact Hrun].
  apply (Hthrow Examples.example_item "secret" Examples.example_401);
    vm_compute; reflexivity.
Defined.

(** The scenario of the 401: the source is not marked failed, the item
    is counted as ignored, the pass is completed. *)
Example pass_with_401 :
  fst (runIngestionPipeline (Examples.example_env Examples.example_401)
         Examples.no_options Examples.fresh_world)
  = Ok {| runId := 1;
          status := crawl_completed;
          startedAt := Examples.example_clock 1;
          finishedAt := Examples.example_clock 2;
          sourcesAttempted := 1;
          sum_sourcesSuccess := 1;
          sum_sourcesFailed := 0;
          sum_itemsDiscovered := 1;
          sum_eventsCreated := 0;
          sum_eventsUpdated := 0;
          sum_eventsStatusChanged := 0;
          sum_eventsIgnored := 1;
          sum_sourceErrors := [] |}.
Proof. vm_compute. reflexivity. Qed.

(** The same pass when the service answers: the item is created. *)
Example pass_with_answer :
  fst (runIngestionPipeline
         (Examples.example_env (Analyzer.ResponseJson Examples.example_payload))
         Examples.no_options Examples.fresh_world)
  = Ok {| runId := 1;
          status := crawl_completed;
          startedAt := Examples.example_clock 1;
          finishedAt := Examples.example_clock 3;
          sourcesAttempted := 1;
          sum_sourcesSuccess := 1;
          sum_sourcesFailed := 0;
          sum_itemsDiscovered := 1;
          sum_eventsCreated := 1;
          sum_eventsUpdated := 0;
          sum_eventsStatusChanged := 0;
          sum_eventsIgnored := 0;
          sum_sourceErrors := [] |}.
Proof. vm_compute. reflexivity. Qed.

Lemma thin_is_low_quality item analysis :
  thin_analysis item analysis -> isLowQualityAnalysis item analysis = true.
Proof.
  intros [Hshort|[Hshort|[(phrase & Hin & Hinc)|Hnone]]]; unfold isLowQualityAnalysis.
  - assert (H : (String.length (sanitizeText (Analyzer.summary analysis)) <? 60)%nat
                = true).
    { apply Nat.ltb_lt.
      pose proof (sanitizeText_length (Analyzer.summary analysis)). lia. }
    rewrite H, orb_true_r. reflexivity.
  - assert (H : (String.length (sanitizeText (Analyzer.summary analysis)) <? 60)%nat
                = true).
    { apply Nat.ltb_lt. exact Hshort. }
    rewrite H, orb_true_r. reflexivity.
  - destruct (negb (truthy (sanitizeText (Analyzer.summary analysis)))
              || (String.length (sanitizeText (Analyzer.summary analysis)) <? 60)%nat);
      [reflexivity|].
    rewrite test_boilerplate.
    assert (H : existsb
                  (fun w => includes
                              (toLowerCase (sanitizeText (Analyzer.summary analysis))) w)
                  boilerplatePhrases = true).
    { apply existsb_exists. exists phrase. split; assumption. }
    rewrite H. reflexivity.
  - destruct (negb (truthy (sanitizeText (Analyzer.summary analysis)))
              || (String.length (sanitizeText (Analyzer.summary analysis)) <? 60)%nat);
      [reflexivity|].
    destruct (test true boilerplate (sanitizeText (Analyzer.summary analysis)));
      [reflexivity|].
    rewrite test_regulatoryKeyword.
    assert (H : existsb
                  (fun w => includes (toLowerCase (gate_text item analysis)) w)
                  regulatoryKeywords = false).
    { destruct (existsb (fun w => includes (toLowerCase (gate_text item analysis)) w)
                        regulatoryKeywords) eqn:E; [|reflexivity].
      apply existsb_exists in E as (w & Hw & Hinc).
      rewrite (Hnone w Hw) in Hinc. discriminate. }
    unfold gate_text in H. rewrite H. reflexivity.
Qed.

(** C8.  An item whose analysis is too thin is not persisted, whatever
    the relevance verdict of the classifier: [upsertAnalysedItem]
    answers ignored and leaves the store, and the whole state of the
    pass, as it was. *)
Theorem thin_analysis_is_not_persisted :
  forall (env : Environment) (item : Items.CrawledItem)
         (analysis : Analyzer.AnalyzedItem) (p : Pass),
    thin_analysis item analysis ->
    upsertAnalysedItem env item analysis p = (Ok item_ignored, p)
    /\ regulation_events (store (fst (snd (upsertAnalysedItem env item analysis p))))
       = regulation_events (store (fst p)).
Proof.
  intros env item analysis p Hthin.
  assert (H : upsertAnalysedItem env item analysis p = (Ok item_ignored, p)).
  { unfold upsertAnalysedItem.
    destruct (negb (Analyzer.isRelevant analysis)); [reflexivity|].
    rewrite (thin_is_low_quality item analysis Hthin). reflexivity. }
  split; [exact H|]. rewrite H. reflexivity.
Qed.

(** A relevant analysis with a summary of 19 characters is ignored. *)
Lemma thin_analysis_witness :
  thin_analysis Examples.example_item Examples.thin_example
  /\ Analyzer.isRelevant Examples.thin_example = true
  /\ upsertAnalysedItem (Examples.example_env Examples.example_401)
       Examples.example_item Examples.thin_example
       (Examples.fresh_world, initial_locals)
     = (Ok item_ignored, (Examples.fresh_world, initial_locals)).
Proof.
  assert (H : thin_analysis Examples.example_item Examples.thin_example).
  { left. vm_compute. lia. }
  split; [exact H|]. split; [reflexivity|].
  exact (proj1 (thin_analysis_is_not_persisted
                  (Examples.example_env Examples.example_401)
                  Examples.example_item Examples.thin_example
                  (Examples.fresh_world, initial_locals) H)).
Defined.

End PassTheorems.

(* ================================================================= *)
(** * The feed parser *)

Section FeedFacts.
Import JS.
Import Props.
Local Open Scope list_scope.

Variable URL_resolve : string -> string -> option string.
Variable sourceUrl : string.

Lemma or_else_truthy_default a b : truthy b = true -> truthy (or_else a b) = true.
Proof. intro H. unfold or_else. destruct (truthy a) eqn:E; assumption. Qed.

(** The title of an entry is never empty: a missing or blank title is
    replaced by a placeholder. *)
Lemma entry_title_truthy entry : truthy (Crawler.entry_title entry) = true.
Proof.
  unfold Crawler.entry_title, Crawler.or_string.
  destruct (option_map trim (Crawler.parseTag entry "title")) as [t|];
    [apply or_else_truthy_default|]; reflexivity.
Qed.


Lemma firstn_exact (A : Type) (l more : list A) :
  firstn (List.length l) (l ++ more) = l.
Proof.
  induction l as [|x l IH]; cbn; [destruct more; reflexivity|]. rewrite IH. reflexivity.
Qed.

Lemma firstn_short (A : Type) n (l : list A) : List.length l <= n -> firstn n l = l.
Proof. apply firstn_all2. Qed.

(** The loop of [parseFeedText] computes the first occurrences, cut at
    five items. *)
Lemma feed_loop_refines entries :
  forall seen items,
    List.length items <= Crawler.MAX_ITEMS_PER_FEED ->
    Crawler.feed_loop URL_resolve sourceUrl entries seen items
    = firstn Crawler.MAX_ITEMS_PER_FEED
        (items ++ first_occurrences seen
                    (map (Crawler.entry_item URL_resolve sourceUrl) entries)).
Proof.
  induction entries as [|entry rest IH]; intros seen items Hlen.
  - cbn [Crawler.feed_loop map first_occurrences]. rewrite app_nil_r.
    symmetry. apply firstn_short. exact Hlen.
  - cbn [Crawler.feed_loop map first_occurrences].
    destruct (Nat.leb_spec Crawler.MAX_ITEMS_PER_FEED (List.length items)) as [Hfull|Hroom].
    + assert (E : List.length items = Crawler.MAX_ITEMS_PER_FEED) by lia.
      rewrite <- E. symmetry. apply firstn_exact.
    + rewrite entry_title_truthy. cbn [negb orb].
      change (Crawler.feed_dedupeKey (Crawler.entry_url URL_resolve sourceUrl entry)
                                     (Crawler.entry_title entry))
        with (item_key (Crawler.entry_item URL_resolve sourceUrl entry)).
      change (Crawler.entry_url URL_resolve sourceUrl entry)
        with (Items.ci_url (Crawler.entry_item URL_resolve sourceUrl entry)).
      destruct (negb (truthy (Items.ci_url (Crawler.entry_item URL_resolve sourceUrl entry)))
                || mem (item_key (Crawler.entry_item URL_resolve sourceUrl entry)) seen).
      * apply IH. exact Hlen.
      * rewrite IH by (rewrite length_app; cbn [List.length]; lia).
        rewrite <- app_assoc. reflexivity.
Qed.

Lemma mem_In k l : mem k l = true <-> In k l.
Proof.
  unfold mem. rewrite existsb_exists. split.
  - intros (x & Hx & E). apply String.eqb_eq in E. subst. exact Hx.
  - intro H. exists k. split; [exact H|apply String.eqb_refl].
Qed.






End FeedFacts.

Section FeedTheorems.
Import JS.
Import Props.
Local Open Scope list_scope.



(** The scenario of the duplicate: two items with the same link and
    title and two descriptions give one item, with the description of
    the first. *)
Example duplicate_entries_give_one_item :
  Crawler.parseFeedText Examples.no_resolution Examples.duplicate_feed
    "https://example.gov/feed"
  = [ {| Items.ci_title := "Duplicate rule";
         Items.ci_publishedAt := None;
         Items.ci_url := "https://example.gov/docs/dup";
         Items.ci_summary := "First instance";
         Items.ci_rawText := "Duplicate rule. First instance" |} ]
  /\ map item_key (Crawler.parseFeedText Examples.no_resolution Examples.duplicate_feed
                     "https://example.gov/feed")
     = ["https://example.gov/docs/dup::duplicate rule"].
Proof. split; vm_compute; reflexivity. Qed.

End FeedTheorems.

(* ================================================================= *)
(** * More on the store *)

Section StoreFacts.
Import JS.
Import Db.
Import DbRead.
Import Props.
Import Props2.
Local Open Scope list_scope.

Lemma find_map_stable (A : Type) (p : A -> bool) (f : A -> A) (l : list A) :
  (forall x, p (f x) = p x) -> find p (map f l) = option_map f (find p l).
Proof.
  intro H. induction l as [|x l IH]; [reflexivity|].
  cbn [map find]. rewrite H. destruct (p x); [reflexivity|exact IH].
Qed.

Lemma find_app_last (A : Type) (p : A -> bool) (l : list A) (x : A) :
  find p (l ++ [x])
  = match find p l with
    | Some y => Some y
    | None => if p x then Some x else None
    end.
Proof.
  induction l as [|y l IH]; cbn [app find]; [reflexivity|].
  destruct (p y); [reflexivity|exact IH].
Qed.

Lemma find_none_existsb (A : Type) (p : A -> bool) (l : list A) :
  existsb p l = false -> find p l = None.
Proof.
  induction l as [|x l IH]; [reflexivity|]. cbn [existsb find].
  destruct (p x); [discriminate|exact IH].
Qed.

Lemma find_some_existsb (A : Type) (p : A -> bool) (l : list A) :
  existsb p l = true -> exists x, find p l = Some x /\ p x = true.
Proof.
  induction l as [|x l IH]; [discriminate|]. cbn [existsb find].
  destruct (p x) eqn:E; [intros _; exists x; split; [reflexivity|exact E]|exact IH].
Qed.

(** What [upsertSource] does, case by case. *)
Lemma upsertSource_cases now source db :
  (exists e, upsertSource now source db = (Throw e, db)
             /\ (source_checks (si_reliabilityTier source) = false
                 \/ name_taken (sources db) (si_name source) (si_url source) = true))
  \/ (source_checks (si_reliabilityTier source) = true
      /\ name_taken (sources db) (si_name source) (si_url source) = false
      /\ exists old,
          find (has_url (si_url source)) (sources db) = Some old
          /\ upsertSource now source db
             = (Ok (src_id old),
                with_sources db
                  (map (fun r => if has_url (si_url source) r
                                 then refresh_source source (source_timestamp now source) r
                                 else r) (sources db))
                  (sources_seq db)))
  \/ (source_checks (si_reliabilityTier source) = true
      /\ name_taken (sources db) (si_name source) (si_url source) = false
      /\ find (has_url (si_url source)) (sources db) = None
      /\ upsertSource now source db
         = (Ok (next_rowid (sources_seq db) (map src_id (sources db))),
            with_sources db
              (sources db ++
               [ {| src_id := next_rowid (sources_seq db) (map src_id (sources db));
                    src_name := si_name source;
                    src_url := si_url source;
                    src_authority_type := si_authorityType source;
                    src_jurisdiction := si_jurisdiction source;
                    src_reliability_tier := si_reliabilityTier source;
                    src_last_crawled_at := Some (source_timestamp now source);
                    src_created_at := source_timestamp now source |} ])
              (next_rowid (sources_seq db) (map src_id (sources db))))).
Proof.
  unfold upsertSource, source_timestamp.
  destruct (source_checks (si_reliabilityTier source)) eqn:Hc; cbn [negb].
  2:{ left. eexists. split; [reflexivity|left; reflexivity]. }
  destruct (name_taken (sources db) (si_name source) (si_url source)) eqn:Hn.
  { left. eexists. split; [reflexivity|right; reflexivity]. }
  right.
  destruct (existsb (has_url (si_url source)) (sources db)) eqn:E.
  - left. split; [reflexivity|]. split; [reflexivity|].
    destruct (find_some_existsb _ _ _ E) as (old & Hold & Hu).
    exists old. split; [exact Hold|].
    cbn [sources with_sources].
    rewrite find_map_stable.
    2:{ intro x. destruct (has_url (si_url source) x) eqn:Hx; [|exact Hx].
        unfold has_url in *. cbn [src_url refresh_source]. exact Hx. }
    rewrite Hold. cbn [option_map]. rewrite Hu. cbn [src_id refresh_source].
    reflexivity.
  - right. split; [reflexivity|]. split; [reflexivity|].
    split; [apply find_none_existsb; exact E|].
    cbn [sources with_sources]. rewrite find_app_last.
    rewrite (find_none_existsb _ _ _ E).
    unfold has_url at 1. cbn [src_url]. rewrite String.eqb_refl. reflexivity.
Qed.

(** A source that is written can be read back under its url, with the
    id the upsert returned and the fields of the input; a url that was
    known keeps its id and its [created_at], a new one gets an id above
    every id of the table; the rows of the other urls read as before. *)
Theorem upsertSource_then_getSourceByUrl :
  forall (now : string) (source : SourceInput) (db : Database) (id : Z)
         (db' : Database),
    upsertSource now source db = (Ok id, db') ->
    (exists row,
        getSourceByUrl (si_url source) db' = Some row
        /\ src_id row = id
        /\ src_name row = si_name source
        /\ src_url row = si_url source
        /\ src_authority_type row = si_authorityType source
        /\ src_jurisdiction row = si_jurisdiction source
        /\ src_reliability_tier row = si_reliabilityTier source
        /\ src_last_crawled_at row = Some (source_timestamp now source)
        /\ match getSourceByUrl (si_url source) db with
           | Some old =>
               src_id row = src_id old /\ src_created_at row = src_created_at old
           | None =>
               src_created_at row = source_timestamp now source
               /\ forall r, In r (sources db) -> (src_id r < id)%Z
           end)
    /\ (forall url, url <> si_url source ->
                    getSourceByUrl url db' = getSourceByUrl url db).
Proof.
  intros now source db id db' H. unfold getSourceByUrl.
  destruct (upsertSource_cases now source db)
    as [(e & He & _)|[(_ & _ & old & Hold & Hup)|(_ & _ & Hnone & Hup)]].
  - rewrite He in H. discriminate.
  - rewrite Hup in H. inversion H; subst id db'. clear H.
    cbn [sources with_sources].
    assert (Hstable : forall (u : string) (x : SourceRegistryRow),
               has_url u (if has_url (si_url source) x
                          then refresh_source source (source_timestamp now source) x
                          else x)
               = has_url u x).
    { intros u x. destruct (has_url (si_url source) x); reflexivity. }
    assert (Hu : has_url (si_url source) old = true).
    { apply find_some in Hold. apply Hold. }
    split.
    + exists (refresh_source source (source_timestamp now source) old).
      rewrite find_map_stable by apply Hstable.
      rewrite Hold. cbn [option_map]. rewrite Hu.
      split; [reflexivity|]. cbn [refresh_source src_id src_name src_url
        src_authority_type src_jurisdiction src_reliability_tier
        src_last_crawled_at src_created_at].
      repeat (split; [reflexivity|]).
      split; [apply String.eqb_eq; exact Hu|].
      repeat (split; [reflexivity|]). split; reflexivity.
    + intros url Hne. rewrite find_map_stable by apply Hstable.
      destruct (find (has_url url) (sources db)) as [y|] eqn:Hy; [|reflexivity].
      cbn [option_map]. apply find_some in Hy. destruct Hy as [_ Hy].
      destruct (has_url (si_url source) y) eqn:Hy'; [|reflexivity].
      exfalso. apply Hne. unfold has_url in *.
      apply String.eqb_eq in Hy, Hy'. congruence.
  - rewrite Hup in H. inversion H; subst id db'. clear H.
    cbn [sources with_sources]. split.
    + eexists. rewrite find_app_last, Hnone. unfold has_url at 1.
      cbn [src_url]. rewrite String.eqb_refl.
      split; [reflexivity|].
      cbn [src_id src_name src_url src_authority_type src_jurisdiction
           src_reliability_tier src_last_crawled_at src_created_at].
      repeat (split; [reflexivity|]).
      intros r Hr. unfold next_rowid.
      destruct (fold_max_ge (map src_id (sources db)) (sources_seq db)) as [_ Hge].
      specialize (Hge (src_id r) (in_map src_id _ _ Hr)). lia.
    + intros url Hne. rewrite find_app_last.
      destruct (find (has_url url) (sources db)); [reflexivity|].
      unfold has_url. cbn [src_url].
      destruct (String.eqb (si_url source) url) eqn:E; [|reflexivity].
      apply String.eqb_eq in E. congruence.
Qed.

(** A first source, read back. *)
Lemma upsertSource_witness :
  upsertSource Examples.t1 (candidate_source Examples.t1 Examples.baseEvent) emptyDatabase
  = (Ok 1%Z,
     snd (upsertSource Examples.t1 (candidate_source Examples.t1 Examples.baseEvent)
            emptyDatabase))
  /\ exists row,
      getSourceByUrl (si_url (candidate_source Examples.t1 Examples.baseEvent))
        (snd (upsertSource Examples.t1 (candidate_source Examples.t1 Examples.baseEvent)
                emptyDatabase))
      = Some row
      /\ src_id row = 1%Z
      /\ src_name row = si_name (candidate_source Examples.t1 Examples.baseEvent).
Proof.
  assert (H : upsertSource Examples.t1 (candidate_source Examples.t1 Examples.baseEvent)
                emptyDatabase
              = (Ok 1%Z,
                 snd (upsertSource Examples.t1
                        (candidate_source Examples.t1 Examples.baseEvent) emptyDatabase))).
  { vm_compute. reflexivity. }
  split; [exact H|].
  destruct (upsertSource_then_getSourceByUrl Examples.t1
              (candidate_source Examples.t1 Examples.baseEvent) emptyDatabase 1%Z _ H)
    as [(row & Hrow & Hid & Hname & _) _].
  exists row. split; [exact Hrow|]. split; [exact Hid|exact Hname].
Defined.

(** A candidate whose source the [sources] table refuses (a
    reliability tier outside 1..5, or a name held under another url) is
    refused as a whole: the upsert throws and the store is what it
    was. *)
Theorem refused_source_writes_nothing :
  forall (now : string) (event : RegulationEventInput) (db : Database),
    source_checks (sourceReliabilityTier event) = false
    \/ name_taken (sources db) (sourceName event) (sourceUrl event) = true ->
    exists e, upsertRegulationEvent now event db = (Throw e, db).
Proof.
  intros now event db Hbad.
  destruct (upsertSource_cases now (candidate_source now event) db)
    as [(e & He & _)|[(Hc & Hn & _)|(Hc & Hn & _)]].
  - exists e. apply upsert_source_refused. exact He.
  - cbn [candidate_source si_reliabilityTier si_name si_url] in Hc, Hn.
    destruct Hbad; congruence.
  - cbn [candidate_source si_reliabilityTier si_name si_url] in Hc, Hn.
    destruct Hbad; congruence.
Qed.

(** The bill from a source of tier 9 is refused by an empty store. *)
Lemma refused_source_witness :
  source_checks (sourceReliabilityTier Examples2.tier9Event) = false
  /\ exists e,
      upsertRegulationEvent Examples.t1 Examples2.tier9Event emptyDatabase
      = (Throw e, emptyDatabase).
Proof.
  split; [reflexivity|].
  exact (refused_source_writes_nothing Examples.t1 Examples2.tier9Event emptyDatabase
           (or_introl eq_refl)).
Defined.

(** Every store the engine builds from the empty one, by any series of
    upserts, keeps the ids of its events distinct and its rows well
    formed: scores from 1 to 5, a flag that is 0 or 1, a summary and a
    business impact that are not empty. *)
Theorem engine_built_store_is_well_formed :
  forall calls : list (string * RegulationEventInput),
    schema_ok (upsert_all calls emptyDatabase).
Proof.
  intro calls.
  assert (H : forall db, schema_ok db -> schema_ok (upsert_all calls db)).
  { induction calls as [|[now event] rest IH]; intros db Hdb; [exact Hdb|].
    cbn [upsert_all]. apply IH.
    apply (upsert_preserves_schema now event db
             (fst (upsertRegulationEvent now event db)) _ Hdb).
    apply surjective_pairing. }
  apply H. exact empty_schema_ok.
Qed.

Lemma matches_new_row now id country state sid event normalized :
  title normalized = title event ->
  matches_identity country state (title event)
    (new_row now id country state sid event normalized) = true.
Proof.
  intro Ht. unfold matches_identity.
  cbn [new_row ev_jurisdiction_country ev_jurisdiction_state ev_title].
  rewrite Ht, !String.eqb_refl. reflexivity.
Qed.

Lemma filter_none_of_select country state t rows :
  select_existing country state t rows = None ->
  filter (matches_identity country state t) rows = [].
Proof.
  unfold select_existing.
  destruct (filter (matches_identity country state t) rows); [reflexivity|discriminate].
Qed.

Lemma stored_score_is_kept (n : number) :
  score_differs (to_Z (normalizeScore n)) (normalizeScore n) = false.
Proof.
  unfold score_differs.
  destruct (db_normalizeScore_range n) as (z & _ & Heq & ->).
  rewrite Heq. reflexivity.
Qed.

(** The row an insert writes shows no change against its own
    candidate. *)
Lemma new_row_has_no_changes now id country state sid event :
  hasChanges (new_row now id country state sid event (normalize event))
             (normalize event) = false.
Proof.
  unfold hasChanges, differs, differs_nullable.
  cbn [new_row normalize ev_stage ev_age_bracket ev_impact_score ev_likelihood_score
       ev_confidence_score ev_chili_score ev_summary ev_business_impact
       ev_required_solutions ev_affected_products ev_competitor_responses
       ev_raw_source_text ev_provenance_links
       stage ageBracket impactScore likelihoodScore confidenceScore chiliScore
       summary businessImpact requiredSolutions affectedMetaProducts
       competitorResponses rawSourceText provenanceLinks title].
  rewrite Stage_beq_refl, AgeBracket_beq_refl, !stored_score_is_kept,
    !String.eqb_refl.
  reflexivity.
Qed.

Lemma fixed_after_update rows id f :
  (forall x, fixed_columns (f x) = fixed_columns x) ->
  map fixed_columns
      (map (fun x => if String.eqb (ev_id x) id then f x else x) rows)
  = map fixed_columns rows.
Proof.
  intro H. rewrite map_map. apply map_ext. intro x.
  destruct (String.eqb (ev_id x) id); [apply H|reflexivity].
Qed.

Lemma existsb_of_map (A B : Type) (p : B -> bool) (f : A -> B) (l : list A) :
  existsb p (map f l) = existsb (fun x => p (f x)) l.
Proof. induction l as [|x l IH]; [reflexivity|]. cbn. rewrite IH. reflexivity. Qed.

Lemma name_free_after_upsert now source db id db' :
  upsertSource now source db = (Ok id, db') ->
  source_checks (si_reliabilityTier source) = true
  /\ name_taken (sources db') (si_name source) (si_url source) = false.
Proof.
  intro H.
  destruct (upsertSource_cases now source db)
    as [(e & He & _)|[(Hc & Hn & old & _ & Hup)|(Hc & Hn & _ & Hup)]].
  - rewrite He in H. discriminate.
  - rewrite Hup in H. inversion H; subst. split; [exact Hc|].
    cbn [sources with_sources]. unfold name_taken in *.
    rewrite existsb_of_map.
    rewrite <- Hn. apply existsb_pointwise. intro r.
    destruct (has_url (si_url source) r) eqn:Hr; [|reflexivity].
    cbn [refresh_source src_name src_url]. unfold has_url in Hr. rewrite Hr.
    change (negb true) with false. rewrite !andb_false_r. reflexivity.
  - rewrite Hup in H. inversion H; subst. split; [exact Hc|].
    cbn [sources with_sources]. unfold name_taken in *.
    rewrite existsb_app, Hn. cbn [existsb src_name src_url].
    rewrite !String.eqb_refl. change (negb true) with false.
    rewrite andb_false_r. reflexivity.
Qed.

(** An upsert that is answered [created] is answered [unchanged] when
    it is repeated, at any later time, on the store it left: the id is
    the same, no row is added and none changes identity, and no status
    change is recorded. *)
Theorem created_then_unchanged :
  forall (now later : string) (event : RegulationEventInput) (db : Database)
         (x : UpsertEventResult) (db1 : Database),
    upsertRegulationEvent now event db = (Ok x, db1) ->
    res_status x = created ->
    exists db2,
      upsertRegulationEvent later event db1
      = (Ok {| res_id := res_id x; res_status := unchanged;
               wasStatusChange := false; previousStage := Some (stage event) |}, db2)
      /\ map fixed_columns (regulation_events db2)
         = map fixed_columns (regulation_events db1)
      /\ status_changes db2 = status_changes db1.
Proof.
  intros now later event db x db1 H Hcreated.
  destruct (upsertSource now (candidate_source now event) db) as [[sid|e] dbs] eqn:Hsrc.
  2:{ rewrite (upsert_source_refused _ _ _ _ _ Hsrc) in H. discriminate. }
  destruct (upsertSource_frame _ _ _ _ _ Hsrc) as (Hev & Hsc & _).
  destruct (name_free_after_upsert _ _ _ _ _ Hsrc) as [Hc Hn].
  destruct (select_existing (candidate_country event) (candidate_state event)
              (title event) (regulation_events db)) as [r|] eqn:Hsel.
  { exfalso. rewrite (upsert_found _ _ _ _ _ _ Hsrc Hsel) in H. cbv zeta in H.
    destruct (hasChanges r (normalize event)); cbn [negb] in H;
      [destruct (negb (Stage_beq (ev_stage r) (stage (normalize event))))|];
      unfold bind, update_event, insert_status_change, modify, ret in H;
      inversion H; subst x; discriminate. }
  rewrite (upsert_not_found _ _ _ _ _ Hsrc Hsel) in H. unfold bind in H.
  destruct (insert_event _ dbs) as [[u|e] db2] eqn:Hins; [|discriminate].
  destruct (insert_event_cases _ _ _ _ Hins) as [(_ & -> & _)|[[e He] _]];
    [|discriminate].
  unfold ret in H. inversion H; subst x db1. clear H Hcreated.
  set (row := new_row now (candidate_id event) (candidate_country event)
                      (candidate_state event) sid event (normalize event)) in *.
  set (db1 := with_events dbs (regulation_events dbs ++ [row])).
  assert (Hacc : source_accepted db1 event).
  { split; [exact Hc|exact Hn]. }
  destruct (upsertSource_accepted later event db1 Hacc) as (sid' & dbs' & Hsrc').
  destruct (upsertSource_frame _ _ _ _ _ Hsrc') as (Hev' & Hsc' & _).
  assert (Hstored : stored_for db1 event row).
  { unfold stored_for, select_existing. cbn [db1 regulation_events with_events].
    rewrite filter_app, Hev, (filter_none_of_select _ _ _ _ Hsel).
    cbn [filter app]. unfold row. rewrite matches_new_row by reflexivity.
    reflexivity. }
  rewrite (upsert_found _ _ _ _ _ _ Hsrc' Hstored). cbv zeta.
  unfold row at 1. rewrite new_row_has_no_changes. cbn [negb].
  unfold bind, update_event, modify, ret. eexists. split.
  - cbn [row new_row ev_id ev_stage normalize stage].
    rewrite Stage_beq_refl, extractStage_name. cbn [negb res_id]. reflexivity.
  - cbn [regulation_events status_changes with_events].
    split; [|exact Hsc'].
    rewrite Hev'. apply fixed_after_update. intro y. reflexivity.
Qed.

(** The bill of the engine's test, upserted twice into an empty
    store. *)
Lemma created_then_unchanged_witness :
  upsertRegulationEvent Examples.t1 Examples.baseEvent emptyDatabase
  = (Ok Examples2.created_result, Examples.stored_once Examples.baseEvent)
  /\ res_status Examples2.created_result = created
  /\ exists db2,
      upsertRegulationEvent Examples.t2 Examples.baseEvent
        (Examples.stored_once Examples.baseEvent)
      = (Ok {| res_id := res_id Examples2.created_result; res_status := unchanged;
               wasStatusChange := false;
               previousStage := Some (stage Examples.baseEvent) |}, db2)
      /\ map fixed_columns (regulation_events db2)
         = map fixed_columns (regulation_events (Examples.stored_once Examples.baseEvent))
      /\ status_changes db2 = status_changes (Examples.stored_once Examples.baseEvent).
Proof.
  assert (H : upsertRegulationEvent Examples.t1 Examples.baseEvent emptyDatabase
              = (Ok Examples2.created_result, Examples.stored_once Examples.baseEvent)).
  { vm_compute. reflexivity. }
  split; [exact H|]. split; [reflexivity|].
  exact (created_then_unchanged Examples.t1 Examples.t2 Examples.baseEvent emptyDatabase
           Examples2.created_result (Examples.stored_once Examples.baseEvent)
           H eq_refl).
Defined.

Lemma upsert_extends_events rows now event :
  keeps (extends_events rows) (upsertRegulationEvent now event).
Proof.
  intros db [more Hmore]. unfold extends_events.
  destruct (upsertSource now (candidate_source now event) db) as [[sid|e] dbs] eqn:Hsrc.
  2:{ rewrite (upsert_source_refused _ _ _ _ _ Hsrc). cbn [snd].
      destruct (upsertSource_frame _ _ _ _ _ Hsrc) as (Hev & _).
      exists more. rewrite Hev. exact Hmore. }
  destruct (upsertSource_frame _ _ _ _ _ Hsrc) as (Hev & _).
  destruct (select_existing (candidate_country event) (candidate_state event)
              (title event) (regulation_events db)) as [r|] eqn:Hsel.
  - rewrite (upsert_found _ _ _ _ _ _ Hsrc Hsel). cbv zeta.
    exists more. rewrite <- Hmore.
    destruct (hasChanges r (normalize event)); cbn [negb];
      [destruct (negb (Stage_beq (ev_stage r) (stage (normalize event))))|];
      unfold bind, update_event, insert_status_change, modify, ret;
      cbn [fst snd regulation_events with_events with_status_changes];
      rewrite Hev; apply fixed_after_update; intro y; reflexivity.
  - rewrite (upsert_not_found _ _ _ _ _ Hsrc Hsel). unfold bind.
    destruct (insert_event _ dbs) as [[u|e] db2] eqn:Hins.
    + destruct (insert_event_cases _ _ _ _ Hins) as [(_ & -> & _)|[[e He] _]];
        [|discriminate].
      unfold ret. cbn [fst snd regulation_events with_events].
      eexists. rewrite map_app, Hev, Hmore, <- app_assoc. reflexivity.
    + destruct (insert_event_cases _ _ _ _ Hins) as [(He & _)|[_ ->]]; [discriminate|].
      cbn [snd]. exists more. rewrite Hev. exact Hmore.
Qed.

(** An upsert never drops an event and never rewrites the id, the
    title, the jurisdiction, the source or the creation time of one:
    whatever it answers, a throw included, the rows it leaves are the
    rows it found, in their order, with at most one row after them,
    the row of a candidate answered [created]. *)
Theorem upsert_never_drops_an_event :
  forall (now : string) (event : RegulationEventInput) (db : Database),
  exists more,
    map fixed_columns (regulation_events (snd (upsertRegulationEvent now event db)))
    = map fixed_columns (regulation_events db) ++ more
    /\ (more = []
        \/ exists x sid,
            fst (upsertRegulationEvent now event db) = Ok x
            /\ res_status x = created
            /\ more = [ (res_id x, title event, candidate_country event,
                         candidate_state event, sid, sourceUrl event, now) ]).
Proof.
  intros now event db.
  destruct (upsertSource now (candidate_source now event) db) as [[sid|e] dbs] eqn:Hsrc.
  2:{ rewrite (upsert_source_refused _ _ _ _ _ Hsrc). cbn [fst snd].
      destruct (upsertSource_frame _ _ _ _ _ Hsrc) as (Hev & _).
      exists []. rewrite Hev, app_nil_r. split; [reflexivity|left; reflexivity]. }
  destruct (upsertSource_frame _ _ _ _ _ Hsrc) as (Hev & _).
  destruct (select_existing (candidate_country event) (candidate_state event)
              (title event) (regulation_events db)) as [r|] eqn:Hsel.
  - rewrite (upsert_found _ _ _ _ _ _ Hsrc Hsel). cbv zeta.
    exists []. rewrite app_nil_r. split; [|left; reflexivity].
    destruct (hasChanges r (normalize event)); cbn [negb];
      [destruct (negb (Stage_beq (ev_stage r) (stage (normalize event))))|];
      unfold bind, update_event, insert_status_change, modify, ret;
      cbn [fst snd regulation_events with_events with_status_changes];
      rewrite Hev; apply fixed_after_update; intro y; reflexivity.
  - rewrite (upsert_not_found _ _ _ _ _ Hsrc Hsel). unfold bind.
    destruct (insert_event _ dbs) as [[u|e] db2] eqn:Hins.
    + destruct (insert_event_cases _ _ _ _ Hins) as [(_ & -> & _)|[[e He] _]];
        [|discriminate].
      unfold ret. cbn [fst snd regulation_events with_events].
      eexists. rewrite map_app, Hev. split; [reflexivity|].
      right. eexists. exists sid. split; [reflexivity|]. split; reflexivity.
    + destruct (insert_event_cases _ _ _ _ Hins) as [(He & _)|[_ ->]]; [discriminate|].
      cbn [fst snd]. exists []. rewrite Hev, app_nil_r.
      split; [reflexivity|left; reflexivity].
Qed.

(** The status history after an upsert, with the id of the event. *)
Lemma upsert_status_changes_id now event db res db' :
  upsertRegulationEvent now event db = (res, db') ->
  (exists x p,
      res = Ok x /\ res_status x = status_changed
      /\ previousStage x = Some p
      /\ status_changes db'
         = status_changes db
           ++ [ {| sc_id := next_rowid (status_changes_seq db)
                                       (map sc_id (status_changes db));
                   sc_event_id := res_id x;
                   sc_previous_stage := p;
                   sc_new_stage := stage event;
                   sc_changed_at := now |} ])
  \/ ((forall x, res = Ok x -> res_status x <> status_changed)
      /\ status_changes db' = status_changes db).
Proof.
  intro H.
  destruct (upsertSource now (candidate_source now event) db) as [[sid|e] db1] eqn:Hsrc.
  2:{ rewrite (upsert_source_refused _ _ _ _ _ Hsrc) in H. inversion H; subst.
      right. split; [intros x Hx; discriminate|].
      apply (upsertSource_frame _ _ _ _ _ Hsrc). }
  destruct (upsertSource_frame _ _ _ _ _ Hsrc) as (Hev & Hsc & Hseq & _).
  destruct (select_existing (candidate_country event) (candidate_state event)
              (title event) (regulation_events db)) as [r|] eqn:Hsel.
  2:{ rewrite (upsert_not_found _ _ _ _ _ Hsrc Hsel) in H. unfold bind in H.
      destruct (insert_event _ db1) as [[u|e] db2] eqn:Hins.
      - destruct (insert_event_cases _ _ _ _ Hins) as [(_ & -> & _)|[[e He] _]];
          [|discriminate].
        unfold ret in H. inversion H; subst. right.
        split; [intros x Hx; inversion Hx; subst; simpl; discriminate|exact Hsc].
      - destruct (insert_event_cases _ _ _ _ Hins) as [(He & _)|[_ ->]];
          [discriminate|].
        inversion H; subst. right.
        split; [intros x Hx; discriminate|exact Hsc]. }
  rewrite (upsert_found _ _ _ _ _ _ Hsrc Hsel) in H. cbv zeta in H.
  destruct (hasChanges r (normalize event)); cbn [negb] in H.
  2:{ unfold bind, update_event, modify, ret in H. inversion H; subst. right.
      split; [intros x Hx; inversion Hx; subst; simpl; discriminate|exact Hsc]. }
  destruct (Stage_beq (ev_stage r) (stage (normalize event))) eqn:Hst;
    cbn [negb] in H;
    unfold bind, update_event, insert_status_change, modify, ret in H;
    inversion H; subst.
  - right.
    split; [intros x Hx; inversion Hx; subst; simpl; discriminate|exact Hsc].
  - left. eexists. eexists. split; [reflexivity|].
    cbn [res_status res_id previousStage status_changes status_changes_seq
         with_status_changes with_events].
    split; [reflexivity|]. split; [reflexivity|].
    rewrite Hsc, Hseq. reflexivity.
Qed.

(** The number of status changes counted for an event grows by one
    when an upsert answers [status_changed] for that event, and is
    left as it was by every other upsert, for every other event and
    when the upsert throws. *)
Theorem status_change_count_after_upsert :
  forall (now : string) (event : RegulationEventInput) (db : Database) (id : string),
    getEventStatusChangeCount id (snd (upsertRegulationEvent now event db))
    = (getEventStatusChangeCount id db
       + (if status_changed_for id (fst (upsertRegulationEvent now event db))
          then 1 else 0))%Z.
Proof.
  intros now event db id. unfold getEventStatusChangeCount.
  destruct (upsertRegulationEvent now event db) as [res db'] eqn:H. cbn [fst snd].
  destruct (upsert_status_changes_id _ _ _ _ _ H)
    as [(x & p & -> & Hst & _ & Hsc)|[Hno Hsc]].
  - rewrite Hsc, filter_app, length_app. cbn [filter sc_event_id status_changed_for].
    rewrite Hst. destruct (String.eqb (res_id x) id); cbn [List.length]; lia.
  - rewrite Hsc.
    assert (E : status_changed_for id res = false).
    { destruct res as [x|e]; [|reflexivity]. cbn [status_changed_for].
      specialize (Hno x eq_refl). destruct (res_status x); try reflexivity.
      congruence. }
    rewrite E. lia.
Qed.

Lemma insert_sorted_length x l :
  List.length (insert_sorted x l) = S (List.length l).
Proof.
  induction l as [|y l IH]; [reflexivity|]. cbn [insert_sorted].
  destruct (history_before x y); cbn [List.length]; [reflexivity|].
  rewrite IH. reflexivity.
Qed.

Lemma order_history_length l : List.length (order_history l) = List.length l.
Proof.
  induction l as [|x l IH]; [reflexivity|]. cbn [order_history fold_right].
  rewrite insert_sorted_length. fold (order_history l). rewrite IH. reflexivity.
Qed.

Lemma insert_sorted_In x y l : In y (insert_sorted x l) <-> y = x \/ In y l.
Proof.
  induction l as [|z l IH]; cbn [insert_sorted].
  - cbn. intuition.
  - destruct (history_before x z); cbn [In]; [intuition|].
    rewrite IH. intuition.
Qed.

Lemma order_history_In y l : In y (order_history l) <-> In y l.
Proof.
  induction l as [|x l IH]; [reflexivity|]. cbn [order_history fold_right].
  fold (order_history l). rewrite insert_sorted_In, IH. cbn [In]. intuition.
Qed.

(** The history listed for an event has one entry for each status
    change counted for it; after an upsert answered [status_changed]
    the history of that event holds the entry from the stage that was
    stored to the stage of the candidate, at the time of the upsert. *)
Theorem history_lists_every_status_change :
  forall (now : string) (event : RegulationEventInput) (db : Database)
         (x : UpsertEventResult) (db' : Database) (p : Stage),
    upsertRegulationEvent now event db = (Ok x, db') ->
    res_status x = status_changed ->
    previousStage x = Some p ->
    (forall id d,
        Z.of_nat (List.length (listEventHistory id d)) = getEventStatusChangeCount id d)
    /\ In {| h_previousStage := p; h_newStage := stage event; h_changedAt := now |}
          (listEventHistory (res_id x) db').
Proof.
  intros now event db x db' p H Hst Hp. split.
  - intros id d. unfold listEventHistory, getEventStatusChangeCount.
    rewrite length_map, order_history_length. reflexivity.
  - destruct (upsert_status_changes_id _ _ _ _ _ H)
      as [(x' & p' & Hx & _ & Hp' & Hsc)|[Hno _]].
    2:{ exfalso. exact (Hno x eq_refl Hst). }
    inversion Hx; subst x'. rewrite Hp in Hp'. inversion Hp'; subst p'.
    unfold listEventHistory. rewrite Hsc, filter_app.
    cbn [filter sc_event_id]. rewrite String.eqb_refl.
    apply in_map_iff.
    eexists. split; [|apply order_history_In, in_or_app; right; left; reflexivity].
    cbn [sc_previous_stage sc_new_stage sc_changed_at].
    rewrite !extractStage_name. reflexivity.
Qed.

(** The bill of the engine's test goes from introduced to passed. *)
Lemma history_witness :
  upsertRegulationEvent Examples.t2 Examples.passedEvent
    (Examples.stored_once Examples.baseEvent)
  = (Ok Examples2.passed_result, Examples2.stored_twice)
  /\ (forall id d,
         Z.of_nat (List.length (listEventHistory id d)) = getEventStatusChangeCount id d)
  /\ In {| h_previousStage := introduced; h_newStage := stage Examples.passedEvent;
           h_changedAt := Examples.t2 |}
        (listEventHistory (res_id Examples2.passed_result) Examples2.stored_twice).
Proof.
  assert (H : upsertRegulationEvent Examples.t2 Examples.passedEvent
                (Examples.stored_once Examples.baseEvent)
              = (Ok Examples2.passed_result, Examples2.stored_twice)).
  { vm_compute. reflexivity. }
  split; [exact H|].
  exact (history_lists_every_status_change Examples.t2 Examples.passedEvent
           (Examples.stored_once Examples.baseEvent) Examples2.passed_result
           Examples2.stored_twice introduced H eq_refl eq_refl).
Defined.

(** [finalizeCrawlRun] rewrites the run of the id it is given and no
    other: no run is added or removed, no id and no start time
    changes, every run of another id is left as it was, and when no
    run has the id the table is left as it was, without an error. *)
Theorem finalize_touches_one_run :
  forall (now : string) (id : Z) (values : FinalizeValues) (db : Database),
    fst (finalizeCrawlRun now id values db) = Ok tt
    /\ map run_id (crawl_runs (snd (finalizeCrawlRun now id values db)))
       = map run_id (crawl_runs db)
    /\ map run_started_at (crawl_runs (snd (finalizeCrawlRun now id values db)))
       = map run_started_at (crawl_runs db)
    /\ (forall r, In r (crawl_runs db) -> run_id r <> id ->
                  In r (crawl_runs (snd (finalizeCrawlRun now id values db))))
    /\ (forall r, In r (crawl_runs (snd (finalizeCrawlRun now id values db))) ->
                  run_id r = id ->
                  run_finished_at r = Some now
                  /\ run_status r = run_status_of (fv_status values)
                  /\ run_items_discovered r = fv_itemsDiscovered values)
    /\ (~ In id (map run_id (crawl_runs db)) ->
        crawl_runs (snd (finalizeCrawlRun now id values db)) = crawl_runs db).
Proof.
  intros now id values db. unfold finalizeCrawlRun, modify.
  cbn [fst snd crawl_runs with_crawl_runs].
  split; [reflexivity|].
  split.
  { rewrite map_map. apply map_ext. intro r.
    destruct (run_id r =? id)%Z; reflexivity. }
  split.
  { rewrite map_map. apply map_ext. intro r.
    destruct (run_id r =? id)%Z; reflexivity. }
  split.
  { intros r Hr Hne. apply in_map_iff. exists r. split; [|exact Hr].
    destruct (Z.eqb_spec (run_id r) id); [contradiction|reflexivity]. }
  split.
  { intros r Hr Hid. apply in_map_iff in Hr as (r0 & Hr0 & _).
    destruct (Z.eqb_spec (run_id r0) id) as [E|E].
    - subst r. cbn [finalize_row run_finished_at run_status run_items_discovered].
      repeat split.
    - subst r. contradiction. }
  intro Hnot.
  induction (crawl_runs db) as [|r l IH]; [reflexivity|].
  cbn [map]. cbn [map In] in Hnot.
  destruct (Z.eqb_spec (run_id r) id) as [E|E]; [exfalso; apply Hnot; left; exact E|].
  rewrite IH; [reflexivity|]. intro K. apply Hnot. right. exact K.
Qed.

(** The id [createCrawlRun] gives a run is above every id of the
    table and above the last id the table gave, so ids are never used
    twice; the run starts in the running state, not finished, with
    all its counters at 0, and the runs before it are left as they
    were. *)
Theorem createCrawlRun_gives_a_fresh_id :
  forall (now : string) (db : Database),
  exists id,
    createCrawlRun now db
    = (Ok id,
       with_crawl_runs db (crawl_runs db ++ [started_run id now]) id
         (crawl_runs_log db ++ [InsertRun id]))
    /\ (crawl_runs_seq db < id)%Z
    /\ (forall r, In r (crawl_runs db) -> (run_id r < id)%Z)
    /\ forall later,
        exists id',
          fst (createCrawlRun later (snd (createCrawlRun now db))) = Ok id'
          /\ (id < id')%Z.
Proof.
  intros now db.
  exists (next_rowid (crawl_runs_seq db) (map run_id (crawl_runs db))).
  destruct (fold_max_ge (map run_id (crawl_runs db)) (crawl_runs_seq db)) as [Hs Hge].
  split; [reflexivity|]. unfold next_rowid at 1 2.
  split; [lia|]. split.
  { intros r Hr. specialize (Hge (run_id r) (in_map run_id _ _ Hr)). lia. }
  intro later. eexists. split; [reflexivity|].
  cbn [createCrawlRun snd crawl_runs_seq crawl_runs with_crawl_runs].
  match goal with
  | |- (_ < next_rowid ?seq ?ids)%Z =>
      destruct (fold_max_ge ids seq) as [Hs' _]; unfold next_rowid at 1
  end.
  unfold next_rowid in *. lia.
Qed.

(** The engine stores the scores of the classifier as they are: a
    score the classifier returns is an integer from 1 to 5, which the
    engine's own normalization leaves alone. *)
Theorem classifier_scores_survive_the_engine :
  forall (ToNumber : Analyzer.jsvalue -> number) (v : Analyzer.jsvalue),
    normalizeScore (Analyzer.normalizeScore ToNumber v)
    = Analyzer.normalizeScore ToNumber v
    /\ exists z, (1 <= z <= 5)%Z
                 /\ to_Z (normalizeScore (Analyzer.normalizeScore ToNumber v)) = z
                 /\ Analyzer.normalizeScore ToNumber v = of_Z z.
Proof.
  intros ToNumber v.
  destruct (normalizeScore_in_range ToNumber v) as (z & Hz & E).
  rewrite E.
  assert (Hcases : (z = 1 \/ z = 2 \/ z = 3 \/ z = 4 \/ z = 5)%Z) by lia.
  split; [|exists z; split; [exact Hz|split; [|reflexivity]]];
    destruct Hcases as [->|[->|[->|[->| ->]]]]; reflexivity.
Qed.

(** The engine commits each statement on its own: when the source of
    a candidate is accepted and the upsert throws all the same, on a
    constraint of the event insert, the events and the status history
    are what they were but the source has been written, with the time
    of this upsert as its last crawl. *)
Theorem a_refused_event_still_refreshes_its_source :
  forall (now : string) (event : RegulationEventInput) (db : Database)
         (e : thrown) (db' : Database),
    source_accepted db event ->
    upsertRegulationEvent now event db = (Throw e, db') ->
    regulation_events db' = regulation_events db
    /\ status_changes db' = status_changes db
    /\ select_existing (candidate_country event) (candidate_state event) (title event)
                       (regulation_events db) = None
    /\ exists row,
        getSourceByUrl (sourceUrl event) db' = Some row
        /\ src_name row = sourceName event
        /\ src_last_crawled_at row = Some now.
Proof.
  intros now event db e db' Hacc H.
  destruct (upsertSource_accepted now event db Hacc) as (sid & dbs & Hsrc).
  destruct (upsertSource_frame _ _ _ _ _ Hsrc) as (Hev & Hsc & _).
  destruct (select_existing (candidate_country event) (candidate_state event)
              (title event) (regulation_events db)) as [r|] eqn:Hsel.
  { exfalso. rewrite (upsert_found _ _ _ _ _ _ Hsrc Hsel) in H. cbv zeta in H.
    destruct (hasChanges r (normalize event)); cbn [negb] in H;
      [destruct (negb (Stage_beq (ev_stage r) (stage (normalize event))))|];
      unfold bind, update_event, insert_status_change, modify, ret in H;
      discriminate. }
  rewrite (upsert_not_found _ _ _ _ _ Hsrc Hsel) in H. unfold bind in H.
  destruct (insert_event _ dbs) as [[u|e'] db2] eqn:Hins; [discriminate|].
  destruct (insert_event_cases _ _ _ _ Hins) as [(He & _)|[_ ->]]; [discriminate|].
  inversion H; subst e' db'. clear H.
  split; [exact Hev|]. split; [exact Hsc|]. split; [reflexivity|].
  unfold getSourceByUrl.
  destruct (upsertSource_cases now (candidate_source now event) db)
    as [(e0 & He0 & _)|[(_ & _ & old & Hold & Hup)|(_ & _ & Hnone & Hup)]].
  - rewrite He0 in Hsrc. discriminate.
  - rewrite Hup in Hsrc. inversion Hsrc; subst sid dbs.
    cbn [sources with_sources candidate_source si_url si_name] in *.
    rewrite find_map_stable.
    2:{ intro x. destruct (has_url (sourceUrl event) x) eqn:Hx; [|exact Hx]. exact Hx. }
    rewrite Hold. cbn [option_map].
    assert (Hu : has_url (sourceUrl event) old = true) by (apply (find_some _ _ Hold)).
    rewrite Hu. eexists. split; [reflexivity|]. split; reflexivity.
  - rewrite Hup in Hsrc. inversion Hsrc; subst sid dbs.
    cbn [sources with_sources candidate_source si_url si_name] in *.
    rewrite find_app_last, Hnone. unfold has_url at 1. cbn [src_url].
    rewrite String.eqb_refl. eexists. split; [reflexivity|]. split; reflexivity.
Qed.

(** The bill comes back under the country in lower case: the insert
    hits the primary key, the source is refreshed. *)
Lemma a_refused_event_witness :
  source_accepted (Examples.stored_once Examples.baseEvent) Examples.lowerCaseEvent
  /\ upsertRegulationEvent Examples.t2 Examples.lowerCaseEvent
       (Examples.stored_once Examples.baseEvent)
     = (Throw Examples2.refused_error, Examples2.stored_after_refusal)
  /\ regulation_events Examples2.stored_after_refusal
     = regulation_events (Examples.stored_once Examples.baseEvent)
  /\ status_changes Examples2.stored_after_refusal
     = status_changes (Examples.stored_once Examples.baseEvent)
  /\ select_existing (candidate_country Examples.lowerCaseEvent)
       (candidate_state Examples.lowerCaseEvent) (title Examples.lowerCaseEvent)
       (regulation_events (Examples.stored_once Examples.baseEvent)) = None
  /\ exists row,
      getSourceByUrl (sourceUrl Examples.lowerCaseEvent) Examples2.stored_after_refusal
      = Some row
      /\ src_name row = sourceName Examples.lowerCaseEvent
      /\ src_last_crawled_at row = Some Examples.t2.
Proof.
  assert (H1 : source_accepted (Examples.stored_once Examples.baseEvent)
                               Examples.lowerCaseEvent).
  { split; vm_compute; reflexivity. }
  assert (H2 : upsertRegulationEvent Examples.t2 Examples.lowerCaseEvent
                 (Examples.stored_once Examples.baseEvent)
               = (Throw Examples2.refused_error, Examples2.stored_after_refusal)).
  { vm_compute. reflexivity. }
  split; [exact H1|]. split; [exact H2|].
  exact (a_refused_event_still_refreshes_its_source Examples.t2 Examples.lowerCaseEvent
           (Examples.stored_once Examples.baseEvent) Examples2.refused_error
           Examples2.stored_after_refusal H1 H2).
Defined.

Lemma ltb_asymmetric a b : String.ltb a b = true -> String.ltb b a = false.
Proof.
  unfold String.ltb. rewrite (String.compare_antisym a b).
  destruct (String.compare b a); cbn; congruence.
Qed.

Lemma filter_map_stable (A : Type) (p : A -> bool) (g : A -> A) (l : list A) :
  (forall x, p (g x) = p x) -> filter p (map g l) = map g (filter p l).
Proof.
  intro H. induction l as [|x l IH]; [reflexivity|]. cbn [map filter].
  rewrite H. destruct (p x); cbn [map]; rewrite IH; reflexivity.
Qed.

Lemma NoDup_ids_filter (p : RegulationEventDbRow -> bool) rows :
  NoDup (map ev_id rows) -> NoDup (map ev_id (filter p rows)).
Proof.
  induction rows as [|x rows IH]; intro H; [constructor|].
  cbn [map] in H. inversion H as [|? ? Hx Hnd]; subst. cbn [filter].
  destruct (p x); [|apply IH; exact Hnd].
  cbn [map]. constructor; [|apply IH; exact Hnd].
  intro K. apply Hx. apply in_map_iff in K as (y & E & Hy).
  apply in_map_iff. exists y. split; [exact E|]. apply filter_In in Hy. apply Hy.
Qed.

Section Latest.

Variable now : string.
Variable r : RegulationEventDbRow.
Variable f : RegulationEventDbRow -> RegulationEventDbRow.
Hypothesis f_time : ev_updated_at (f r) = now.

Let g (y : RegulationEventDbRow) : RegulationEventDbRow :=
  if String.eqb (ev_id y) (ev_id r) then f y else y.

Lemma latest_stays rest :
  (forall y, In y rest ->
             ev_id y <> ev_id r /\ String.ltb (ev_updated_at y) now = true) ->
  latest (f r) (map g rest) = f r.
Proof.
  induction rest as [|b rest IH]; intro H; [reflexivity|].
  cbn [map latest]. destruct (H b (or_introl eq_refl)) as [Hid Hold].
  unfold g at 1. destruct (String.eqb_spec (ev_id b) (ev_id r)); [contradiction|].
  rewrite f_time, (ltb_asymmetric _ _ Hold).
  apply IH. intros y Hy. apply H. right. exact Hy.
Qed.

Lemma latest_moves rest :
  forall best,
    String.ltb (ev_updated_at best) now = true ->
    In r rest ->
    NoDup (map ev_id rest) ->
    (forall y, In y rest -> ev_id y <> ev_id r ->
               String.ltb (ev_updated_at y) now = true) ->
    latest best (map g rest) = f r.
Proof.
  induction rest as [|b rest IH]; intros best Hbest Hin Hnd Hold; [destruct Hin|].
  cbn [map] in Hnd. apply NoDup_cons_iff in Hnd as [Hb Hnd'].
  cbn [map latest]. unfold g at 1 2.
  destruct (String.eqb_spec (ev_id b) (ev_id r)) as [E|E].
  - assert (Hbr : b = r).
    { destruct Hin as [Hin|Hin]; [exact Hin|].
      exfalso. apply Hb. rewrite E. apply in_map. exact Hin. }
    subst b. rewrite f_time, Hbest.
    apply latest_stays. intros y Hy. split.
    + intro K. apply Hb. rewrite <- K. apply in_map. exact Hy.
    + apply Hold; [right; exact Hy|].
      intro K. apply Hb. rewrite <- K. apply in_map. exact Hy.
  - assert (Hin' : In r rest) by (destruct Hin as [Hin|Hin]; [congruence|exact Hin]).
    assert (Hold' : forall y, In y rest -> ev_id y <> ev_id r ->
                              String.ltb (ev_updated_at y) now = true).
    { intros y Hy. apply Hold. right. exact Hy. }
    destruct (String.ltb (ev_updated_at best) (ev_updated_at b)).
    + apply IH; [apply Hold; [left; reflexivity|exact E]|exact Hin'|exact Hnd'|exact Hold'].
    + apply IH; assumption.
Qed.

Lemma latest_after_update a rest :
  In r (a :: rest) ->
  NoDup (map ev_id (a :: rest)) ->
  (forall y, In y (a :: rest) -> ev_id y <> ev_id r ->
             String.ltb (ev_updated_at y) now = true) ->
  latest (g a) (map g rest) = f r.
Proof.
  intros Hin Hnd Hold.
  cbn [map] in Hnd. apply NoDup_cons_iff in Hnd as [Ha Hnd'].
  unfold g at 1. destruct (String.eqb_spec (ev_id a) (ev_id r)) as [E|E].
  - assert (Har : a = r).
    { destruct Hin as [Hin|Hin]; [exact Hin|].
      exfalso. apply Ha. rewrite E. apply in_map. exact Hin. }
    subst a. apply latest_stays. intros y Hy. split.
    + intro K. apply Ha. rewrite <- K. apply in_map. exact Hy.
    + apply Hold; [right; exact Hy|].
      intro K. apply Ha. rewrite <- K. apply in_map. exact Hy.
  - apply latest_moves.
    + apply Hold; [left; reflexivity|exact E].
    + destruct Hin as [Hin|Hin]; [congruence|exact Hin].
    + exact Hnd'.
    + intros y Hy. apply Hold. right. exact Hy.
Qed.

End Latest.

(** The lookup after the row it found has been rewritten at a time
    later than every update of the table: it finds that row again. *)
Lemma select_after_update now country state t rows r f :
  NoDup (map ev_id rows) ->
  (forall y, In y rows -> String.ltb (ev_updated_at y) now = true) ->
  (forall y, matches_identity country state t (f y) = matches_identity country state t y) ->
  ev_updated_at (f r) = now ->
  select_existing country state t rows = Some r ->
  select_existing country state t
    (map (fun y => if String.eqb (ev_id y) (ev_id r) then f y else y) rows)
  = Some (f r).
Proof.
  intros Hnd Hold Hm Ht Hsel. unfold select_existing in *.
  rewrite filter_map_stable.
  2:{ intro x. destruct (String.eqb (ev_id x) (ev_id r)); [apply Hm|reflexivity]. }
  pose proof (NoDup_ids_filter (matches_identity country state t) rows Hnd) as Hnd'.
  destruct (filter (matches_identity country state t) rows) as [|a rest] eqn:E;
    [discriminate|].
  inversion Hsel as [Hr]. cbn [map]. f_equal.
  assert (Hin : In r (a :: rest)) by (rewrite <- Hr; apply latest_In).
  rewrite Hr.
  apply (latest_after_update now r f Ht a rest Hin Hnd').
  intros y Hy _. apply Hold.
  assert (K : In y (filter (matches_identity country state t) rows))
    by (rewrite E; exact Hy).
  apply filter_In in K. apply K.
Qed.

Lemma repeat_on_stored later event db1 row :
  source_accepted db1 event ->
  stored_for db1 event row ->
  hasChanges row (normalize event) = false ->
  exists db2,
    upsertRegulationEvent later event db1
    = (Ok {| res_id := ev_id row; res_status := unchanged;
             wasStatusChange := false; previousStage := Some (stage event) |}, db2)
    /\ map fixed_columns (regulation_events db2)
       = map fixed_columns (regulation_events db1)
    /\ status_changes db2 = status_changes db1.
Proof.
  intros Hacc Hstored Hno.
  destruct (upsertSource_accepted later event db1 Hacc) as (sid & dbs & Hsrc).
  destruct (upsertSource_frame _ _ _ _ _ Hsrc) as (Hev & Hsc & _).
  rewrite (upsert_found _ _ _ _ _ _ Hsrc Hstored). cbv zeta.
  rewrite Hno. cbn [negb].
  assert (Hst : Stage_beq (ev_stage row) (stage (normalize event)) = true).
  { unfold hasChanges in Hno.
    destruct (Stage_beq (ev_stage row) (stage (normalize event))); [reflexivity|].
    cbn in Hno. discriminate. }
  rewrite Hst. cbn [negb].
  apply Stage_beq_eq in Hst. cbn [normalize stage] in Hst.
  rewrite extractStage_name, Hst.
  unfold bind, update_event, modify, ret. eexists. split; [reflexivity|].
  cbn [regulation_events status_changes with_events]. split; [|exact Hsc].
  rewrite Hev. apply fixed_after_update. intro y. reflexivity.
Qed.

Lemma overwrite_has_no_changes now event r :
  hasChanges (overwrite now (normalize event) r) (normalize event) = false.
Proof.
  unfold hasChanges, differs, differs_nullable.
  cbn [overwrite normalize ev_stage ev_age_bracket ev_impact_score ev_likelihood_score
       ev_confidence_score ev_chili_score ev_summary ev_business_impact
       ev_required_solutions ev_affected_products ev_competitor_responses
       ev_raw_source_text ev_provenance_links
       stage ageBracket impactScore likelihoodScore confidenceScore chiliScore
       summary businessImpact requiredSolutions affectedMetaProducts
       competitorResponses rawSourceText provenanceLinks title].
  rewrite Stage_beq_refl, AgeBracket_beq_refl, !stored_score_is_kept,
    !String.eqb_refl.
  reflexivity.
Qed.

(** The upsert is idempotent: on a store with distinct event ids, an
    upsert that returns (as created, updated, status changed or
    unchanged), made at a time later than every update of the store,
    is answered [unchanged] for the same event when it is repeated on
    the store it left: no row is added, none changes identity, and no
    status change is recorded the second time. *)
Theorem repeated_upsert_is_unchanged :
  forall (now later : string) (event : RegulationEventInput) (db : Database)
         (x : UpsertEventResult) (db1 : Database),
    schema_ok db ->
    all_older now db ->
    upsertRegulationEvent now event db = (Ok x, db1) ->
    exists db2,
      upsertRegulationEvent later event db1
      = (Ok {| res_id := res_id x; res_status := unchanged;
               wasStatusChange := false; previousStage := Some (stage event) |}, db2)
      /\ map fixed_columns (regulation_events db2)
         = map fixed_columns (regulation_events db1)
      /\ status_changes db2 = status_changes db1.
Proof.
  intros now later event db x db1 [Hnd _] Hold H.
  destruct (upsertSource now (candidate_source now event) db) as [[sid|e] dbs] eqn:Hsrc.
  2:{ rewrite (upsert_source_refused _ _ _ _ _ Hsrc) in H. discriminate. }
  destruct (upsertSource_frame _ _ _ _ _ Hsrc) as (Hev & Hsc & _).
  destruct (name_free_after_upsert _ _ _ _ _ Hsrc) as [Hc Hn].
  destruct (select_existing (candidate_country event) (candidate_state event)
              (title event) (regulation_events db)) as [r|] eqn:Hsel.
  - pose proof Hsel as Hsel0.
    rewrite (upsert_found _ _ _ _ _ _ Hsrc Hsel) in H. cbv zeta in H.
    unfold all_older in Hold.
    destruct (hasChanges r (normalize event)) eqn:Hch; cbn [negb] in H.
    + assert (Hres : res_id x = ev_id r
                     /\ regulation_events db1
                        = map (fun y => if String.eqb (ev_id y) (ev_id r)
                                        then overwrite now (normalize event) y else y)
                              (regulation_events db)
                     /\ sources db1 = sources dbs).
      { destruct (negb (Stage_beq (ev_stage r) (stage (normalize event))));
          unfold bind, update_event, insert_status_change, modify, ret in H;
          inversion H; subst x db1;
          cbn [res_id regulation_events sources with_events with_status_changes];
          rewrite Hev; repeat split. }
      destruct Hres as (Hid & Hrows & Hsources).
      assert (Hstored : stored_for db1 event (overwrite now (normalize event) r)).
      { unfold stored_for. rewrite Hrows.
        apply (select_after_update now); try assumption; reflexivity. }
      destruct (repeat_on_stored later event db1 _
                  (conj Hc (eq_ind_r (fun l => name_taken l _ _ = false) Hn Hsources))
                  Hstored (overwrite_has_no_changes now event r))
        as (db2 & H2 & F & S).
      exists db2. rewrite Hid. split; [exact H2|]. split; assumption.
    + unfold bind, update_event, modify, ret in H. inversion H; subst x db1.
      clear H. cbn [res_id].
      set (db1 := with_events dbs
                    (map (fun y => if String.eqb (ev_id y) (ev_id r)
                                   then touch now y else y)
                         (regulation_events dbs))).
      assert (Hstored : stored_for db1 event (touch now r)).
      { unfold stored_for. cbn [db1 regulation_events with_events]. rewrite Hev.
        apply (select_after_update now); try assumption; reflexivity. }
      destruct (repeat_on_stored later event db1 _ (conj Hc Hn) Hstored Hch)
        as (db2 & H2 & F & S).
      exists db2. split; [exact H2|]. split; assumption.
  - rewrite (upsert_not_found _ _ _ _ _ Hsrc Hsel) in H. unfold bind in H.
    destruct (insert_event _ dbs) as [[u|e] db2] eqn:Hins; [|discriminate].
    destruct (insert_event_cases _ _ _ _ Hins) as [(_ & -> & _)|[[e He] _]];
      [|discriminate].
    unfold ret in H. inversion H; subst x db1. clear H. cbn [res_id].
    set (row := new_row now (candidate_id event) (candidate_country event)
                        (candidate_state event) sid event (normalize event)) in *.
    set (db1 := with_events dbs (regulation_events dbs ++ [row])).
    assert (Hstored : stored_for db1 event row).
    { unfold stored_for, select_existing. cbn [db1 regulation_events with_events].
      rewrite filter_app, Hev, (filter_none_of_select _ _ _ _ Hsel).
      cbn [filter app]. unfold row. rewrite matches_new_row by reflexivity.
      reflexivity. }
    destruct (repeat_on_stored later event db1 row (conj Hc Hn) Hstored
                (new_row_has_no_changes _ _ _ _ _ _))
      as (db2 & H2 & F & S).
    exists db2. split; [exact H2|]. split; assumption.
Qed.

(** The bill stored as introduced comes back as passed, then as passed
    once more a day later. *)
Lemma repeated_upsert_witness :
  schema_ok (Examples.stored_once Examples.baseEvent)
  /\ all_older Examples.t2 (Examples.stored_once Examples.baseEvent)
  /\ upsertRegulationEvent Examples.t2 Examples.passedEvent
       (Examples.stored_once Examples.baseEvent)
     = (Ok Examples2.passed_result, Examples2.stored_twice)
  /\ exists db2,
      upsertRegulationEvent "2026-02-03T10:00:00.000Z" Examples.passedEvent
        Examples2.stored_twice
      = (Ok {| res_id := res_id Examples2.passed_result; res_status := unchanged;
               wasStatusChange := false;
               previousStage := Some (stage Examples.passedEvent) |}, db2)
      /\ map fixed_columns (regulation_events db2)
         = map fixed_columns (regulation_events Examples2.stored_twice)
      /\ status_changes db2 = status_changes Examples2.stored_twice.
Proof.
  assert (H1 : schema_ok (Examples.stored_once Examples.baseEvent)).
  { split.
    - vm_compute. constructor; [intros []|constructor].
    - constructor; [|constructor].
      split; [vm_compute; reflexivity|]. split; vm_compute; discriminate. }
  assert (H2 : all_older Examples.t2 (Examples.stored_once Examples.baseEvent)).
  { intros r [<-|[]]. vm_compute. reflexivity. }
  assert (H3 : upsertRegulationEvent Examples.t2 Examples.passedEvent
                 (Examples.stored_once Examples.baseEvent)
               = (Ok Examples2.passed_result, Examples2.stored_twice)).
  { vm_compute. reflexivity. }
  split; [exact H1|]. split; [exact H2|]. split; [exact H3|].
  exact (repeated_upsert_is_unchanged Examples.t2 "2026-02-03T10:00:00.000Z"
           Examples.passedEvent (Examples.stored_once Examples.baseEvent)
           Examples2.passed_result Examples2.stored_twice H1 H2 H3).
Defined.

End StoreFacts.

(* ================================================================= *)
(** * More on texts and on the classifier *)

Section TextFacts.
Import JS.
Import Props.
Import Props2.
Local Open Scope list_scope.

Lemma trimEnd_idempotent s : trimEnd (trimEnd s) = trimEnd s.
Proof.
  induction s as [|c s IH]; [reflexivity|]. cbn [trimEnd].
  destruct (trimEnd s) as [|a t] eqn:E.
  - destruct (is_space c) eqn:Hc; [reflexivity|]. cbn [trimEnd]. rewrite Hc. reflexivity.
  - cbn [trimEnd]. cbn [trimEnd] in IH. rewrite IH. reflexivity.
Qed.

Lemma trimEnd_head c s :
  is_space c = false -> exists t, trimEnd (String c s) = String c t.
Proof.
  intro Hc. cbn [trimEnd]. destruct (trimEnd s); [rewrite Hc|]; eauto.
Qed.

Lemma trimStart_head s :
  trimStart s = EmptyString
  \/ exists c t, trimStart s = String c t /\ is_space c = false.
Proof.
  induction s as [|c s IH]; [left; reflexivity|]. cbn [trimStart].
  destruct (is_space c) eqn:Hc; [exact IH|]. right. eauto.
Qed.

Lemma trim_idempotent s : trim (trim s) = trim s.
Proof.
  unfold trim. destruct (trimStart_head s) as [E|(c & t & E & Hc)]; rewrite E.
  - reflexivity.
  - destruct (trimEnd_head c t Hc) as [t' Ht]. rewrite Ht.
    cbn [trimStart]. rewrite Hc, <- Ht. apply trimEnd_idempotent.
Qed.

Lemma trimmed_trim s : truthy (trim s) = true -> trimmed (trim s).
Proof.
  intro H. split; [intro E; rewrite E in H; discriminate|apply trim_idempotent].
Qed.

Lemma slice0_all s : slice0 (String.length s) s = s.
Proof. induction s as [|c s IH]; [reflexivity|]. cbn. rewrite IH. reflexivity. Qed.

Lemma slice0_length n s : String.length (slice0 n s) <= n.
Proof.
  revert s. induction n as [|n IH]; intro s; [reflexivity|].
  destruct s as [|c s]; cbn [slice0 String.length]; [lia|].
  specialize (IH s). lia.
Qed.

Lemma drop_length n s : String.length (drop n s) = String.length s - n.
Proof.
  revert s. induction n as [|n IH]; intro s; cbn [drop]; [lia|].
  destruct s as [|c s]; cbn [String.length]; [reflexivity|apply IH].
Qed.

Lemma ends_with_drop c n s : ends_with c (drop n s) = true -> ends_with c s = true.
Proof.
  revert s. induction n as [|n IH]; intro s; cbn [drop]; [trivial|].
  destruct s as [|x s]; [trivial|]. intro H. specialize (IH s H).
  cbn [ends_with]. destruct s; [discriminate|exact IH].
Qed.

(** A greedy run of any characters before a continuation that accepts
    the one-character text [c] only. *)
Lemma star_any_before_last (R : Type) (c : ascii) (k : string -> option R) (s : string) :
  (forall t, t <> String c EmptyString -> k t = None) ->
  star_greedy any_char k s
  = if ends_with c s then k (String c EmptyString) else None.
Proof.
  intro Hk. induction s as [|x s IH].
  - cbn. apply Hk. discriminate.
  - cbn [star_greedy any_char]. rewrite IH. cbn [ends_with].
    destruct s as [|y s].
    + cbn [ends_with]. destruct (Ascii.eqb_spec x c) as [->|Hne].
      * reflexivity.
      * apply Hk. congruence.
    + destruct (ends_with c (String y s)).
      * destruct (k (String c EmptyString)); [reflexivity|].
        apply Hk. discriminate.
      * apply Hk. discriminate.
Qed.

(** The pattern of [parseResponseJson]: an opening brace, any
    characters, a closing brace, the end of the text. *)
Lemma match_here_braces s :
  match_here false
    (Cat (Chr Analyzer.lbrace)
       (Cat (Star any_char) (Cat (Chr Analyzer.rbrace) Eos))) s
  = match s with
    | String x s' =>
        if Ascii.eqb Analyzer.lbrace x && ends_with Analyzer.rbrace s'
        then Some (String.length s, None) else None
    | EmptyString => None
    end.
Proof.
  unfold match_here. cbn [rmatch].
  destruct s as [|x s']; [reflexivity|]. cbn [chr_eqb].
  destruct (Ascii.eqb Analyzer.lbrace x); cbn [andb]; [|reflexivity].
  rewrite (star_any_before_last _ Analyzer.rbrace).
  - destruct (ends_with Analyzer.rbrace s'); [|reflexivity].
    cbn. reflexivity.
  - intros t Ht. destruct t as [|y r]; [reflexivity|].
    cbn [chr_eqb]. destruct (Ascii.eqb_spec Analyzer.rbrace y) as [E|E]; [|reflexivity].
    destruct r; [subst; congruence|reflexivity].
Qed.

Lemma exec_braces s :
  forall i,
    exec_from false
      (Cat (Chr Analyzer.lbrace)
         (Cat (Star any_char) (Cat (Chr Analyzer.rbrace) Eos))) i s
    = match Analyzer.indexOf_char Analyzer.lbrace s with
      | Some first =>
          if ends_with Analyzer.rbrace (drop (S first) s)
          then Some {| m_index := i + first; m_text := drop first s; m_group := None |}
          else None
      | None => None
      end.
Proof.
  induction s as [|x s IH]; intro i; [reflexivity|].
  cbn [exec_from]. rewrite match_here_braces.
  cbn [Analyzer.indexOf_char]. rewrite (Ascii.eqb_sym x Analyzer.lbrace).
  destruct (Ascii.eqb Analyzer.lbrace x) eqn:Hx; cbn [andb].
  - cbn [drop]. destruct (ends_with Analyzer.rbrace s) eqn:He.
    + rewrite slice0_all, Nat.add_0_r. reflexivity.
    + rewrite IH. destruct (Analyzer.indexOf_char Analyzer.lbrace s) as [f|]; [|reflexivity].
      destruct (ends_with Analyzer.rbrace (drop (S f) s)) eqn:Hd; [|reflexivity].
      apply ends_with_drop in Hd. congruence.
  - rewrite IH. destruct (Analyzer.indexOf_char Analyzer.lbrace s) as [f|]; [|reflexivity].
    cbn [drop]. rewrite Nat.add_succ_r. reflexivity.
Qed.

Lemma lastIndexOf_ends c s :
  ends_with c s = true ->
  exists last, Analyzer.lastIndexOf_char c s = Some last /\ S last = String.length s.
Proof.
  induction s as [|x s IH]; [discriminate|]. intro H.
  cbn [Analyzer.lastIndexOf_char String.length]. cbn [ends_with] in H.
  destruct s as [|y s].
  - cbn. rewrite H. exists 0. split; reflexivity.
  - destruct (IH H) as (last & -> & Hl). exists (S last). split; [reflexivity|].
    rewrite Hl. reflexivity.
Qed.

End TextFacts.

Section ClassifierFacts.
Import JS.
Import Props.
Import Props2.
Local Open Scope list_scope.

(** [parseResponseJson] reads the text from its first opening brace to
    its end, and only when the text ends with a closing brace after
    that opening brace: an answer followed by anything after its last
    brace is not parsed, and the second attempt of the function, on
    the text between the first opening and the last closing brace,
    parses what the first attempt parsed. *)
Theorem parseResponseJson_reads_from_the_first_brace_to_the_end :
  forall (JSON_parse : string -> option Analyzer.jsvalue) (content : string),
    Analyzer.parseResponseJson JSON_parse content
    = match Analyzer.indexOf_char Analyzer.lbrace content with
      | Some first =>
          if ends_with Analyzer.rbrace (drop (S first) content)
          then JSON_parse (drop first content)
          else None
      | None => None
      end.
Proof.
  intros JSON_parse content. unfold Analyzer.parseResponseJson, exec.
  rewrite exec_braces.
  destruct (Analyzer.indexOf_char Analyzer.lbrace content) as [first|] eqn:Hf;
    [|reflexivity].
  destruct (ends_with Analyzer.rbrace (drop (S first) content)) eqn:He; [|reflexivity].
  cbn [m_text].
  destruct (JSON_parse (drop first content)) as [v|] eqn:Hp; [reflexivity|].
  destruct (lastIndexOf_ends _ _ (ends_with_drop _ _ _ He)) as (last & -> & Hl).
  destruct (last <=? first)%nat; [reflexivity|].
  rewrite Hl, <- (drop_length first content), slice0_all. exact Hp.
Qed.

(** A raw stage that names a stage, whatever its letter case and with
    white space for the underscore, is normalized to that stage; the
    patterns of the fallback are not consulted. *)
Theorem normalizeStage_reads_stage_names :
  forall (rawStage : string) (s : Db.Stage),
    stage_candidate rawStage = Db.stage_name s ->
    Analyzer.normalizeStage rawStage = s.
Proof.
  intros rawStage s H. unfold Analyzer.normalizeStage.
  change (replaceAll false (Plus Analyzer.space_class) "_" (toLowerCase rawStage))
    with (stage_candidate rawStage).
  rewrite H. destruct s; reflexivity.
Qed.

(** A stage name in mixed case, with two spaces for the underscore. *)
Lemma normalizeStage_witness :
  stage_candidate "Committee  Review" = Db.stage_name Db.committee_review
  /\ Analyzer.normalizeStage "Committee  Review" = Db.committee_review.
Proof.
  assert (H : stage_candidate "Committee  Review" = Db.stage_name Db.committee_review).
  { vm_compute. reflexivity. }
  split; [exact H|].
  exact (normalizeStage_reads_stage_names "Committee  Review" Db.committee_review H).
Defined.

Lemma In_firstn_of (A : Type) n (l : list A) x : In x (firstn n l) -> In x l.
Proof.
  revert l. induction n as [|n IH]; intros l H; [destruct H|].
  destruct l as [|y l]; [destruct H|]. destruct H as [->|H]; [left; reflexivity|].
  right. apply IH. exact H.
Qed.

Lemma sanitizeStringList_facts (input : Analyzer.jsvalue) :
  List.length (Analyzer.sanitizeStringList input) <= 20
  /\ Forall trimmed (Analyzer.sanitizeStringList input).
Proof.
  split.
  - destruct input; cbn [Analyzer.sanitizeStringList List.length]; try lia.
    apply firstn_le_length.
  - destruct input; cbn [Analyzer.sanitizeStringList]; try constructor.
    apply Forall_forall. intros x Hx. apply In_firstn_of in Hx.
    apply filter_In in Hx as [Hx Ht]. apply in_map_iff in Hx as (y & <- & _).
    apply trimmed_trim. exact Ht.
Qed.

(** [sanitizeStringList] answers with at most 20 texts, each of them
    trimmed and not empty, and with the empty list for anything that
    is not an array. *)
Theorem sanitizeStringList_is_bounded_and_trimmed :
  forall input : Analyzer.jsvalue,
    List.length (Analyzer.sanitizeStringList input) <= 20
    /\ Forall trimmed (Analyzer.sanitizeStringList input)
    /\ match input with
       | Analyzer.JArray _ => True
       | _ => Analyzer.sanitizeStringList input = []
       end.
Proof.
  intro input.
  destruct (sanitizeStringList_facts input) as [Hl Ht].
  split; [exact Hl|]. split; [exact Ht|].
  destruct input; try reflexivity.
Qed.

(** Whatever the service answers, an analysis the classifier returns
    has a summary and a business impact that are not empty, from 1 to
    20 affected products, and at most 20 required solutions and 20
    competitor responses. *)
Theorem analysis_is_never_blank :
  forall (JSON_parse : string -> option Analyzer.jsvalue)
         (ToNumber : Analyzer.jsvalue -> number)
         (item : Items.CrawledItem) (apiKey : option string)
         (response : Analyzer.ServiceOutcome) (a : Analyzer.AnalyzedItem),
    Analyzer.analyzeCrawledItem JSON_parse ToNumber item apiKey response = Ok a ->
    Analyzer.summary a <> EmptyString
    /\ Analyzer.businessImpact a <> EmptyString
    /\ 1 <= List.length (Analyzer.affectedMetaProducts a) <= 20
    /\ List.length (Analyzer.requiredSolutions a) <= 20
    /\ List.length (Analyzer.competitorResponses a) <= 20.
Proof.
  intros JSON_parse ToNumber item apiKey response a.
  unfold Analyzer.analyzeCrawledItem.
  destruct (negb match apiKey with Some k => truthy k | None => false end).
  { intro H. inversion H; subst a.
    cbn [Analyzer.analyzePayloadDefaults Analyzer.summary Analyzer.businessImpact
         Analyzer.affectedMetaProducts Analyzer.requiredSolutions
         Analyzer.competitorResponses List.length].
    repeat split; try lia; discriminate. }
  destruct response as [reason|st stText body|reason|payload]; try discriminate.
  destruct (negb (truthy (Analyzer.extractTextFromModelResponse payload)));
    [discriminate|].
  destruct (Analyzer.parseResponseJson JSON_parse
              (Analyzer.extractTextFromModelResponse payload)) as [parsed|];
    [|discriminate].
  destruct (negb (Analyzer.truthy_value parsed)); [discriminate|].
  intro H. inversion H; subst a. clear H.
  cbn [Analyzer.summary Analyzer.businessImpact Analyzer.affectedMetaProducts
       Analyzer.requiredSolutions Analyzer.competitorResponses].
  split.
  { destruct (Analyzer.prop parsed "summary") as [ | |b|n|s|l|f];
      try discriminate.
    destruct (truthy (trim s)) eqn:E; [|discriminate].
    intro K. rewrite K in E. discriminate. }
  split.
  { destruct (Analyzer.prop parsed "businessImpact") as [ | |b|n|s|l|f];
      try discriminate.
    destruct (truthy (trim s)) eqn:E; [|discriminate].
    intro K. rewrite K in E. discriminate. }
  split.
  { destruct (sanitizeStringList_facts
                (Analyzer.prop parsed "affectedMetaProducts")) as [Hl _].
    destruct (Analyzer.sanitizeStringList (Analyzer.prop parsed "affectedMetaProducts"));
      cbn [List.length] in *; lia. }
  split; apply sanitizeStringList_facts.
Qed.

(** The example item with the example answer of the service. *)
Lemma analysis_witness :
  Analyzer.analyzeCrawledItem Examples.example_JSON_parse Examples.example_ToNumber
    Examples.example_item (Some "secret") (Analyzer.ResponseJson Examples.example_payload)
  = Ok Examples2.example_analysis
  /\ Analyzer.summary Examples2.example_analysis <> EmptyString
  /\ Analyzer.businessImpact Examples2.example_analysis <> EmptyString
  /\ 1 <= List.length (Analyzer.affectedMetaProducts Examples2.example_analysis) <= 20
  /\ List.length (Analyzer.requiredSolutions Examples2.example_analysis) <= 20
  /\ List.length (Analyzer.competitorResponses Examples2.example_analysis) <= 20.
Proof.
  assert (H : Analyzer.analyzeCrawledItem Examples.example_JSON_parse
                Examples.example_ToNumber Examples.example_item (Some "secret")
                (Analyzer.ResponseJson Examples.example_payload)
              = Ok Examples2.example_analysis).
  { vm_compute. reflexivity. }
  split; [exact H|].
  exact (analysis_is_never_blank Examples.example_JSON_parse Examples.example_ToNumber
           Examples.example_item (Some "secret")
           (Analyzer.ResponseJson Examples.example_payload)
           Examples2.example_analysis H).
Defined.

End ClassifierFacts.

(* ================================================================= *)
(** * The crawl *)

Section CrawlFacts.
Import JS.
Import Props.
Import Props2.
Import Crawl.
Local Open Scope list_scope.

Lemma truthy_not_empty s : truthy s = true <-> s <> EmptyString.
Proof. destruct s; cbn; split; intro H; congruence. Qed.

Lemma long_is_not_empty s n : (String.length s <? S n)%nat = false -> s <> EmptyString.
Proof. intros H E. subst s. discriminate. Qed.

Lemma parseWebPage_length sourceText source :
  List.length (parseWebPage sourceText source) <= 1.
Proof.
  unfold parseWebPage.
  match goal with
  | |- context [if ?c then [] else _] => destruct c
  end; cbn; lia.
Qed.

(** A page gives at most one item: it has the url of the source and no
    publication date, its raw text is not empty, and its summary is
    the first 500 characters of the raw text. *)
Theorem parseWebPage_gives_at_most_one_item :
  forall (sourceText : string) (source : Sources.SourceRecord),
    List.length (parseWebPage sourceText source) <= 1
    /\ Forall (page_item source) (parseWebPage sourceText source).
Proof.
  intros sourceText source. unfold parseWebPage.
  match goal with
  | |- context [if ?c then [] else _] => destruct c
  end; [split; [cbn; lia|constructor]|].
  split; [cbn; lia|]. constructor; [|constructor].
  unfold page_item.
  cbn [Items.ci_url Items.ci_publishedAt Items.ci_rawText Items.ci_summary].
  split; [reflexivity|]. split; [reflexivity|]. split.
  - match goal with
    | |- context [(String.length ?b <? 200)%nat] =>
        destruct (String.length b <? 200)%nat eqn:E
    end; [discriminate|].
    apply (long_is_not_empty _ 199). exact E.
  - split; [reflexivity|apply slice0_length].
Qed.

Lemma parseFeedText_length resolve text url :
  List.length (Crawler.parseFeedText resolve text url) <= 5.
Proof.
  unfold Crawler.parseFeedText.
  rewrite feed_loop_refines by (cbn; unfold Crawler.MAX_ITEMS_PER_FEED; lia).
  apply firstn_le_length.
Qed.

(** What [crawlSource] answers carries the id of the source and counts
    its own items; an answer with an error has no item; a kind that is
    not supported is answered without any request; a source that is
    not a search gives at most 5 items. *)
Theorem crawlSource_counts_what_it_returns :
  forall (net : Network) (source : Sources.SourceRecord),
    run_sourceId (crawlSource net source) = Sources.id source
    /\ run_itemCount (crawlSource net source)
       = List.length (run_items (crawlSource net source))
    /\ (run_error (crawlSource net source) <> None ->
        run_items (crawlSource net source) = [])
    /\ (isAllowedKind (Sources.kind source) = false ->
        crawlSource net source
        = failed_run source ("Unsupported source kind: " ++ Sources.kind source))
    /\ (is_twitter source = false ->
        List.length (run_items (crawlSource net source)) <= 5).
Proof.
  intros net source. unfold crawlSource, is_twitter.
  destruct (isAllowedKind (Sources.kind source)); cbn [negb].
  2:{ cbn. repeat split; try reflexivity; try lia. }
  destruct (String.eqb (Sources.kind source) "twitter_search").
  - destruct (X_BEARER_TOKEN net) as [token|];
      [destruct (negb (truthy token));
       [|destruct (crawlTwitterRecentSearch net source token)]|];
      cbn; repeat split; try reflexivity; try congruence; try discriminate.
  - destruct (fetchWithTimeout net (Sources.url source)) as [payload|e].
    + cbn [succeeded_run run_sourceId run_itemCount run_error run_items].
      split; [reflexivity|]. split; [reflexivity|].
      split; [congruence|]. split; [discriminate|]. intros _.
      destruct (String.eqb (Sources.kind source) "webpage").
      * pose proof (parseWebPage_length payload source). lia.
      * apply parseFeedText_length.
    + cbn. repeat split; try reflexivity; try congruence; try discriminate; lia.
Qed.

Lemma dedupe_loop_In keys items it :
  In it (dedupe_loop keys items) -> In it items /\ ~ In (crawl_key it) keys.
Proof.
  revert keys. induction items as [|x items IH]; intros keys H; [destruct H|].
  cbn [dedupe_loop] in H. destruct (mem (crawl_key x) keys) eqn:Hm.
  - destruct (IH _ H) as [A B]. split; [right; exact A|exact B].
  - destruct H as [->|H].
    + split; [left; reflexivity|]. intro K. apply mem_In in K. congruence.
    + destruct (IH _ H) as [A B]. split; [right; exact A|].
      intro K. apply B. right. exact K.
Qed.

Lemma dedupe_loop_NoDup keys items :
  NoDup (map crawl_key (dedupe_loop keys items)).
Proof.
  revert keys. induction items as [|x items IH]; intro keys; [constructor|].
  cbn [dedupe_loop]. destruct (mem (crawl_key x) keys); [apply IH|].
  cbn [map]. constructor; [|apply IH].
  intro K. apply in_map_iff in K as (y & E & Hy).
  destruct (dedupe_loop_In _ _ _ Hy) as [_ B]. apply B. left. symmetry. exact E.
Qed.

Lemma dedupe_loop_complete keys items it :
  In it items ->
  In (crawl_key it) keys
  \/ exists kept, In kept (dedupe_loop keys items) /\ crawl_key kept = crawl_key it.
Proof.
  revert keys. induction items as [|x items IH]; intros keys H; [destruct H|].
  cbn [dedupe_loop]. destruct (mem (crawl_key x) keys) eqn:Hm.
  - destruct H as [->|H]; [left; apply mem_In; exact Hm|apply IH; exact H].
  - destruct H as [->|H].
    + right. exists it. split; [left; reflexivity|reflexivity].
    + destruct (IH (crawl_key x :: keys) H) as [[K|K]|(kept & A & B)].
      * right. exists x. split; [left; reflexivity|exact K].
      * left. exact K.
      * right. exists kept. split; [right; exact A|exact B].
Qed.

Lemma dedupe_loop_first keys items it :
  In it (dedupe_loop keys items) ->
  exists before after,
    items = before ++ it :: after
    /\ forall x, In x before -> crawl_key x <> crawl_key it.
Proof.
  revert keys. induction items as [|x items IH]; intros keys H; [destruct H|].
  cbn [dedupe_loop] in H. destruct (mem (crawl_key x) keys) eqn:Hm.
  - destruct (IH _ H) as (before & after & E & F).
    exists (x :: before), after. split; [rewrite E; reflexivity|].
    intros y [<-|Hy]; [|apply F; exact Hy].
    destruct (dedupe_loop_In _ _ _ H) as [_ B]. intro K. apply B.
    rewrite <- K. apply mem_In. exact Hm.
  - destruct H as [->|H].
    + exists [], items. split; [reflexivity|]. intros y [].
    + destruct (IH _ H) as (before & after & E & F).
      exists (x :: before), after. split; [rewrite E; reflexivity|].
      intros y [<-|Hy]; [|apply F; exact Hy].
      destruct (dedupe_loop_In _ _ _ H) as [_ B]. intro K. apply B. left. exact K.
Qed.

Lemma dedupe_loop_distinct keys items :
  NoDup (map crawl_key items) ->
  (forall x, In x items -> ~ In (crawl_key x) keys) ->
  dedupe_loop keys items = items.
Proof.
  revert keys. induction items as [|x items IH]; intros keys Hnd Hk; [reflexivity|].
  cbn [dedupe_loop]. inversion Hnd as [|? ? Hx Hnd']; subst.
  destruct (mem (crawl_key x) keys) eqn:Hm.
  - exfalso. apply (Hk x); [left; reflexivity|apply mem_In; exact Hm].
  - f_equal. apply IH; [exact Hnd'|].
    intros y Hy [K|K].
    + apply Hx. rewrite K. apply in_map. exact Hy.
    + apply (Hk y); [right; exact Hy|exact K].
Qed.

(** [dedupeCrawledItems] keeps, of the items of each key, the one met
    first: no two items kept have the same key, every item kept is an
    item given with no item of its key before it, every item given has
    its key among the items kept, and items of distinct keys are all
    kept. *)
Theorem dedupeCrawledItems_keeps_the_first_of_each_key :
  forall items : list Items.CrawledItem,
    NoDup (map crawl_key (dedupeCrawledItems items))
    /\ (forall it,
           In it (dedupeCrawledItems items) ->
           exists before after,
             items = before ++ it :: after
             /\ forall x, In x before -> crawl_key x <> crawl_key it)
    /\ (forall it,
           In it items ->
           exists kept,
             In kept (dedupeCrawledItems items) /\ crawl_key kept = crawl_key it)
    /\ (NoDup (map crawl_key items) -> dedupeCrawledItems items = items).
Proof.
  intro items. unfold dedupeCrawledItems.
  split; [apply dedupe_loop_NoDup|].
  split; [intros it H; apply (dedupe_loop_first [] items it H)|].
  split.
  - intros it H. destruct (dedupe_loop_complete [] items it H) as [[]|K]. exact K.
  - intro Hnd. apply dedupe_loop_distinct; [exact Hnd|]. intros x _ [].
Qed.

Lemma attach_In net source inputs item :
  In item (attach net source inputs) ->
  Items.source item = source
  /\ Items.url item <> EmptyString
  /\ trim (Items.title item) = Items.title item
  /\ Items.provenanceLinks item
     = non_empty [Sources.url (Items.source item); Items.url item].
Proof.
  unfold attach. intro H. apply in_flat_map in H as (input & _ & H).
  destruct (truthy (Crawler.normalizeUrl (URL_resolve net) (Items.ci_url input)
                      (Sources.url source))) eqn:E; cbn [negb] in H; [|destruct H].
  destruct H as [<-|[]].
  cbn [Items.source Items.url Items.title Items.provenanceLinks].
  split; [reflexivity|]. split; [apply truthy_not_empty; exact E|].
  split; [apply trim_idempotent|reflexivity].
Qed.

Lemma fst_file_runs net sources run rest :
  fst (file_runs net sources (run :: rest))
  = match find (fun entry => String.eqb (Sources.id entry) (run_sourceId run)) sources with
    | None => fst (file_runs net sources rest)
    | Some source => attach net source (run_items run) ++ fst (file_runs net sources rest)
    end.
Proof.
  cbn [file_runs]. destruct (file_runs net sources rest) as [items results].
  destruct (find _ sources); reflexivity.
Qed.

Lemma snd_file_runs net sources run rest :
  snd (file_runs net sources (run :: rest))
  = match find (fun entry => String.eqb (Sources.id entry) (run_sourceId run)) sources with
    | None => snd (file_runs net sources rest)
    | Some source => result_of run :: snd (file_runs net sources rest)
    end.
Proof.
  cbn [file_runs]. destruct (file_runs net sources rest) as [items results].
  destruct (find _ sources); reflexivity.
Qed.

Lemma fst_file_searches net source rest :
  fst (file_searches net (source :: rest))
  = attach net source (run_items (crawlSource net source))
    ++ fst (file_searches net rest).
Proof.
  cbn [file_searches]. destruct (file_searches net rest). reflexivity.
Qed.

Lemma snd_file_searches net source rest :
  snd (file_searches net (source :: rest))
  = result_of (crawlSource net source) :: snd (file_searches net rest).
Proof.
  cbn [file_searches]. destruct (file_searches net rest). reflexivity.
Qed.

Lemma crawlSource_id net source :
  run_sourceId (crawlSource net source) = Sources.id source.
Proof.
  unfold crawlSource.
  destruct (negb (isAllowedKind (Sources.kind source))); [reflexivity|].
  destruct (String.eqb (Sources.kind source) "twitter_search").
  - destruct (X_BEARER_TOKEN net) as [token|]; [|reflexivity].
    destruct (negb (truthy token)); [reflexivity|].
    destruct (crawlTwitterRecentSearch net source token); reflexivity.
  - destruct (fetchWithTimeout net (Sources.url source)); reflexivity.
Qed.

Lemma file_runs_results net sources l :
  incl l sources ->
  snd (file_runs net sources (map (crawlSource net) l))
  = map (fun source => result_of (crawlSource net source)) l.
Proof.
  induction l as [|s l IH]; intro Hincl; [reflexivity|].
  cbn [map]. rewrite snd_file_runs, crawlSource_id.
  destruct (find (fun entry => String.eqb (Sources.id entry) (Sources.id s)) sources)
    as [found|] eqn:Hf.
  - rewrite IH; [reflexivity|]. intros x Hx. apply Hincl. right. exact Hx.
  - exfalso. assert (Hs : In s sources) by (apply Hincl; left; reflexivity).
    pose proof (find_none _ _ Hf s Hs) as K. cbn beta in K.
    rewrite String.eqb_refl in K. discriminate.
Qed.

Lemma file_runs_items net sources runs item :
  In item (fst (file_runs net sources runs)) ->
  crawled_item sources item.
Proof.
  induction runs as [|run rest IH]; intro H; [destruct H|].
  rewrite fst_file_runs in H.
  destruct (find (fun entry => String.eqb (Sources.id entry) (run_sourceId run)) sources)
    as [found|] eqn:Hf; [|apply IH; exact H].
  apply in_app_or in H as [H|H]; [|apply IH; exact H].
  destruct (attach_In _ _ _ _ H) as (A & B & C & D).
  split; [rewrite A; apply (find_some _ _ Hf)|]. split; [exact B|]. split; assumption.
Qed.

Lemma file_searches_results net l :
  snd (file_searches net l) = map (fun source => result_of (crawlSource net source)) l.
Proof.
  induction l as [|s l IH]; [reflexivity|].
  rewrite snd_file_searches, IH. reflexivity.
Qed.

Lemma file_searches_items net sources l item :
  incl l sources ->
  In item (fst (file_searches net l)) ->
  crawled_item sources item.
Proof.
  induction l as [|s l IH]; intros Hincl H; [destruct H|].
  rewrite fst_file_searches in H.
  apply in_app_or in H as [H|H].
  - destruct (attach_In _ _ _ _ H) as (A & B & C & D).
    split; [rewrite A; apply Hincl; left; reflexivity|]. split; [exact B|].
    split; assumption.
  - apply IH; [|exact H]. intros x Hx. apply Hincl. right. exact Hx.
Qed.

Lemma crawlSources_unfold net sources :
  crawlSources net sources
  = {| Items.items :=
         dedupeCrawledItems
           (fst (file_runs net sources
                   (map (crawlSource net)
                        (filter (fun source => negb (is_twitter source)) sources)))
            ++ fst (file_searches net (filter is_twitter sources)));
       Items.sourceResults :=
         snd (file_runs net sources
                (map (crawlSource net)
                     (filter (fun source => negb (is_twitter source)) sources)))
         ++ snd (file_searches net (filter is_twitter sources)) |}.
Proof.
  unfold crawlSources.
  destruct (file_runs net sources _) as [items1 results1].
  destruct (file_searches net _) as [items2 results2]. reflexivity.
Qed.

Lemma crawl_order_length sources :
  List.length (crawl_order sources) = List.length sources.
Proof.
  unfold crawl_order. rewrite length_app.
  induction sources as [|s l IH]; [reflexivity|].
  cbn [filter]. destruct (is_twitter s); simpl; lia.
Qed.

Lemma crawlSources_results_length net sources :
  List.length (Items.sourceResults (crawlSources net sources)) = List.length sources.
Proof.
  rewrite crawlSources_unfold. cbn [Items.sourceResults].
  rewrite file_runs_results, file_searches_results.
  - rewrite <- map_app, length_map. apply crawl_order_length.
  - intros x Hx. apply filter_In in Hx. apply Hx.
Qed.

(** A crawl answers for every source it is given, once each: the
    sources that are not searches in their order, then the searches,
    each with the error and the item count of its own run.  Every item
    of the crawl is filed under one of those sources, has a url, a
    trimmed title and the provenance links of its source and its own
    url, and no two items have the same key. *)
Theorem crawlSources_answers_for_every_source :
  forall (net : Network) (sources : list Sources.SourceRecord),
    Items.sourceResults (crawlSources net sources)
    = map (fun source => result_of (crawlSource net source)) (crawl_order sources)
    /\ map Items.sourceId (Items.sourceResults (crawlSources net sources))
       = map Sources.id (crawl_order sources)
    /\ List.length (Items.sourceResults (crawlSources net sources))
       = List.length sources
    /\ Forall (crawled_item sources) (Items.items (crawlSources net sources))
    /\ NoDup (map crawl_key (Items.items (crawlSources net sources))).
Proof.
  intros net sources. rewrite crawlSources_unfold.
  cbn [Items.sourceResults Items.items].
  assert (Hres :
            snd (file_runs net sources
                   (map (crawlSource net)
                        (filter (fun source => negb (is_twitter source)) sources)))
            ++ snd (file_searches net (filter is_twitter sources))
            = map (fun source => result_of (crawlSource net source))
                  (crawl_order sources)).
  { rewrite file_runs_results, file_searches_results.
    - unfold crawl_order. rewrite map_app. reflexivity.
    - intros x Hx. apply filter_In in Hx. apply Hx. }
  split; [exact Hres|]. rewrite Hres. split.
  { rewrite map_map. apply map_ext. intro s. cbn [result_of Items.sourceId].
    apply crawlSource_id. }
  split.
  { rewrite length_map. apply crawl_order_length. }
  split.
  - apply Forall_forall. intros item Hitem.
    unfold dedupeCrawledItems in Hitem.
    apply dedupe_loop_In in Hitem as [Hitem _].
    apply in_app_or in Hitem as [H|H].
    + apply (file_runs_items _ _ _ _ H).
    + apply (file_searches_items net sources (filter is_twitter sources) item);
        [|exact H].
      intros x Hx. apply filter_In in Hx. apply Hx.
  - apply dedupe_loop_NoDup.
Qed.

End CrawlFacts.

(* ================================================================= *)
(** * More on the pass *)

Section KeepFacts.
Import JS.
Import Db.
Import Props.
Import Props2.
Import Ingest.
Local Open Scope list_scope.

Lemma keeps_ret (S A : Type) (P : S -> Prop) (a : A) : keeps P (@ret S A a).
Proof. intros s H. exact H. Qed.

Lemma keeps_throw (S A : Type) (P : S -> Prop) (e : thrown) : keeps P (@throw S A e).
Proof. intros s H. exact H. Qed.

Lemma keeps_gets (S A : Type) (P : S -> Prop) (f : S -> A) : keeps P (gets f).
Proof. intros s H. exact H. Qed.

Lemma keeps_modify (S : Type) (P : S -> Prop) (f : S -> S) :
  (forall s, P s -> P (f s)) -> keeps P (modify f).
Proof. intros Hf s H. apply Hf. exact H. Qed.

Lemma keeps_bind (S A B : Type) (P : S -> Prop) (m : M S A) (k : A -> M S B) :
  keeps P m -> (forall a, keeps P (k a)) -> keeps P (bind m k).
Proof.
  intros Hm Hk s H. unfold bind. specialize (Hm s H).
  destruct (m s) as [[a|e] s']; cbn [snd] in *; [apply Hk; exact Hm|exact Hm].
Qed.

Lemma keeps_try_catch (S A : Type) (P : S -> Prop) (m : M S A) (h : thrown -> M S A) :
  keeps P m -> (forall e, keeps P (h e)) -> keeps P (try_catch m h).
Proof.
  intros Hm Hh s H. unfold try_catch. specialize (Hm s H).
  destruct (m s) as [[a|e] s']; cbn [snd] in *; [exact Hm|apply Hh; exact Hm].
Qed.

Variable env : Environment.

Lemma keeps_for_each (A : Type) (P : Pass -> Prop) (f : A -> M Pass unit) (l : list A) :
  (forall x, keeps P (f x)) -> keeps P (for_each f l).
Proof.
  intro Hf. induction l as [|x l IH]; cbn [for_each]; [apply keeps_ret|].
  apply keeps_bind; [apply Hf|intros _; exact IH].
Qed.

Variable I : Database -> Prop.
Hypothesis upsert_keeps :
  forall now event, keeps I (upsertRegulationEvent now event).
Hypothesis ledger_free :
  forall db rows seq log, I db -> I (with_crawl_runs db rows seq log).

Lemma keeps_set_locals f : keeps (store_has I) (set_locals f).
Proof. apply keeps_modify. intros [w l] H. exact H. Qed.

Lemma keeps_locals (A : Type) (f : Locals -> A) : keeps (store_has I) (locals f).
Proof. apply keeps_gets. Qed.

Lemma keeps_record_outcome o : keeps (store_has I) (record_outcome o).
Proof. apply keeps_modify. intros [w l] H. exact H. Qed.

Lemma keeps_Date_now : keeps (store_has I) (Date_now env).
Proof. intros [w l] H. exact H. Qed.

Lemma keeps_on_store (A : Type) (m : M Database A) :
  keeps I m -> keeps (store_has I) (on_store m).
Proof.
  intros Hm [w l] H. unfold on_store. specialize (Hm (store w) H).
  destruct (m (store w)) as [r db]. exact Hm.
Qed.

Lemma keeps_createCrawlRun now : keeps I (createCrawlRun now).
Proof. intros db H. apply ledger_free. exact H. Qed.

Lemma keeps_finalizeCrawlRun now id values : keeps I (finalizeCrawlRun now id values).
Proof. intros db H. apply ledger_free. exact H. Qed.

Lemma keeps_upsertAnalysedItem item analysis :
  keeps (store_has I) (upsertAnalysedItem env item analysis).
Proof.
  unfold upsertAnalysedItem.
  destruct (negb (Analyzer.isRelevant analysis)); [apply keeps_ret|].
  destruct (isLowQualityAnalysis item analysis); [apply keeps_ret|].
  apply keeps_bind; [apply keeps_Date_now|]. intro now.
  apply keeps_bind; [apply keeps_on_store, upsert_keeps|]. intro r. apply keeps_ret.
Qed.

Lemma keeps_write_result result : keeps (store_has I) (write_result env result).
Proof.
  unfold write_result. apply keeps_bind; [apply keeps_set_locals|]. intros _.
  destruct result as [[item analysis]|reason].
  2:{ apply keeps_bind; [apply keeps_set_locals|]. intros _. apply keeps_record_outcome. }
  apply keeps_bind; [apply keeps_locals|]. intro seen.
  destruct (mem (buildDeduplicationKey item analysis) seen).
  { apply keeps_bind; [apply keeps_set_locals|]. intros _. apply keeps_record_outcome. }
  apply keeps_bind; [apply keeps_set_locals|]. intros _.
  apply keeps_try_catch.
  - apply keeps_bind; [apply keeps_upsertAnalysedItem|]. intro st.
    apply keeps_bind; [|intros _; apply keeps_record_outcome].
    destruct st; try apply keeps_set_locals. apply keeps_ret.
  - intro e. apply keeps_bind; [apply keeps_set_locals|]. intros _.
    apply keeps_record_outcome.
Qed.

Lemma keeps_count_source selected result :
  keeps (store_has I) (count_source selected result).
Proof.
  unfold count_source. destruct (find _ selected); [|apply keeps_ret].
  destruct (Items.error result) as [message|]; [destruct (truthy message)|];
    apply keeps_set_locals.
Qed.

Lemma keeps_pass_body selected runId startedAt :
  keeps (store_has I) (pass_body env selected runId startedAt).
Proof.
  unfold pass_body.
  apply keeps_bind; [intros s H; exact H|]. intro crawl.
  apply keeps_bind; [apply keeps_for_each; intro; apply keeps_count_source|]. intros _.
  apply keeps_bind.
  { apply keeps_for_each. intro batch. unfold process_batch.
    apply keeps_for_each. intro; apply keeps_write_result. }
  intros _.
  apply keeps_bind; [apply keeps_locals|]. intro failedCount.
  apply keeps_bind; [apply keeps_Date_now|]. intro finishedAt.
  apply keeps_bind; [apply keeps_locals|]. intro values.
  apply keeps_bind; [apply keeps_Date_now|]. intro now.
  apply keeps_bind; [apply keeps_on_store, keeps_finalizeCrawlRun|]. intros _.
  apply keeps_bind; [apply keeps_locals|]. intro l. apply keeps_ret.
Qed.

Lemma keeps_pass_failed runId e : keeps (store_has I) (pass_failed env runId e).
Proof.
  unfold pass_failed.
  apply keeps_bind; [apply keeps_Date_now|]. intro finishedAt.
  apply keeps_bind; [apply keeps_locals|]. intro values.
  apply keeps_bind; [apply keeps_Date_now|]. intro now.
  apply keeps_bind; [apply keeps_on_store, keeps_finalizeCrawlRun|]. intros _.
  destruct (instanceof_Error e); apply keeps_throw.
Qed.

Lemma keeps_run_pass options : keeps (store_has I) (run_pass env options).
Proof.
  unfold run_pass.
  apply keeps_bind; [apply keeps_Date_now|]. intro now.
  apply keeps_bind; [apply keeps_on_store, keeps_createCrawlRun|]. intro runId.
  apply keeps_bind; [apply keeps_Date_now|]. intro startedAt.
  apply keeps_try_catch; [apply keeps_pass_body|intro e; apply keeps_pass_failed].
Qed.

Lemma keeps_runIngestionPipeline options (w : World) :
  I (store w) -> I (store (snd (runIngestionPipeline env options w))).
Proof.
  intro H. rewrite runIngestionPipeline_run_pass. cbn [snd].
  apply (keeps_run_pass options (w, initial_locals)). exact H.
Qed.

End KeepFacts.

Section PassExtras.
Import JS.
Import Db.
Import DbRead.
Import Props.
Import Props2.
Import Ingest.
Local Open Scope list_scope.

(** A pass keeps the store well formed: distinct event ids, scores
    from 1 to 5, no empty summary or business impact, whatever the
    crawl and the classifier answer and whether the pass returns or
    throws. *)
Theorem pass_keeps_the_store_well_formed :
  forall (env : Environment) (options : Options) (w : World),
    schema_ok (store w) ->
    schema_ok (store (snd (runIngestionPipeline env options w))).
Proof.
  intros env options w H.
  apply (keeps_runIngestionPipeline env schema_ok); [| |exact H].
  - intros now event db Hdb.
    apply (upsert_preserves_schema now event db
             (fst (upsertRegulationEvent now event db)) _ Hdb).
    apply surjective_pairing.
  - intros db rows seq log Hdb. exact Hdb.
Qed.

(** The example pass over the empty store. *)
Lemma pass_keeps_the_store_well_formed_witness :
  schema_ok (store Examples.fresh_world)
  /\ schema_ok
       (store (snd (runIngestionPipeline
                      (Examples.example_env (Analyzer.ResponseJson Examples.example_payload))
                      Examples.no_options Examples.fresh_world))).
Proof.
  split; [exact empty_schema_ok|].
  exact (pass_keeps_the_store_well_formed
           (Examples.example_env (Analyzer.ResponseJson Examples.example_payload))
           Examples.no_options Examples.fresh_world empty_schema_ok).
Defined.

Lemma upsert_extends_history (history : list StatusChangeRow) now event :
  keeps (fun db => exists more, status_changes db = history ++ more)
        (upsertRegulationEvent now event).
Proof.
  intros db [more Hmore].
  destruct (upsertRegulationEvent now event db) as [res db'] eqn:H. cbn [snd].
  destruct (upsert_status_changes_id _ _ _ _ _ H) as [(x & p & _ & _ & _ & Hsc)|[_ Hsc]];
    rewrite Hsc, Hmore; [rewrite <- app_assoc|]; eauto.
Qed.

(** A pass deletes nothing it found: the events of the store are
    still there when it ends, in their order and with their id, title,
    jurisdiction, source and creation time, and the status history is
    the one it found with, at most, more changes after it. *)
Theorem pass_never_drops_an_event :
  forall (env : Environment) (options : Options) (w : World),
    extends_events (regulation_events (store w))
                   (store (snd (runIngestionPipeline env options w)))
    /\ exists more,
        status_changes (store (snd (runIngestionPipeline env options w)))
        = status_changes (store w) ++ more.
Proof.
  intros env options w. split.
  - apply (keeps_runIngestionPipeline env
             (extends_events (regulation_events (store w)))).
    + intros now event. apply upsert_extends_events.
    + intros db rows seq log Hdb. exact Hdb.
    + exists []. rewrite app_nil_r. reflexivity.
  - apply (keeps_runIngestionPipeline env
             (fun db => exists more, status_changes db = status_changes (store w) ++ more)).
    + intros now event. apply upsert_extends_history.
    + intros db rows seq log Hdb. exact Hdb.
    + exists []. rewrite app_nil_r. reflexivity.
Qed.

Lemma split_batches_concat (A : Type) (q : Q) (l : list A) :
  forall k i cur, List.concat (split_batches q k i cur l) = rev cur ++ l.
Proof.
  induction l as [|x l IH]; intros k i cur; cbn [split_batches].
  - cbn. rewrite app_nil_r. reflexivity.
  - destruct (i <? Qfloor (inject_Z (k + 1) * q))%Z.
    + rewrite IH. cbn [rev]. rewrite <- app_assoc. reflexivity.
    + cbn [List.concat]. rewrite IH. reflexivity.
Qed.

Lemma BATCH_SIZE_cases env :
  match ANALYSIS_CONCURRENCY env with
  | NaN => BATCH_SIZE env = NaN
  | _ => BATCH_SIZE env = PosInf \/ exists q, BATCH_SIZE env = Fin q
  end.
Proof.
  unfold BATCH_SIZE, Math_max.
  destruct (ANALYSIS_CONCURRENCY env) as [ | | |q].
  - reflexivity.
  - left. reflexivity.
  - right. eexists. reflexivity.
  - destruct (lt (of_Z 10) (Fin q)); right; eexists; reflexivity.
Qed.

Lemma batches_concat env (A : Type) (items : list A) :
  List.concat (batches (BATCH_SIZE env) items)
  = match ANALYSIS_CONCURRENCY env with
    | NaN => []
    | _ => items
    end.
Proof.
  pose proof (BATCH_SIZE_cases env) as H. unfold batches.
  destruct items as [|x items]; [destruct (ANALYSIS_CONCURRENCY env); reflexivity|].
  destruct (ANALYSIS_CONCURRENCY env) as [ | | |q].
  - rewrite H. reflexivity.
  - destruct H as [->|[q' ->]]; [cbn; rewrite app_nil_r; reflexivity|].
    apply (split_batches_concat _ q' (x :: items) 0%Z 0%Z []).
  - destruct H as [->|[q' ->]]; [cbn; rewrite app_nil_r; reflexivity|].
    apply (split_batches_concat _ q' (x :: items) 0%Z 0%Z []).
  - destruct H as [->|[q' ->]]; [cbn; rewrite app_nil_r; reflexivity|].
    apply (split_batches_concat _ q' (x :: items) 0%Z 0%Z []).
Qed.


Lemma count_source_step selected x (w : World) (l : Locals) :
  exists l1,
    count_source selected x (w, l) = (Ok tt, (w, l1))
    /\ sourcesFailed l1
       = (sourcesFailed l + if reports_failure selected x then 1 else 0)%Z
    /\ sourcesSuccess l1
       = (sourcesSuccess l + if reports_success selected x then 1 else 0)%Z
    /\ sourceErrors l1
       = sourceErrors l ++ (if reports_failure selected x then [error_entry x] else [])
    /\ itemsDiscovered l1 = itemsDiscovered l
    /\ eventsCreated l1 = eventsCreated l
    /\ eventsUpdated l1 = eventsUpdated l
    /\ eventsStatusChanged l1 = eventsStatusChanged l
    /\ eventsIgnored l1 = eventsIgnored l.
Proof.
  unfold count_source, reports_failure, reports_success, error_entry.
  rewrite find_existsb.
  destruct (find (fun entry => String.eqb (Sources.id entry) (Items.sourceId x))
                 selected) as [source|] eqn:Hf.
  - assert (Hid : Sources.id source = Items.sourceId x).
    { apply find_some in Hf. apply String.eqb_eq. apply Hf. }
    destruct (Items.error x) as [message|]; [destruct (truthy message)|];
      eexists; (split; [reflexivity|]); simpl;
      rewrite ?Hid, ?app_nil_r; repeat split; try reflexivity; lia.
  - eexists. split; [reflexivity|]. simpl. rewrite app_nil_r.
    repeat split; try reflexivity; lia.
Qed.

Lemma count_sources_full selected results (w : World) :
  forall l : Locals,
  exists l',
    for_each (count_source selected) results (w, l) = (Ok tt, (w, l'))
    /\ sourcesFailed l'
       = (sourcesFailed l
          + Z.of_nat (List.length (filter (reports_failure selected) results)))%Z
    /\ sourcesSuccess l'
       = (sourcesSuccess l
          + Z.of_nat (List.length (filter (reports_success selected) results)))%Z
    /\ sourceErrors l'
       = sourceErrors l ++ map error_entry (filter (reports_failure selected) results)
    /\ itemsDiscovered l' = itemsDiscovered l
    /\ eventsCreated l' = eventsCreated l
    /\ eventsUpdated l' = eventsUpdated l
    /\ eventsStatusChanged l' = eventsStatusChanged l
    /\ eventsIgnored l' = eventsIgnored l.
Proof.
  induction results as [|x results IH]; intro l.
  - exists l. split; [reflexivity|]. cbn. rewrite app_nil_r.
    repeat split; lia.
  - destruct (count_source_step selected x w l)
      as (l1 & H1 & F1 & S1 & E1 & N1 & C1 & U1 & T1 & G1).
    destruct (IH l1) as (l' & H & F & S & E & N & C & U & T & G).
    exists l'. cbn [for_each]. unfold bind. rewrite H1.
    split; [exact H|].
    rewrite F, S, E, N, C, U, T, G, F1, S1, E1, N1, C1, U1, T1, G1.
    cbn [filter].
    destruct (reports_failure selected x), (reports_success selected x);
      cbn [List.length map]; rewrite ?Nat2Z.inj_succ, <- ?app_assoc, ?app_nil_r;
      repeat split; try reflexivity; lia.
Qed.

Lemma pass_body_summary env selected runId startedAt (w : World) crawl :
  crawlSources env selected = Ok crawl ->
  exists s p',
    pass_body env selected runId startedAt (w, initial_locals) = (Ok s, p')
    /\ sum_itemsDiscovered s
       = Z.of_nat (List.length
                     (List.concat (batches (BATCH_SIZE env) (Items.items crawl))))
    /\ sourcesAttempted s = Z.of_nat (List.length (Items.sourceResults crawl))
    /\ sum_sourcesFailed s
       = Z.of_nat (List.length (filter (reports_failure selected)
                                       (Items.sourceResults crawl)))
    /\ sum_sourcesSuccess s
       = Z.of_nat (List.length (filter (reports_success selected)
                                       (Items.sourceResults crawl)))
    /\ sum_sourceErrors s
       = map error_entry (filter (reports_failure selected) (Items.sourceResults crawl)).
Proof.
  intro Hcrawl. unfold pass_body. unfold bind at 1. rewrite Hcrawl.
  destruct (count_sources_full selected (Items.sourceResults crawl) w initial_locals)
    as (l0 & H0 & F & S & E & C1 & _).
  unfold bind at 1. rewrite H0.
  destruct (process_batches_advance env
              (batches (BATCH_SIZE env) (Items.items crawl)) (w, l0))
    as (new & [w1 l1] & H1 & Hadv & Hlen).
  unfold bind at 1. rewrite H1.
  eexists. eexists. split.
  - unfold bind, locals, gets, Date_now, on_store, finalizeCrawlRun, modify, ret.
    cbn [fst snd store ticks outcomes]. reflexivity.
  - destruct Hadv as (A1 & A2 & A3 & A4 & A5 & A6 & A7 & A8 & A9 & A10).
    cbn [fst snd] in *.
    cbn [sum_itemsDiscovered sourcesAttempted sum_sourcesFailed sum_sourcesSuccess
         sum_sourceErrors].
    rewrite A2, A7, A8, A9, C1, F, S, E, Hlen.
    cbn [itemsDiscovered sourcesFailed sourcesSuccess sourceErrors initial_locals app].
    repeat split; lia.
Qed.

Lemma pipeline_summary env options (w : World) crawl :
  crawlSources env (selectSources env options) = Ok crawl ->
  exists s,
    fst (runIngestionPipeline env options w) = Ok s
    /\ sum_itemsDiscovered s
       = Z.of_nat (List.length
                     (List.concat (batches (BATCH_SIZE env) (Items.items crawl))))
    /\ sourcesAttempted s = Z.of_nat (List.length (Items.sourceResults crawl))
    /\ sum_sourcesFailed s
       = Z.of_nat (List.length (filter (reports_failure (selectSources env options))
                                       (Items.sourceResults crawl)))
    /\ sum_sourcesSuccess s
       = Z.of_nat (List.length (filter (reports_success (selectSources env options))
                                       (Items.sourceResults crawl)))
    /\ sum_sourceErrors s
       = map error_entry (filter (reports_failure (selectSources env options))
                                 (Items.sourceResults crawl)).
Proof.
  intro Hcrawl. rewrite runIngestionPipeline_run_pass. cbn [fst].
  set (id := next_rowid (crawl_runs_seq (store w)) (map run_id (crawl_runs (store w)))).
  set (r0 := started_run id (clock env (ticks w))).
  set (db1 := with_crawl_runs (store w) (crawl_runs (store w) ++ [r0]) id
                (crawl_runs_log (store w) ++ [InsertRun id])).
  set (w2 := {| store := db1; ticks := S (S (ticks w)); outcomes := outcomes w |}).
  assert (Hstart :
            run_pass env options (w, initial_locals)
            = try_catch
                (pass_body env (selectSources env options) id
                           (clock env (S (ticks w))))
                (pass_failed env id) (w2, initial_locals)).
  { reflexivity. }
  rewrite Hstart. unfold try_catch.
  destruct (pass_body_summary env (selectSources env options) id
              (clock env (S (ticks w))) w2 crawl Hcrawl) as (s & p' & H & R).
  rewrite H. exists s. split; [reflexivity|exact R].
Qed.

(** A pass that gets its crawl counts every crawled item as
    discovered, once, unless the concurrency setting is not a number:
    then it discovers nothing and still returns its summary. *)
Theorem every_crawled_item_is_discovered :
  forall (env : Environment) (options : Options) (w : World)
         (crawl : Items.CrawlResult),
    crawlSources env (selectSources env options) = Ok crawl ->
    exists s,
      fst (runIngestionPipeline env options w) = Ok s
      /\ sum_itemsDiscovered s
         = match ANALYSIS_CONCURRENCY env with
           | NaN => 0%Z
           | _ => Z.of_nat (List.length (Items.items crawl))
           end.
Proof.
  intros env options w crawl Hcrawl.
  destruct (pipeline_summary env options w crawl Hcrawl) as (s & H & N & _).
  exists s. split; [exact H|]. rewrite N, batches_concat.
  destruct (ANALYSIS_CONCURRENCY env); reflexivity.
Qed.

(** The example pass, with a service that answers 401 and a concurrency
    of 12. *)
Lemma every_crawled_item_witness :
  crawlSources (Examples.example_env Examples.example_401)
    (selectSources (Examples.example_env Examples.example_401) Examples.no_options)
  = Ok Examples.example_crawl
  /\ exists s,
      fst (runIngestionPipeline (Examples.example_env Examples.example_401)
             Examples.no_options Examples.fresh_world) = Ok s
      /\ sum_itemsDiscovered s
         = match ANALYSIS_CONCURRENCY (Examples.example_env Examples.example_401) with
           | NaN => 0%Z
           | _ => Z.of_nat (List.length (Items.items Examples.example_crawl))
           end.
Proof.
  split; [reflexivity|].
  exact (every_crawled_item_is_discovered (Examples.example_env Examples.example_401)
           Examples.no_options Examples.fresh_world Examples.example_crawl eq_refl).
Defined.

Lemma success_or_failure selected (r : Items.CrawlSourceResult) :
  existsb (fun entry => String.eqb (Sources.id entry) (Items.sourceId r)) selected = true ->
  (reports_success selected r = true /\ reports_failure selected r = false)
  \/ (reports_success selected r = false /\ reports_failure selected r = true).
Proof.
  intro H. unfold reports_success, reports_failure. rewrite H. cbn [andb].
  destruct (Items.error r) as [m|]; [destruct (truthy m)|]; cbn; auto.
Qed.

Lemma partition_counts selected (results : list Items.CrawlSourceResult) :
  Forall (fun r => existsb (fun entry => String.eqb (Sources.id entry) (Items.sourceId r))
                           selected = true) results ->
  List.length (filter (reports_success selected) results)
  + List.length (filter (reports_failure selected) results)
  = List.length results.
Proof.
  induction 1 as [|r results Hr _ IH]; [reflexivity|].
  cbn [filter].
  destruct (success_or_failure selected r Hr) as [[-> ->]|[-> ->]];
    cbn [List.length]; lia.
Qed.

Lemma never_both selected (results : list Items.CrawlSourceResult) :
  List.length (filter (reports_success selected) results)
  + List.length (filter (reports_failure selected) results)
  <= List.length results.
Proof.
  induction results as [|r results IH]; [reflexivity|]. cbn [filter].
  unfold reports_success at 1, reports_failure at 1.
  destruct (existsb _ selected); cbn [andb List.length]; [|lia].
  destruct (Items.error r) as [m|]; [destruct (truthy m)|]; simpl; lia.
Qed.

(** In the summary of a pass the sources attempted are the source
    results of the crawl; the failed ones are the results that name a
    selected source and carry a message, each with its entry in the
    list of errors, in the order of the crawl; the successful ones are
    the results that name a selected source and carry none; a result
    that names no selected source is counted in neither, so the two
    counters never add up to more than the sources attempted. *)
Theorem source_counters_follow_the_crawl :
  forall (env : Environment) (options : Options) (w : World)
         (crawl : Items.CrawlResult),
    crawlSources env (selectSources env options) = Ok crawl ->
    exists s,
      fst (runIngestionPipeline env options w) = Ok s
      /\ sourcesAttempted s = Z.of_nat (List.length (Items.sourceResults crawl))
      /\ sum_sourcesFailed s
         = Z.of_nat (List.length (filter (reports_failure (selectSources env options))
                                         (Items.sourceResults crawl)))
      /\ sum_sourcesSuccess s
         = Z.of_nat (List.length (filter (reports_success (selectSources env options))
                                         (Items.sourceResults crawl)))
      /\ sum_sourceErrors s
         = map error_entry (filter (reports_failure (selectSources env options))
                                   (Items.sourceResults crawl))
      /\ (sum_sourcesSuccess s + sum_sourcesFailed s <= sourcesAttempted s)%Z.
Proof.
  intros env options w crawl Hcrawl.
  destruct (pipeline_summary env options w crawl Hcrawl)
    as (s & H & _ & A & F & S & E).
  exists s. split; [exact H|]. split; [exact A|]. split; [exact F|].
  split; [exact S|]. split; [exact E|].
  rewrite A, F, S.
  pose proof (never_both (selectSources env options) (Items.sourceResults crawl)).
  lia.
Qed.

(** The source counters of the example pass. *)
Lemma source_counters_witness :
  crawlSources (Examples.example_env Examples.example_401)
    (selectSources (Examples.example_env Examples.example_401) Examples.no_options)
  = Ok Examples.example_crawl
  /\ exists s,
      fst (runIngestionPipeline (Examples.example_env Examples.example_401)
             Examples.no_options Examples.fresh_world) = Ok s
      /\ sourcesAttempted s
         = Z.of_nat (List.length (Items.sourceResults Examples.example_crawl))
      /\ sum_sourcesFailed s
         = Z.of_nat (List.length
                       (filter (reports_failure
                                  (selectSources (Examples.example_env Examples.example_401)
                                     Examples.no_options))
                               (Items.sourceResults Examples.example_crawl)))
      /\ sum_sourcesSuccess s
         = Z.of_nat (List.length
                       (filter (reports_success
                                  (selectSources (Examples.example_env Examples.example_401)
                                     Examples.no_options))
                               (Items.sourceResults Examples.example_crawl)))
      /\ sum_sourceErrors s
         = map error_entry
               (filter (reports_failure
                          (selectSources (Examples.example_env Examples.example_401)
                             Examples.no_options))
                       (Items.sourceResults Examples.example_crawl))
      /\ (sum_sourcesSuccess s + sum_sourcesFailed s <= sourcesAttempted s)%Z.
Proof.
  split; [reflexivity|].
  exact (source_counters_follow_the_crawl (Examples.example_env Examples.example_401)
           Examples.no_options Examples.fresh_world Examples.example_crawl eq_refl).
Defined.

Lemma crawl_names_its_sources net sources :
  Forall (fun r => existsb (fun entry => String.eqb (Sources.id entry) (Items.sourceId r))
                           sources = true)
         (Items.sourceResults (Crawl.crawlSources net sources)).
Proof.
  rewrite crawlSources_unfold. cbn [Items.sourceResults].
  rewrite file_runs_results, file_searches_results.
  2:{ intros x Hx. apply filter_In in Hx. apply Hx. }
  rewrite <- map_app. apply Forall_forall. intros r Hr.
  apply in_map_iff in Hr as (source & <- & Hs).
  cbn [Crawl.result_of Items.sourceId]. rewrite crawlSource_id.
  apply existsb_exists. exists source. split; [|apply String.eqb_refl].
  apply in_app_or in Hs as [Hs|Hs]; apply filter_In in Hs; apply Hs.
Qed.

(** With the crawler of crawler.ts a pass always returns its summary,
    never as failed: the crawler answers for every selected source,
    so the sources attempted are the selected sources, each of them is
    counted as a success or as a failure, and the status is partial
    when one of them failed and completed otherwise. *)
Theorem pass_over_the_crawler_accounts_for_every_source :
  forall (env : Environment) (net : Crawl.Network) (options : Options) (w : World),
    (forall sources, crawlSources env sources = Ok (Crawl.crawlSources net sources)) ->
    exists s,
      fst (runIngestionPipeline env options w) = Ok s
      /\ sourcesAttempted s = Z.of_nat (List.length (selectSources env options))
      /\ (sum_sourcesSuccess s + sum_sourcesFailed s = sourcesAttempted s)%Z
      /\ status s = (if (0 <? sum_sourcesFailed s)%Z then crawl_partial else crawl_completed)
      /\ List.length (sum_sourceErrors s) = Z.to_nat (sum_sourcesFailed s).
Proof.
  intros env net options w Hreal.
  specialize (Hreal (selectSources env options)).
  destruct (pipeline_summary env options w _ Hreal) as (s & H & _ & A & F & S & E).
  exists s. split; [exact H|].
  pose proof (crawlSources_results_length net (selectSources env options)) as Hlen.
  split; [rewrite A, Hlen; reflexivity|].
  split.
  { rewrite A, F, S.
    pose proof (partition_counts _ _
                  (crawl_names_its_sources net (selectSources env options))).
    lia. }
  split.
  { destruct (run_pass_spec env options w)
      as (res & p' & new & run & Hrun & _ & _ & _ & _ & _ & Hcase).
    rewrite Hreal in Hcase. destruct Hcase as (s' & Hs' & _ & Hst & _).
    rewrite runIngestionPipeline_run_pass, Hrun in H. cbn [fst] in H.
    rewrite Hs' in H. inversion H; subst s'. rewrite Hst, F.
    unfold some_source_failed.
    generalize (Items.sourceResults (Crawl.crawlSources net (selectSources env options))).
    intro l. induction l as [|r l IH]; [reflexivity|].
    cbn [existsb filter].
    destruct (reports_failure (selectSources env options) r); cbn [orb List.length].
    - rewrite Nat2Z.inj_succ.
      destruct (Z.ltb_spec 0 (Z.succ (Z.of_nat (List.length
                  (filter (reports_failure (selectSources env options)) l)))));
        [reflexivity|lia].
    - exact IH. }
  rewrite E, F, length_map, Nat2Z.id. reflexivity.
Qed.

(** The example source crawled on a network that is down. *)
Lemma pass_over_the_crawler_witness :
  (forall sources,
      crawlSources Examples2.crawler_env sources
      = Ok (Crawl.crawlSources Examples2.dead_network sources))
  /\ exists s,
      fst (runIngestionPipeline Examples2.crawler_env Examples.no_options
             Examples.fresh_world) = Ok s
      /\ sourcesAttempted s
         = Z.of_nat (List.length (selectSources Examples2.crawler_env Examples.no_options))
      /\ (sum_sourcesSuccess s + sum_sourcesFailed s = sourcesAttempted s)%Z
      /\ status s = (if (0 <? sum_sourcesFailed s)%Z then crawl_partial else crawl_completed)
      /\ List.length (sum_sourceErrors s) = Z.to_nat (sum_sourcesFailed s).
Proof.
  split; [intro sources; reflexivity|].
  exact (pass_over_the_crawler_accounts_for_every_source Examples2.crawler_env
           Examples2.dead_network Examples.no_options Examples.fresh_world
           (fun sources => eq_refl)).
Defined.





Lemma fold_max_text_last l acc x :
  fold_left max_text (l ++ [x]) acc = max_text (fold_left max_text l acc) x.
Proof. rewrite fold_left_app. reflexivity. Qed.

Lemma ltb_irreflexive s : String.ltb s s = false.
Proof.
  unfold String.ltb. pose proof (String.compare_antisym s s) as H.
  destruct (String.compare s s); try reflexivity; discriminate.
Qed.

(** When a pass ends, whether it returns or throws, the last crawl
    time read from the store is the later of the one read before the
    pass and the time at which the run of the pass was finalized: it
    is always set, and it is never earlier than that time. *)
Theorem a_pass_sets_the_last_crawl_time :
  forall (env : Environment) (options : Options) (w : World),
  exists (run : CrawlRunRow) (t : string),
    crawl_runs (store (snd (runIngestionPipeline env options w)))
    = crawl_runs (store w) ++ [run]
    /\ run_finished_at run = Some t
    /\ getLastCrawlTime (store (snd (runIngestionPipeline env options w)))
       = max_text (getLastCrawlTime (store w)) (Some t)
    /\ exists last,
        getLastCrawlTime (store (snd (runIngestionPipeline env options w))) = Some last
        /\ String.ltb last t = false.
Proof.
  intros env options w.
  destruct (run_pass_spec env options w)
    as (res & p' & new & run & H & _ & Hruns & _ & (t & Ht) & _).
  exists run, t. rewrite runIngestionPipeline_run_pass, H. cbn [fst snd].
  split; [exact Hruns|]. split; [exact Ht|].
  assert (E : getLastCrawlTime (store (fst p'))
              = max_text (getLastCrawlTime (store w)) (Some t)).
  { unfold getLastCrawlTime. rewrite Hruns, map_app. cbn [map].
    rewrite fold_max_text_last, Ht. reflexivity. }
  split; [exact E|]. rewrite E. unfold max_text.
  destruct (getLastCrawlTime (store w)) as [m|].
  - destruct (String.ltb m t) eqn:Hlt; eexists; (split; [reflexivity|]).
    + apply ltb_irreflexive.
    + exact Hlt.
  - eexists. split; [reflexivity|apply ltb_irreflexive].
Qed.

Lemma trimmed_parts (l : list string) : Forall trimmed (filter truthy (map trim l)).
Proof.
  apply Forall_forall. intros x Hx. apply filter_In in Hx as [Hx Ht].
  apply in_map_iff in Hx as (y & <- & _). apply trimmed_trim. exact Ht.
Qed.

Lemma last_is_in (A : Type) (l : list A) (d : A) : l <> [] -> In (List.last l d) l.
Proof.
  induction l as [|x l IH]; [congruence|]. intros _.
  destruct l as [|y l]; [left; reflexivity|].
  right. apply IH. discriminate.
Qed.

Lemma or_else_trimmed a b : trimmed a -> or_else a b = a.
Proof. intros [Ha _]. destruct a; [congruence|reflexivity]. Qed.

Lemma join_not_empty sep (l : list string) :
  l <> [] -> Forall trimmed l -> join sep l <> EmptyString.
Proof.
  destruct l as [|p rest]; [congruence|]. intros _ H.
  inversion H as [|? ? [Hp _] _]; subst. cbn [join].
  destruct rest; [exact Hp|]. destruct p; [congruence|discriminate].
Qed.

Lemma or_null_not_empty s : or_null s <> Some EmptyString.
Proof. unfold or_null. destruct s; cbn; discriminate. Qed.

(** [splitJurisdiction] always names a country: a text that is not
    empty and has no white space around it, which the engine's own
    trimming and its default Unknown leave as it is; and it never gives
    an empty state, only no state or a state that is not empty. *)
Theorem splitJurisdiction_always_names_a_country :
  forall rawJurisdiction : string,
    trimmed (fst (splitJurisdiction rawJurisdiction))
    /\ or_else (trim (fst (splitJurisdiction rawJurisdiction))) "Unknown"
       = fst (splitJurisdiction rawJurisdiction)
    /\ snd (splitJurisdiction rawJurisdiction) <> Some EmptyString.
Proof.
  intro raw.
  assert (H : trimmed (fst (splitJurisdiction raw))
              /\ snd (splitJurisdiction raw) <> Some EmptyString).
  { unfold splitJurisdiction.
    destruct (truthy (trim raw)) eqn:Ht; cbn [negb].
    2:{ cbn [fst snd]. split; [split; [discriminate|reflexivity]|discriminate]. }
    pose proof (trimmed_parts (split_on ","%char (trim raw))) as Hparts.
    destruct (filter truthy (map trim (split_on ","%char (trim raw))))
      as [|a [|b rest]] eqn:E.
    - cbn [List.length Nat.ltb Nat.leb fst snd].
      split; [apply trimmed_trim; exact Ht|discriminate].
    - cbn [List.length Nat.ltb Nat.leb fst snd].
      split; [apply trimmed_trim; exact Ht|discriminate].
    - assert (Ha : trimmed a) by (inversion Hparts; assumption).
      assert (Hl : trimmed (List.last (a :: b :: rest) EmptyString)).
      { rewrite Forall_forall in Hparts. apply Hparts. apply last_is_in. discriminate. }
      change (1 <? List.length (a :: b :: rest))%nat with true. cbv iota.
      cbn [hd]. rewrite (or_else_trimmed a "Unknown" Ha).
      rewrite (or_else_trimmed _ "Unknown" Hl).
      destruct (isLikelyCountry (List.last (a :: b :: rest) EmptyString)).
      { cbn [fst snd]. split; [exact Hl|apply or_null_not_empty]. }
      destruct (isLikelyCountry a); cbn [fst snd tl].
      { split; [exact Ha|apply or_null_not_empty]. }
      split; [exact Ha|].
      intro K. inversion K as [K'].
      apply (join_not_empty ", " (b :: rest)); [discriminate| |exact K'].
      inversion Hparts; assumption. }
  destruct H as [Hc Hs]. split; [exact Hc|]. split; [|exact Hs].
  destruct Hc as [Hne Htrim]. rewrite Htrim. apply or_else_truthy. exact Hne.
Qed.


(** The quality gate rejects the thin analyses and nothing else: an
    analysis passes it exactly when its summary, stripped of markup,
    has 60 characters or more and none of the boilerplate phrases, and
    title, summary and raw text together hold a regulatory keyword. *)
Theorem quality_gate_rejects_exactly_the_thin :
  forall (item : Items.CrawledItem) (analysis : Analyzer.AnalyzedItem),
    (isLowQualityAnalysis item analysis = true <-> thin_analysis item analysis)
    /\ (isLowQualityAnalysis item analysis = false <->
        60 <= String.length (sanitizeText (Analyzer.summary analysis))
        /\ (forall phrase,
               In phrase boilerplatePhrases ->
               includes (toLowerCase (sanitizeText (Analyzer.summary analysis))) phrase
               = false)
        /\ exists keyword,
            In keyword regulatoryKeywords
            /\ includes (toLowerCase (gate_text item analysis)) keyword = true).
Proof.
  intros item analysis.
  assert (Hfalse :
            isLowQualityAnalysis item analysis = false <->
            60 <= String.length (sanitizeText (Analyzer.summary analysis))
            /\ (forall phrase,
                   In phrase boilerplatePhrases ->
                   includes (toLowerCase (sanitizeText (Analyzer.summary analysis))) phrase
                   = false)
            /\ exists keyword,
                In keyword regulatoryKeywords
                /\ includes (toLowerCase (gate_text item analysis)) keyword = true).
  { unfold isLowQualityAnalysis. rewrite test_boilerplate, test_regulatoryKeyword.
    fold (gate_text item analysis).
    destruct (String.length (sanitizeText (Analyzer.summary analysis)) <? 60)%nat eqn:Hlen.
    { rewrite orb_true_r. split; [discriminate|].
      intros [H _]. apply Nat.ltb_lt in Hlen. lia. }
    apply Nat.ltb_ge in Hlen.
    assert (Ht : truthy (sanitizeText (Analyzer.summary analysis)) = true).
    { destruct (sanitizeText (Analyzer.summary analysis)); [cbn in Hlen; lia|reflexivity]. }
    rewrite Ht. cbn [negb orb].
    destruct (existsb (fun w => includes (toLowerCase (sanitizeText
                (Analyzer.summary analysis))) w) boilerplatePhrases) eqn:Hb.
    { split; [discriminate|]. intros (_ & Hno & _).
      apply existsb_exists in Hb as (phrase & Hin & Hinc).
      rewrite (Hno phrase Hin) in Hinc. discriminate. }
    destruct (existsb (fun w => includes (toLowerCase (gate_text item analysis)) w)
                      regulatoryKeywords) eqn:Hk; cbn [negb].
    - split; [|reflexivity]. intros _. split; [exact Hlen|]. split.
      + intros phrase Hin.
        destruct (includes (toLowerCase (sanitizeText (Analyzer.summary analysis)))
                           phrase) eqn:Hinc; [|reflexivity].
        assert (K : existsb (fun w => includes (toLowerCase (sanitizeText
                      (Analyzer.summary analysis))) w) boilerplatePhrases = true).
        { apply existsb_exists. exists phrase. split; assumption. }
        congruence.
      + apply existsb_exists in Hk. exact Hk.
    - split; [discriminate|]. intros (_ & _ & keyword & Hin & Hinc).
      assert (K : existsb (fun w => includes (toLowerCase (gate_text item analysis)) w)
                          regulatoryKeywords = true).
      { apply existsb_exists. exists keyword. split; assumption. }
      congruence. }
  split; [|exact Hfalse].
  split; [|apply thin_is_low_quality].
  intro Htrue.
  destruct (Nat.lt_ge_cases
              (String.length (sanitizeText (Analyzer.summary analysis))) 60) as [Hs|Hs];
    [right; left; exact Hs|].
  destruct (existsb (fun w => includes (toLowerCase (sanitizeText
              (Analyzer.summary analysis))) w) boilerplatePhrases) eqn:Hb.
  { apply existsb_exists in Hb as (phrase & Hin & Hinc).
    right. right. left. exists phrase. split; assumption. }
  right. right. right. intros keyword Hin.
  destruct (includes (toLowerCase (gate_text item analysis)) keyword) eqn:Hinc;
    [|reflexivity].
  exfalso.
  assert (K : isLowQualityAnalysis item analysis = false).
  { apply Hfalse. split; [exact Hs|]. split.
    - intros phrase Hp.
      destruct (includes (toLowerCase (sanitizeText (Analyzer.summary analysis)))
                         phrase) eqn:Hi; [|reflexivity].
      assert (K : existsb (fun w => includes (toLowerCase (sanitizeText
                    (Analyzer.summary analysis))) w) boilerplatePhrases = true).
      { apply existsb_exists. exists phrase. split; assumption. }
      congruence.
    - exists keyword. split; assumption. }
  congruence.
Qed.

End PassExtras.
